(** * CSV-to-chart pipeline of [App/views.py]

    A shallow embedding of the three pure functions of the dashboard view,
    [_parse_csv], [_build_dataset_options] and [_build_radar_chart], and of
    the view [dashboard], and the properties of the pipeline proved over
    it.

    - A Python [str] is a sequence of Unicode code points.
    - A Python [float] is an IEEE 754 binary64 value; its arithmetic is the
      executable specification of the Standard Library ([SpecFloat]) at
      precision 53 and maximal exponent 1024, and [x / y] raises on a zero
      divisor as Python's does.
    - A [dict] is a finite map ([gmap]); the code only tests membership,
      reads, assigns and calls [setdefault], so insertion order is not
      observable.
    - Exceptions are the left summand of a sum type.
    - [_parse_csv] starts from the rows [csv.reader] yields for the decoded
      file, and takes the builtin [float] as a parameter; [PyFloat] gives
      that builtin on ASCII input, for the concrete inputs.
    - In the view [dashboard] the reading of the uploaded file (decoding
      and [csv.reader]) is a parameter that gives the rows or raises. *)

From Stdlib Require Import ZArith NArith List String Ascii Bool Lia.
From Stdlib Require Import Floats.SpecFloat.
From stdpp Require Import base option list gmap.

Local Open Scope Z_scope.

(* ================================================================== *)
(** * Python strings *)
(* ================================================================== *)

(** A code point, and a string as the list of its code points. *)
Abbreviation char := N (only parsing).
Abbreviation str := (list N) (only parsing).

Module Utf8.

(** Decoder for the UTF-8 bytes of a source literal: [acc] holds the code
    point being assembled and [need] the continuation bytes still due. *)
Fixpoint decode (bs : list N) (acc : N) (need : nat) : str :=
  match bs with
  | [] => []
  | b :: r =>
      match need with
      | S k =>
          let acc' := (acc * 64 + b mod 64)%N in
          match k with
          | O => acc' :: decode r 0%N O
          | S _ => decode r acc' k
          end
      | O =>
          if (b <? 128)%N then b :: decode r 0%N O
          else if (b <? 224)%N then decode r (b mod 32)%N 1%nat
          else if (b <? 240)%N then decode r (b mod 16)%N 2%nat
          else decode r (b mod 8)%N 3%nat
      end
  end.

Definition of_string (s : string) : str :=
  decode (List.map N_of_ascii (list_ascii_of_string s)) 0%N O.

End Utf8.

(** [u "..."] is the Python string written as the literal ["..."]. *)
Abbreviation u := Utf8.of_string (only parsing).

(** [str.isspace] for one code point (the set [str.strip] removes). *)
Definition py_isspace (c : char) : bool :=
  ((9 <=? c) && (c <=? 13) || (28 <=? c) && (c <=? 32)
   || (c =? 133) || (c =? 160) || (c =? 5760)
   || (8192 <=? c) && (c <=? 8202)
   || (c =? 8232) || (c =? 8233) || (c =? 8239) || (c =? 8287)
   || (c =? 12288))%N.

Fixpoint lstrip (s : str) : str :=
  match s with
  | [] => []
  | c :: r => if py_isspace c then lstrip r else s
  end.

Definition rstrip (s : str) : str := rev (lstrip (rev s)).

(** [s.strip()] *)
Definition strip (s : str) : str := rstrip (lstrip s).

(** Truth value of a string: non-empty. *)
Definition str_truthy (s : str) : bool :=
  match s with [] => false | _ :: _ => true end.

Definition str_eqb (a b : str) : bool := bool_decide (a = b).

(* ================================================================== *)
(** * Python floats *)
(* ================================================================== *)

Definition prec : Z := 53.
Definition emax : Z := 1024.

Abbreviation float := spec_float (only parsing).

Module Float.

Definition mul (x y : float) : float := SFmul prec emax x y.
Definition abs (x : float) : float := SFabs x.
Definition ltb (x y : float) : bool := SFltb x y.
Definition leb (x y : float) : bool := SFleb x y.

(** [x > y] *)
Definition gtb (x y : float) : bool := SFltb y x.

(** Truth value of a float: anything but a zero ([nan] is true). *)
Definition truthy (x : float) : bool :=
  match x with S754_zero _ => false | _ => true end.

(** [float(n)] for an [int] literal [n]. *)
Definition of_Z (n : Z) : float := binary_normalize prec emax n 0 false.

Definition zero : float := S754_zero false.
Definition one : float := Eval cbv in of_Z 1.

(** A well-formed finite binary64 value. *)
Definition finite (x : float) : bool :=
  match x with
  | S754_zero _ => true
  | S754_finite _ m e => bounded prec emax m e
  | _ => false
  end.

(** The sign bit is set (negative numbers and [-0.0]). *)
Definition signbit (x : float) : bool :=
  match x with
  | S754_zero s | S754_infinity s | S754_finite s _ _ => s
  | S754_nan => false
  end.

End Float.

(** Exceptions the view can meet: those of the three functions, and the
    [csv.Error] of the reader, which is not a [ValueError]. *)
Inductive exn : Type :=
  | ValueError (msg : str)
  | ZeroDivisionError
  | IndexError
  | CsvError (msg : str).

(** Computations that may raise. *)
Definition M (A : Type) : Type := exn + A.

Definition ret {A} (a : A) : M A := inr a.
Definition raise {A} (e : exn) : M A := inl e.
Definition bind {A B} (m : M A) (k : A -> M B) : M B :=
  match m with
  | inl e => inl e
  | inr a => k a
  end.

Notation "x <- m ;; k" := (bind m (fun x => k))
  (at level 90, m at next level, right associativity).

(** [x / y] on floats raises on a zero divisor. *)
Definition truediv (x y : float) : M float :=
  match y with
  | S754_zero _ => raise ZeroDivisionError
  | _ => ret (SFdiv prec emax x y)
  end.

(* ================================================================== *)
(** * The builtin [float(str)] on ASCII input *)
(* ================================================================== *)

(** The grammar of [float] for a string made of ASCII characters and
    without surrounding blanks (the code strips a cell before it converts
    it): an optional sign, then [inf], [infinity] or [nan] in any case, or
    a decimal number with an optional exponent, where single underscores
    may separate digits. The decimal value is rounded to the nearest
    binary64 number, ties to even. Decimal digits of other scripts, which
    the builtin also reads, are left out: nothing proved about
    [_parse_csv] depends on which strings convert. *)
Module PyFloat.

Definition is_digit (c : char) : bool := ((48 <=? c) && (c <=? 57))%N.
Definition digit_val (c : char) : Z := Z.of_N (c - 48).

(** ASCII lower case, for the case-insensitive words [inf] and [nan]. *)
Definition lower (c : char) : char :=
  if ((65 <=? c) && (c <=? 90))%N then (c + 32)%N else c.

(** An underscore is legal only between two digits; legal ones are
    dropped, an illegal one fails the parse. *)
Fixpoint drop_underscores (prev_digit : bool) (s : str) : option str :=
  match s with
  | [] => Some []
  | c :: r =>
      if (c =? 95)%N then
        match r with
        | d :: _ =>
            if prev_digit && is_digit d then drop_underscores false r
            else None
        | [] => None
        end
      else
        match drop_underscores (is_digit c) r with
        | Some r' => Some (c :: r')
        | None => None
        end
  end.

(** Longest prefix of digits and the rest. *)
Fixpoint span_digits (s : str) : list Z * str :=
  match s with
  | c :: r =>
      if is_digit c then
        let '(ds, rest) := span_digits r in (digit_val c :: ds, rest)
      else ([], s)
  | [] => ([], [])
  end.

Definition Z_of_digits (ds : list Z) : Z :=
  fold_left (fun acc d => 10 * acc + d) ds 0.

(** Correctly rounded [m * 10^e] with sign [s]. *)
Definition of_decimal (s : bool) (m e : Z) : float :=
  match m with
  | Zpos p =>
      if 0 <=? e then
        binary_round prec emax s (Z.to_pos (Zpos p * 10 ^ e)) 0
      else
        SFdiv prec emax (S754_finite s p 0)
              (S754_finite false (Z.to_pos (10 ^ (- e))) 0)
  | _ => S754_zero s
  end.

(** Optional sign: the flag and the rest. *)
Definition take_sign (s : str) : bool * str :=
  match s with
  | 43%N :: r => (false, r)
  | 45%N :: r => (true, r)
  | _ => (false, s)
  end.

(** Optional exponent part [e[+-]digits], up to the end of the input. *)
Definition parse_exponent (s : str) : option Z :=
  match s with
  | [] => Some 0
  | c :: r =>
      if (lower c =? 101)%N then
        let '(neg, r1) := take_sign r in
        match span_digits r1 with
        | ((_ :: _) as ds, []) =>
            Some (if neg then - Z_of_digits ds else Z_of_digits ds)
        | _ => None
        end
      else None
  end.

Definition parse_number (neg : bool) (s : str) : option float :=
  let '(ip, r1) := span_digits s in
  let '(fp, r2) :=
    match r1 with
    | 46%N :: r => span_digits r
    | _ => ([], r1)
    end in
  match ip, fp with
  | [], [] => None
  | _, _ =>
      match parse_exponent r2 with
      | Some x =>
          Some (of_decimal neg (Z_of_digits (ip ++ fp))
                           (x - Z.of_nat (length fp)))
      | None => None
      end
  end.

(** [float(s)] for a string without surrounding blanks; [None] stands for
    the [ValueError] the caller catches. *)
Definition float_of_str (s : str) : option float :=
  let '(neg, body) := take_sign s in
  let word := List.map lower body in
  if bool_decide (word = u "inf") || bool_decide (word = u "infinity")
  then Some (S754_infinity neg)
  else if bool_decide (word = u "nan") then Some S754_nan
  else
    match drop_underscores false body with
    | Some body' => parse_number neg body'
    | None => None
    end.

End PyFloat.

(* ================================================================== *)
(** * Python list helpers *)
(* ================================================================== *)

(** [l[-n:]] for a positive [n]: the last [n] items, or all of [l] when it
    has fewer. *)
Definition slice_last {A} (n : nat) (l : list A) : list A :=
  drop (length l - n) l.

(** [enumerate(l)] *)
Definition enumerate {A} (l : list A) : list (nat * A) :=
  combine (seq 0 (length l)) l.

(** A loop whose body may raise. *)
Fixpoint foldM {A S} (f : S -> A -> M S) (l : list A) (s : S) : M S :=
  match l with
  | [] => ret s
  | x :: r => s' <- f s x ;; foldM f r s'
  end.

(** [d.setdefault(k, v)], for its effect on [d]. *)
Definition setdefault {V} (k : str) (v : V) (d : gmap str V) : gmap str V :=
  match d !! k with
  | Some _ => d
  | None => <[k := v]> d
  end.

(* ================================================================== *)
(** * Module constants *)
(* ================================================================== *)

Definition DEFAULT_HIGHLIGHT_LABEL : str := Eval cbv in u "自己資産".

Definition RADAR_ITEMS : list (str * list str) := Eval cbv in
  [ (u "平均単価:P", [u "P"; u "平均単価"]);
    (u "変動単価:V", [u "V"; u "変動単価"]);
    (u "売上個数:Q", [u "Q"; u "売上個数"]);
    (u "売上高:PQ", [u "PQ"; u "売上高"]);
    (u "固定費:F", [u "F"; u "固定費"]);
    (u "経常利益:G", [u "G"; u "経常利益"]);
    (u "自己資本", [u "自己資本"]) ].

(** The placeholder label of a row whose first cell is blank. *)
Definition UNSET_LABEL : str := Eval cbv in u "未設定".

(** The three failures of [_parse_csv], told apart by their message. *)
Definition EmptyInputError : exn :=
  Eval cbv in ValueError (u "CSVにデータがありません。").
Definition MalformedHeaderError : exn :=
  Eval cbv in ValueError (u "CSVの列が不足しています。").
Definition NoNumericDataError : exn :=
  Eval cbv in
    ValueError (u "グラフ化可能な数値データが見つかりませんでした。").

(* ================================================================== *)
(** * Data model *)
(* ================================================================== *)

(** A numeric series: one optional float per period. *)
Abbreviation series := (list (option spec_float)) (only parsing).

(** [{"label": ..., "data": ...}] *)
Record ChartDataset : Type := {
  ds_label : str;
  ds_data : series
}.

(** The dictionary [_parse_csv] returns. *)
Record Parsed : Type := {
  headers : list str;
  rows : list (list str);
  periods : list str;
  datasets : list ChartDataset;
  row_lookup : gmap str series
}.

(** The three accumulators of the row loop of [_parse_csv]. *)
Record LoopState : Type := {
  table_rows : list (list str);
  chart_datasets : list ChartDataset;
  current_lookup : gmap str series
}.

(** [{"label": ..., "checked": ...}] *)
Record DatasetOption : Type := {
  opt_label : str;
  opt_checked : bool
}.

(** [{"label": ..., "max_value": ...}] *)
Record AxisMeta : Type := {
  am_label : str;
  am_max_value : float
}.

(** [{"label": ..., "data": ..., "originalData": ...}] *)
Record RadarDataset : Type := {
  rd_label : str;
  rd_data : list float;
  rd_originalData : list float
}.

(* ================================================================== *)
(** * [_parse_csv] *)
(* ================================================================== *)

Section ParseCsv.

(** The builtin [float] applied to a string: [None] is its [ValueError]. *)
Variable to_float : str -> option float.

(** [any(cell.strip() for cell in row)] *)
Definition has_content (row : list str) : bool :=
  existsb (fun cell => str_truthy (strip cell)) row.

(** One turn of the loop over the numeric segment. *)
Definition convert_cell (acc : series * bool) (value : str) : series * bool :=
  let '(numeric_values, has_number) := acc in
  let value := strip value in
  if str_eqb value [] then (numeric_values ++ [None], has_number)
  else
    match to_float value with
    | Some x => (numeric_values ++ [Some x], true)
    | None => (numeric_values ++ [None], has_number)
    end.

(** The numeric segment of a row's value cells. *)
Definition numeric_segment_of (period_count : nat) (values : list str)
  : list str :=
  let numeric_segment :=
    if (period_count =? 0)%nat then values
    else slice_last period_count values in
  if (length numeric_segment <? period_count)%nat then
    numeric_segment
      ++ replicate (period_count - length numeric_segment) []
  else numeric_segment.

(** One turn of the loop over the descriptors. *)
Definition register_descriptor (numeric_values : series)
    (d : gmap str series) (descriptor : str) : gmap str series :=
  let descriptor := strip descriptor in
  if str_truthy descriptor then setdefault descriptor numeric_values d
  else d.

(** The label of a row from its first cell. *)
Definition label_of (cell : str) : str :=
  let l := strip cell in
  if str_truthy l then l else UNSET_LABEL.

(** One turn of the loop over the data rows. *)
Definition process_row (period_count : nat) (st : LoopState)
    (row : list str) : LoopState :=
  match row with
  | [] => st
  | cell :: values =>
      let label := label_of cell in
      let table_rows := table_rows st ++ [label :: values] in
      let numeric_segment := numeric_segment_of period_count values in
      let '(numeric_values, has_number) :=
        fold_left convert_cell numeric_segment ([], false) in
      if has_number then
        let chart_datasets :=
          chart_datasets st
            ++ [{| ds_label := label; ds_data := numeric_values |}] in
        let row_lookup := <[label := numeric_values]> (current_lookup st) in
        let metadata_columns :=
          Z.of_nat (length values) - Z.of_nat period_count in
        let row_lookup :=
          if 0 <? metadata_columns then
            let descriptors := take (Z.to_nat metadata_columns) values in
            fold_left (register_descriptor numeric_values)
                      descriptors row_lookup
          else row_lookup in
        {| table_rows := table_rows;
           chart_datasets := chart_datasets;
           current_lookup := row_lookup |}
      else
        {| table_rows := table_rows;
           chart_datasets := chart_datasets st;
           current_lookup := current_lookup st |}
  end.

Definition initial_state : LoopState :=
  {| table_rows := []; chart_datasets := []; current_lookup := ∅ |}.

(** [_parse_csv], from the rows [csv.reader] yields for the decoded file. *)
Definition _parse_csv (reader : list (list str)) : M Parsed :=
  let rows := List.filter has_content reader in
  match rows with
  | [] => raise EmptyInputError
  | headers :: data_rows =>
      if (length headers <? 2)%nat then raise MalformedHeaderError
      else
        let periods := drop 1 headers in
        let period_count := length periods in
        let st :=
          fold_left (process_row period_count) data_rows initial_state in
        match chart_datasets st with
        | [] => raise NoNumericDataError
        | _ :: _ =>
            ret {| headers := headers;
                   rows := table_rows st;
                   periods := periods;
                   datasets := chart_datasets st;
                   row_lookup := current_lookup st |}
        end
  end.

End ParseCsv.

(* ================================================================== *)
(** * [_build_dataset_options] *)
(* ================================================================== *)

Definition _build_dataset_options (datasets : list ChartDataset)
  : list DatasetOption * str :=
  let labels := List.map ds_label datasets in
  let highlight_label := DEFAULT_HIGHLIGHT_LABEL in
  let highlight_label :=
    match labels with
    | first :: _ =>
        if negb (existsb (str_eqb highlight_label) labels) then first
        else highlight_label
    | [] => highlight_label
    end in
  let options :=
    List.map (fun label =>
                {| opt_label := label;
                   opt_checked := str_eqb label highlight_label |})
             labels in
  (options, highlight_label).

(* ================================================================== *)
(** * [_build_radar_chart] *)
(* ================================================================== *)

(** [float(val) if val is not None else 0.0] *)
Definition float_or_zero (val : option float) : float :=
  match val with
  | Some v => v
  | None => Float.zero
  end.

(** The key scan of the first loop: the series of the first key present,
    with missing entries read as [0.0]; the empty list when no key is. *)
Fixpoint resolve_values (keys : list str) (d : gmap str series) : list float :=
  match keys with
  | [] => []
  | key :: rest =>
      match d !! key with
      | Some s => List.map float_or_zero s
      | None => resolve_values rest d
      end
  end.

(** The key scan of the second loop: the series of the first key present. *)
Fixpoint resolve_series (keys : list str) (d : gmap str series)
  : option series :=
  match keys with
  | [] => None
  | key :: rest =>
      match d !! key with
      | Some s => Some s
      | None => resolve_series rest d
      end
  end.

(** [max(l, default=d)]: the first item no later item is greater than. *)
Definition py_max (l : list float) (default : float) : float :=
  match l with
  | [] => default
  | x :: r => fold_left (fun best y => if Float.gtb y best then y else best) r x
  end.

(** [max_value if max_value else 1.0] *)
Definition floor_to_one (max_value : float) : float :=
  if Float.truthy max_value then max_value else Float.one.

(** One turn of the loop over the axes. *)
Definition axis_step (d : gmap str series)
    (acc : list str * list AxisMeta) (item : str * list str)
  : list str * list AxisMeta :=
  let '(axis_labels, axis_meta) := acc in
  let '(axis_label, keys) := item in
  let axis_labels := axis_labels ++ [axis_label] in
  let values := resolve_values keys d in
  let max_value := py_max (List.map Float.abs values) Float.zero in
  (axis_labels,
   axis_meta ++ [{| am_label := axis_label;
                    am_max_value := floor_to_one max_value |}]).

(** The value of a series at a period: [0.0] when there is no series, the
    series is empty or too short, or the entry is [None]. *)
Definition value_at (series_values : option series) (period_index : nat)
  : float :=
  match series_values with
  | Some ((_ :: _) as sv) =>
      if (period_index <? length sv)%nat then
        match sv !! period_index with
        | Some (Some entry) => entry
        | _ => Float.zero
        end
      else Float.zero
  | _ => Float.zero
  end.

(** [(value / max_value) * 100 if max_value else 0.0] *)
Definition normalize (value max_value : float) : M float :=
  if Float.truthy max_value then
    q <- truediv value max_value ;;
    ret (Float.mul q (Float.of_Z 100))
  else ret Float.zero.

(** [axis_meta[axis_index]] *)
Definition meta_at (axis_meta : list AxisMeta) (axis_index : nat)
  : M AxisMeta :=
  match axis_meta !! axis_index with
  | Some m => ret m
  | None => raise IndexError
  end.

(** One turn of the inner loop over the axes, for one period. *)
Definition cell_step (d : gmap str series) (axis_meta : list AxisMeta)
    (period_index : nat) (acc : list float * list float)
    (item : nat * (str * list str)) : M (list float * list float) :=
  let '(normalized_values, original_values) := acc in
  let '(axis_index, (_, keys)) := item in
  let series_values := resolve_series keys d in
  let value := value_at series_values period_index in
  let original_values := original_values ++ [value] in
  meta <- meta_at axis_meta axis_index ;;
  normalized <- normalize value (am_max_value meta) ;;
  ret (normalized_values ++ [normalized], original_values).

(** One turn of the loop over the periods. *)
Definition period_step (items : list (str * list str)) (d : gmap str series)
    (axis_meta : list AxisMeta) (radar_datasets : list RadarDataset)
    (item : nat * str) : M (list RadarDataset) :=
  let '(period_index, period) := item in
  cells <-
    foldM (cell_step d axis_meta period_index) (enumerate items) ([], []) ;;
  let '(normalized_values, original_values) := cells in
  ret (radar_datasets
         ++ [{| rd_label := period;
                rd_data := normalized_values;
                rd_originalData := original_values |}]).

(** The body of [_build_radar_chart] for a table of axes. *)
Definition radar_chart_of (items : list (str * list str))
    (periods : list str) (d : gmap str series)
  : M (list str * list RadarDataset * list AxisMeta) :=
  match periods with
  | [] => ret ([], [], [])
  | _ :: _ =>
      let '(axis_labels, axis_meta) :=
        fold_left (axis_step d) items ([], []) in
      radar_datasets <-
        foldM (period_step items d axis_meta) (enumerate periods) [] ;;
      ret (axis_labels, radar_datasets, axis_meta)
  end.

Definition _build_radar_chart (periods : list str) (d : gmap str series)
  : M (list str * list RadarDataset * list AxisMeta) :=
  radar_chart_of RADAR_ITEMS periods d.

(* ================================================================== *)
(** * Derived notions used in the statements *)
(* ================================================================== *)

Section Derived.

Variable to_float : str -> option float.

(** The entry a numeric-segment cell contributes: [None] for a blank or
    unparseable cell. *)
Definition entry_of (value : str) : option float :=
  let value := strip value in
  if str_eqb value [] then None else to_float value.

(** Some cell of the numeric segment of a row parses as a number. *)
Definition has_number_of (period_count : nat) (values : list str) : bool :=
  existsb (fun c => bool_decide (is_Some (entry_of c)))
          (numeric_segment_of period_count values).

(** The series of a row. *)
Definition series_of (period_count : nat) (values : list str) : series :=
  List.map entry_of (numeric_segment_of period_count values).

(** The table row of a data row: its label, then its value cells. *)
Definition display_row (row : list str) : list str :=
  match row with
  | cell :: values => label_of cell :: values
  | [] => []
  end.

(** The data rows of an input: what follows the header among the rows
    that are not blank. *)
Definition data_rows_of (reader : list (list str)) : list (list str) :=
  drop 1 (List.filter has_content reader).

End Derived.

(* ================================================================== *)
(** * Derived notions of the radar chart *)
(* ================================================================== *)

(** The scale of an axis: the greatest magnitude of its resolved series,
    or [1.0] when that is zero or nothing resolves. *)
Definition axis_max (d : gmap str series) (keys : list str) : float :=
  floor_to_one
    (py_max (List.map Float.abs (resolve_values keys d)) Float.zero).

Definition axis_meta_of (d : gmap str series) (item : str * list str)
  : AxisMeta :=
  {| am_label := fst item; am_max_value := axis_max d (snd item) |}.

(** The raw value of an axis at a period. *)
Definition original_at (d : gmap str series) (period_index : nat)
    (keys : list str) : float :=
  value_at (resolve_series keys d) period_index.

(** The normalized value of an axis at a period. *)
Definition normalized_at (d : gmap str series) (period_index : nat)
    (keys : list str) : float :=
  Float.mul (SFdiv prec emax (original_at d period_index keys)
                   (axis_max d keys))
            (Float.of_Z 100).

Definition radar_dataset_of (items : list (str * list str))
    (d : gmap str series) (period_index : nat) (period : str)
  : RadarDataset :=
  {| rd_label := period;
     rd_data :=
       List.map (fun it => normalized_at d period_index (snd it)) items;
     rd_originalData :=
       List.map (fun it => original_at d period_index (snd it)) items |}.

(** Every number stored in the lookup is finite (neither [nan] nor an
    infinity) and a well-formed binary64 value. *)
Definition finite_lookup (d : gmap str series) : Prop :=
  forall key s x, d !! key = Some s -> Some x ∈ s -> Float.finite x = true.

(** The radar chart computed from the parse of a CSV input. *)
Definition radar_of_csv (reader : list (list str))
  : M (list str * list RadarDataset * list AxisMeta) :=
  p <- _parse_csv PyFloat.float_of_str reader ;;
  _build_radar_chart (periods p) (row_lookup p).

(** The original and the normalized value of a radar chart at a period and
    an axis. *)
Definition radar_cell (r : M (list str * list RadarDataset * list AxisMeta))
    (period_index axis_index : nat) : option (float * float) :=
  match r with
  | inr (_, radar_datasets, _) =>
      ds ← radar_datasets !! period_index;
      o ← rd_originalData ds !! axis_index;
      n ← rd_data ds !! axis_index;
      Some (o, n)
  | inl _ => None
  end.

(* ================================================================== *)
(** * Notions about binary64 numbers used in the statements *)
(* ================================================================== *)

(** A finite number that is not negative and not [-0.0]: what [abs] gives
    on finite input. *)
Definition nonneg_finite (x : float) : bool :=
  match x with
  | S754_zero false => true
  | S754_finite false m e => bounded prec emax m e
  | _ => false
  end.

(** An integer that orders the non-negative finite numbers as [<] does. *)
Definition ordkey (x : float) : Z :=
  match x with
  | S754_finite _ m e => (e + 1075) * 9007199254740992 + Zpos m
  | _ => 0
  end.

(** The float [2^j], for [j] in the normal range. *)
Definition pow2 (j : Z) : float := S754_finite false 4503599627370496 (j - 52).

(** [x] is a zero, or a normal number that is still normal once multiplied
    by [2^j]: the product is then exact. *)
Definition scales_exactly (j : Z) (x : float) : bool :=
  match x with
  | S754_zero _ => true
  | S754_finite _ m e =>
      (Zpos (digits2_pos m) =? 53)
      && (-1074 <=? e) && (e <=? 971)
      && (-1074 <=? e + j) && (e + j <=? 971)
  | _ => false
  end.

(** The series multiplied entrywise by [k]. *)
Definition scale_series (k : float) (s : series) : series :=
  List.map (option_map (fun x => Float.mul x k)) s.

(** The first of the keys that is in the lookup. *)
Fixpoint resolve_key (keys : list str) (d : gmap str series) : option str :=
  match keys with
  | [] => None
  | key :: rest =>
      match d !! key with
      | Some _ => Some key
      | None => resolve_key rest d
      end
  end.

(** The same significand, [j] binades higher. *)
Definition shift (j : Z) (x : float) : float :=
  match x with
  | S754_finite s m e => S754_finite s m (e + j)
  | _ => x
  end.

(** The magnitude of a finite number in units of [2^-1074], an integer. *)
Definition magnitude (x : float) : Z :=
  match x with
  | S754_finite _ m e => Zpos m * 2 ^ (e + 1074)
  | _ => 0
  end.

(** [y] is [p/q] times [x], exactly: both are well-formed finite numbers of
    the same sign, and [q * |y| = p * |x|]. *)
Definition proportional (p q : positive) (x y : float) : bool :=
  Float.finite x && Float.finite y
  && Bool.eqb (Float.signbit x) (Float.signbit y)
  && (Zpos q * magnitude y =? Zpos p * magnitude x).

(** Where [N / D] lies between two consecutive integers. *)
Definition loc_of (N D : Z) : location :=
  if N mod D =? 0 then loc_Exact else loc_Inexact (2 * (N mod D) ?= D).

(** The integer part of [N / D] with the position of the rest. *)
Definition rec_of (N D : Z) : shr_record :=
  shr_record_of_loc (N / D) (loc_of N D).

(** The number of binary digits of the quotient [A / B], its exponent in
    the format, and its integer part at that exponent with the position
    of the rest; [K] is a scale large enough to keep all of it integral. *)
Definition quot_digits (K A B : Z) : Z := Zdigits2 (A * 2 ^ K / B) - K.

Definition quot_exp (K A B : Z) : Z := fexp prec emax (quot_digits K A B).

Definition quot_rec (K A B : Z) : shr_record :=
  rec_of (A * 2 ^ K) (B * 2 ^ (K + quot_exp K A B)).

(* ================================================================== *)
(** * Further notions about [_parse_csv] *)
(* ================================================================== *)

Section Charted.

Variable to_float : str -> option float.

(** The row yields a chart dataset: it has a cell, and a number in its
    numeric segment. *)
Definition charted (period_count : nat) (row : list str) : bool :=
  match row with
  | _ :: values => has_number_of to_float period_count values
  | [] => false
  end.

(** The chart dataset of a row. *)
Definition dataset_of (period_count : nat) (row : list str) : ChartDataset :=
  match row with
  | cell :: values =>
      {| ds_label := label_of cell;
         ds_data := series_of to_float period_count values |}
  | [] => {| ds_label := UNSET_LABEL; ds_data := [] |}
  end.

End Charted.

(** The descriptor keys of a row's value cells: the stripped, non-empty
    cells in front of the numeric segment. *)
Definition descriptor_keys (period_count : nat) (values : list str)
  : list str :=
  List.filter str_truthy
    (List.map strip (take (length values - period_count) values)).

(* ================================================================== *)
(** * Further notions about [_build_dataset_options] *)
(* ================================================================== *)

(** The options that are checked. *)
Definition checked_options (options : list DatasetOption)
  : list DatasetOption :=
  List.filter opt_checked options.

(* ================================================================== *)
(** * Further notions about [_build_radar_chart] *)
(* ================================================================== *)

(** The scale [max_value] of an axis in a radar chart. *)
Definition radar_max (r : M (list str * list RadarDataset * list AxisMeta))
    (axis_index : nat) : option float :=
  match r with
  | inr (_, _, axis_meta) => am_max_value <$> axis_meta !! axis_index
  | inl _ => None
  end.

(** The entry of a series at a period, read as the radar chart reads it:
    [0.0] for [None] and past the end. *)
Definition entry_or_zero (s : series) (period_index : nat) : float :=
  match s !! period_index with
  | Some (Some x) => x
  | _ => Float.zero
  end.

(* ================================================================== *)
(** * The view [dashboard] *)
(* ================================================================== *)

(** The Python objects handed to [json.dumps]. *)
#[local] Unset Elimination Schemes.
Inductive pyobj : Type :=
  | PNone
  | PFloat (x : float)
  | PStr (s : str)
  | PList (items : list pyobj)
  | PDict (items : list (str * pyobj)).
#[local] Set Elimination Schemes.

Definition obj_of_strs (l : list str) : pyobj := PList (List.map PStr l).

Definition obj_of_entry (o : option float) : pyobj :=
  match o with
  | Some x => PFloat x
  | None => PNone
  end.

Definition obj_of_dataset (ds : ChartDataset) : pyobj :=
  PDict [(u "label", PStr (ds_label ds));
         (u "data", PList (List.map obj_of_entry (ds_data ds)))].

Definition obj_of_radar_dataset (rd : RadarDataset) : pyobj :=
  PDict [(u "label", PStr (rd_label rd));
         (u "data", PList (List.map PFloat (rd_data rd)));
         (u "originalData", PList (List.map PFloat (rd_originalData rd)))].

Definition obj_of_axis_meta (am : AxisMeta) : pyobj :=
  PDict [(u "label", PStr (am_label am));
         (u "max_value", PFloat (am_max_value am))].

(** The message shown for a submission without a file. *)
Definition MissingFileMessage : str :=
  Eval cbv in u "CSVファイルを選択してください。".

Module Dashboard.

Section View.

(** The uploaded file object, and what lines 25 to 27 of [_parse_csv] make
    of it: its content decoded as UTF-8 and read through [csv.reader] to
    the end, before anything else is done. This gives the rows, or raises:
    [decode] a [UnicodeDecodeError], which is a [ValueError]; the reader a
    [csv.Error], which is not. *)
Variable File : Type.
Variable read_rows : File -> M (list (list str)).

(** The builtin [float] and [json.dumps]. *)
Variable to_float : str -> option float.
Variable JSON : Type.
Variable dumps : pyobj -> JSON.

(** What the view reads of a request: its method, and the uploaded file
    [request.FILES.get("grades_file")], [None] when there is no such
    file. *)
Record Request : Type := {
  method : str;
  grades_file : option File
}.

(** The template context. *)
Record Context : Type := {
  table_headers : list str;
  table_rows : list (list str);
  chart_labels_json : JSON;
  chart_datasets_json : JSON;
  error : str;
  dataset_options : list DatasetOption;
  default_highlight_label : str;
  radar_labels_json : JSON;
  radar_datasets_json : JSON;
  radar_axis_info_json : JSON;
  radar_axis_info : list AxisMeta
}.

(** The context before the request is looked at. *)
Definition initial_context : Context :=
  {| table_headers := [];
     table_rows := [];
     chart_labels_json := dumps (PList []);
     chart_datasets_json := dumps (PList []);
     error := [];
     dataset_options := [];
     default_highlight_label := DEFAULT_HIGHLIGHT_LABEL;
     radar_labels_json := dumps (PList []);
     radar_datasets_json := dumps (PList []);
     radar_axis_info_json := dumps (PList []);
     radar_axis_info := [] |}.

(** [context["error"] = msg] *)
Definition set_error (context : Context) (msg : str) : Context :=
  {| table_headers := table_headers context;
     table_rows := table_rows context;
     chart_labels_json := chart_labels_json context;
     chart_datasets_json := chart_datasets_json context;
     error := msg;
     dataset_options := dataset_options context;
     default_highlight_label := default_highlight_label context;
     radar_labels_json := radar_labels_json context;
     radar_datasets_json := radar_datasets_json context;
     radar_axis_info_json := radar_axis_info_json context;
     radar_axis_info := radar_axis_info context |}.

(** [_parse_csv(file_obj)]: the file is read, then its rows are parsed. *)
Definition parse_file (file : File) : M Parsed :=
  reader <- read_rows file ;;
  _parse_csv to_float reader.

(** The body of the [try]: the three functions in sequence, then
    [context.update]. *)
Definition try_body (context : Context) (file : File) : M Context :=
  parsed <- parse_file file ;;
  let '(options, highlight_label) :=
    _build_dataset_options (datasets parsed) in
  radar <- _build_radar_chart (periods parsed) (row_lookup parsed) ;;
  let '(radar_labels, radar_datasets, radar_axis_info) := radar in
  ret {| table_headers := headers parsed;
         table_rows := rows parsed;
         chart_labels_json := dumps (obj_of_strs (periods parsed));
         chart_datasets_json :=
           dumps (PList (List.map obj_of_dataset (datasets parsed)));
         error := error context;
         dataset_options := options;
         default_highlight_label := highlight_label;
         radar_labels_json := dumps (obj_of_strs radar_labels);
         radar_datasets_json :=
           dumps (PList (List.map obj_of_radar_dataset radar_datasets));
         radar_axis_info_json :=
           dumps (PList (List.map obj_of_axis_meta radar_axis_info));
         radar_axis_info := radar_axis_info |}.

(** [dashboard], up to the context it hands to [render]; only a
    [ValueError] is caught, any other exception leaves the view. *)
Definition dashboard (request : Request) : M Context :=
  let context := initial_context in
  if str_eqb (method request) (u "POST") then
    match grades_file request with
    | Some file =>
        match try_body context file with
        | inr context' => ret context'
        | inl (ValueError msg) => ret (set_error context msg)
        | inl exc => raise exc
        end
    | None => ret (set_error context MissingFileMessage)
    end
  else ret context.

End View.

End Dashboard.

(* ================================================================== *)
(** * The row loop of [_parse_csv] *)
(* ================================================================== *)

Section ParseFacts.

Variable to_float : str -> option float.

Lemma convert_cell_spec (c : str) (acc : series) (b : bool) :
  convert_cell to_float (acc, b) c
  = (acc ++ [entry_of to_float c],
     b || bool_decide (is_Some (entry_of to_float c))).
Proof.
  unfold convert_cell, entry_of.
  destruct (str_eqb (strip c) []).
  - rewrite bool_decide_eq_false_2; [|by intros [? ?]].
    by rewrite orb_false_r.
  - destruct (to_float (strip c)) as [x|].
    + rewrite bool_decide_eq_true_2 by eauto. by rewrite orb_true_r.
    + rewrite bool_decide_eq_false_2; [|by intros [? ?]].
      by rewrite orb_false_r.
Qed.

Lemma convert_cells_spec (seg : list str) (acc : series) (b : bool) :
  fold_left (convert_cell to_float) seg (acc, b)
  = (acc ++ List.map (entry_of to_float) seg,
     b || existsb (fun c => bool_decide (is_Some (entry_of to_float c))) seg).
Proof.
  revert acc b.
  induction seg as [|c seg IH]; intros acc b.
  - simpl. by rewrite app_nil_r, orb_false_r.
  - cbn [fold_left List.map existsb].
    rewrite convert_cell_spec, IH, <- app_assoc, orb_assoc. done.
Qed.

Lemma numeric_segment_length (n : nat) (values : list str) :
  (0 < n)%nat -> length (numeric_segment_of n values) = n.
Proof.
  intros Hn. unfold numeric_segment_of, slice_last.
  destruct (Nat.eqb_spec n 0) as [->|_]; [lia|].
  destruct (Nat.ltb_spec (length (drop (length values - n) values)) n)
    as [Hlt|Hge].
  - rewrite length_app, length_replicate. lia.
  - rewrite length_drop in *. lia.
Qed.

(** A row with fewer value cells than periods is padded on the right. *)
Lemma numeric_segment_short (n : nat) (values : list str) :
  (length values < n)%nat ->
  numeric_segment_of n values
  = values ++ replicate (n - length values) [].
Proof.
  intros Hlt. unfold numeric_segment_of, slice_last.
  destruct (Nat.eqb_spec n 0) as [->|_]; [lia|].
  replace (length values - n)%nat with 0%nat by lia.
  rewrite drop_0.
  destruct (Nat.ltb_spec (length values) n); [done | lia].
Qed.

(** A row with at least as many value cells keeps its last ones. *)
Lemma numeric_segment_long (n : nat) (values : list str) :
  (0 < n <= length values)%nat ->
  numeric_segment_of n values = drop (length values - n) values.
Proof.
  intros Hle. unfold numeric_segment_of, slice_last.
  destruct (Nat.eqb_spec n 0) as [->|_]; [lia|].
  destruct (Nat.ltb_spec (length (drop (length values - n) values)) n)
    as [Hlt|Hge]; [|done].
  rewrite length_drop in Hlt. lia.
Qed.

Lemma setdefault_lookup_Some {V} (k key : str) (v s : V) (d : gmap str V) :
  d !! key = Some s -> setdefault k v d !! key = Some s.
Proof.
  intros Hs. unfold setdefault.
  destruct (d !! k) eqn:Hk; [done|].
  rewrite lookup_insert_ne; [done | congruence].
Qed.

(** Registering descriptors never changes a key that is present. *)
Lemma register_descriptors_keep (nv : series) (descriptors : list str)
    (d : gmap str series) (key : str) (s : series) :
  d !! key = Some s ->
  fold_left (register_descriptor nv) descriptors d !! key = Some s.
Proof.
  revert d. induction descriptors as [|c r IH]; intros d Hs; simpl; [done|].
  apply IH. unfold register_descriptor.
  destruct (str_truthy (strip c)); [|done].
  by apply setdefault_lookup_Some.
Qed.

(** The row loop body, with its inner loop summed up. *)
Lemma process_row_unfold (n : nat) (st : LoopState) (cell : str)
    (values : list str) :
  process_row to_float n st (cell :: values)
  = let label := label_of cell in
    let nv := series_of to_float n values in
    if has_number_of to_float n values then
      {| table_rows := table_rows st ++ [label :: values];
         chart_datasets :=
           chart_datasets st ++ [{| ds_label := label; ds_data := nv |}];
         current_lookup :=
           let d := <[label := nv]> (current_lookup st) in
           let mc := Z.of_nat (length values) - Z.of_nat n in
           if 0 <? mc then
             fold_left (register_descriptor nv)
                       (take (Z.to_nat mc) values) d
           else d |}
    else
      {| table_rows := table_rows st ++ [label :: values];
         chart_datasets := chart_datasets st;
         current_lookup := current_lookup st |}.
Proof.
  unfold process_row, has_number_of, series_of.
  rewrite convert_cells_spec. simpl.
  by destruct (existsb _ _).
Qed.

Lemma process_row_table_rows (n : nat) (st : LoopState) (cell : str)
    (values : list str) :
  table_rows (process_row to_float n st (cell :: values))
  = table_rows st ++ [label_of cell :: values].
Proof.
  rewrite process_row_unfold. simpl.
  by destruct (has_number_of _ _ _).
Qed.

(** A row without a number leaves the lookup as it was. *)
Lemma process_row_no_number (n : nat) (st : LoopState) (cell : str)
    (values : list str) :
  has_number_of to_float n values = false ->
  current_lookup (process_row to_float n st (cell :: values)) = current_lookup st
  /\ chart_datasets (process_row to_float n st (cell :: values))
     = chart_datasets st.
Proof.
  intros Hno. rewrite process_row_unfold. simpl. by rewrite Hno.
Qed.

(** A row never changes a key that is present, unless the row has a
    number and the key is its own label. *)
Lemma process_row_keeps (n : nat) (st : LoopState) (row : list str)
    (key : str) (s : series) :
  current_lookup st !! key = Some s ->
  (forall cell values, row = cell :: values ->
     label_of cell = key -> has_number_of to_float n values = false) ->
  current_lookup (process_row to_float n st row) !! key = Some s.
Proof.
  intros Hs Hrow. destruct row as [|cell values]; [done|].
  rewrite process_row_unfold. simpl.
  destruct (has_number_of to_float n values) eqn:Hnum; simpl; [|done].
  assert (label_of cell <> key) as Hne.
  { intros Heq. specialize (Hrow cell values eq_refl Heq). congruence. }
  destruct (0 <? _).
  - apply register_descriptors_keep. by rewrite lookup_insert_ne.
  - by rewrite lookup_insert_ne.
Qed.

Lemma process_rows_keep (n : nat) (post : list (list str)) (st : LoopState)
    (key : str) (s : series) :
  current_lookup st !! key = Some s ->
  (forall cell values, (cell :: values) ∈ post ->
     label_of cell = key -> has_number_of to_float n values = false) ->
  current_lookup (fold_left (process_row to_float n) post st) !! key = Some s.
Proof.
  revert st. induction post as [|row post IH]; intros st Hs Hpost; [done|].
  simpl. apply IH.
  - apply process_row_keeps; [done|].
    intros cell values -> Hl. apply (Hpost cell); [left | done].
  - intros cell values Hin. apply Hpost. by right.
Qed.

(** What [_parse_csv] returns when it returns. *)
Lemma parse_csv_inr (reader : list (list str)) (p : Parsed) :
  _parse_csv to_float reader = inr p ->
  exists header,
    List.filter has_content reader = header :: data_rows_of reader
    /\ (2 <= length header)%nat
    /\ headers p = header
    /\ periods p = drop 1 header
    /\ let st := fold_left (process_row to_float (length (drop 1 header)))
                           (data_rows_of reader) initial_state in
       rows p = table_rows st
       /\ datasets p = chart_datasets st
       /\ row_lookup p = current_lookup st.
Proof.
  unfold _parse_csv, data_rows_of.
  destruct (List.filter has_content reader) as [|header rest]; [done|].
  destruct (Nat.ltb_spec (length header) 2) as [|Hlen]; [done|].
  change (drop 1 (header :: rest)) with rest.
  destruct (chart_datasets _) eqn:Hds; [done|].
  intros [= <-]. exists header. cbn -[fold_left drop]. by rewrite Hds.
Qed.

End ParseFacts.

(* ================================================================== *)
(** * Properties of [_parse_csv] *)
(* ================================================================== *)

Section ParseProperties.

Variable to_float : str -> option float.

Lemma has_content_nonempty (row : list str) :
  has_content row = true -> row <> [].
Proof. by destruct row. Qed.

Lemma data_rows_nonempty (reader : list (list str)) (row : list str) :
  row ∈ data_rows_of reader -> row <> [].
Proof.
  unfold data_rows_of. intros Hin.
  apply has_content_nonempty.
  assert (row ∈ List.filter has_content reader) as Hf.
  { destruct (List.filter has_content reader); [done | by right]. }
  apply list_elem_of_In, filter_In in Hf. tauto.
Qed.

(** The table rows are the data rows, each with its label in front. *)
Lemma process_rows_table (n : nat) (data : list (list str))
    (st : LoopState) :
  Forall (fun row => row <> []) data ->
  table_rows (fold_left (process_row to_float n) data st)
  = table_rows st ++ List.map display_row data.
Proof.
  revert st. induction data as [|row data IH]; intros st Hne.
  - simpl. by rewrite app_nil_r.
  - inversion Hne as [|? ? Hrow Hdata]; subst.
    destruct row as [|cell values]; [done|].
    cbn [fold_left List.map]. rewrite IH by done.
    rewrite process_row_table_rows, <- app_assoc. done.
Qed.

(** Datasets are only ever appended. *)
Lemma process_row_datasets_grow (n : nat) (st : LoopState) (row : list str)
    (ds : ChartDataset) :
  ds ∈ chart_datasets st ->
  ds ∈ chart_datasets (process_row to_float n st row).
Proof.
  intros Hin. destruct row as [|cell values]; [done|].
  rewrite process_row_unfold. simpl.
  destruct (has_number_of _ _ _); simpl; [|done].
  apply elem_of_app. by left.
Qed.

Lemma process_rows_datasets_grow (n : nat) (data : list (list str))
    (st : LoopState) (ds : ChartDataset) :
  ds ∈ chart_datasets st ->
  ds ∈ chart_datasets (fold_left (process_row to_float n) data st).
Proof.
  revert st. induction data as [|row data IH]; intros st Hin; [done|].
  simpl. by apply IH, process_row_datasets_grow.
Qed.

(** Every dataset of the final state is an initial one or comes from a
    data row with a number. *)
Lemma process_rows_datasets_origin (n : nat) (data : list (list str))
    (st : LoopState) (ds : ChartDataset) :
  ds ∈ chart_datasets (fold_left (process_row to_float n) data st) ->
  ds ∈ chart_datasets st
  \/ exists cell values,
       (cell :: values) ∈ data
       /\ has_number_of to_float n values = true
       /\ ds = {| ds_label := label_of cell;
                  ds_data := series_of to_float n values |}.
Proof.
  revert st. induction data as [|row data IH]; intros st Hin; [by left|].
  simpl in Hin. apply IH in Hin as [Hin | (cell & values & H1 & H2 & H3)].
  - destruct row as [|cell values]; [by left|].
    rewrite process_row_unfold in Hin. simpl in Hin.
    destruct (has_number_of to_float n values) eqn:Hnum; simpl in Hin.
    + apply elem_of_app in Hin as [Hin | Hin]; [by left|].
      apply list_elem_of_singleton in Hin. right.
      exists cell, values. split; [left | done].
    + by left.
  - right. exists cell, values. split; [by right | done].
Qed.

Lemma series_of_length (n : nat) (values : list str) :
  (0 < n)%nat -> length (series_of to_float n values) = n.
Proof.
  intros Hn. unfold series_of.
  by rewrite length_map, numeric_segment_length.
Qed.

Lemma has_number_of_false (n : nat) (values : list str) :
  (forall c, c ∈ numeric_segment_of n values -> entry_of to_float c = None)
  -> has_number_of to_float n values = false.
Proof.
  intros Hall. unfold has_number_of.
  apply not_true_is_false. intros Hex.
  apply existsb_exists in Hex as (c & Hin & Hc).
  apply bool_decide_eq_true_1 in Hc as [x Hx].
  apply list_elem_of_In in Hin. rewrite (Hall c Hin) in Hx. done.
Qed.

End ParseProperties.

(* ================================================================== *)
(** * Binary64 rounding *)
(* ================================================================== *)

(** The number of binary digits brackets a positive number. *)
Lemma digits2_pos_bounds (p : positive) :
  2 ^ (Zpos (digits2_pos p) - 1) <= Zpos p < 2 ^ Zpos (digits2_pos p).
Proof.
  induction p as [p IH | p IH |]; cbn [digits2_pos].
  - rewrite Pos2Z.inj_succ, Z.pow_succ_r by lia.
    replace (Z.succ (Zpos (digits2_pos p)) - 1)
      with (Z.succ (Zpos (digits2_pos p) - 1)) by lia.
    rewrite Z.pow_succ_r by lia. lia.
  - rewrite Pos2Z.inj_succ, Z.pow_succ_r by lia.
    replace (Z.succ (Zpos (digits2_pos p)) - 1)
      with (Z.succ (Zpos (digits2_pos p) - 1)) by lia.
    rewrite Z.pow_succ_r by lia. lia.
  - simpl. lia.
Qed.

Lemma Zdigits2_lt_pow (m : Z) : 0 <= m -> m < 2 ^ Zdigits2 m.
Proof.
  intros Hm. destruct m as [|p|p]; [simpl; lia | | lia].
  apply digits2_pos_bounds.
Qed.

Lemma Zdigits2_nonneg (m : Z) : 0 <= m -> 0 <= Zdigits2 m.
Proof. destruct m; simpl; lia. Qed.

(** A number below [2^k] has at most [k] digits. *)
Lemma Zdigits2_le (m k : Z) : 0 <= m -> 0 <= k -> m < 2 ^ k -> Zdigits2 m <= k.
Proof.
  intros Hm Hk Hlt. destruct m as [|p|p]; [simpl; lia | | lia].
  simpl. pose proof (digits2_pos_bounds p) as [Hlo _].
  destruct (Z_le_gt_dec (Zpos (digits2_pos p)) k) as [|Hgt]; [done|].
  assert (2 ^ k <= 2 ^ (Zpos (digits2_pos p) - 1))
    by (apply Z.pow_le_mono_r; lia).
  lia.
Qed.

Lemma iter_pos_nat {A} (f : A -> A) (p : positive) (x : A) :
  SpecFloat.iter_pos f p x = Nat.iter (Pos.to_nat p) f x.
Proof.
  revert x. induction p as [p IH | p IH |]; intros x; cbn [SpecFloat.iter_pos].
  - rewrite !IH, Pos2Nat.inj_xI.
    replace (S (2 * Pos.to_nat p)) with (Pos.to_nat p + (Pos.to_nat p + 1))%nat
      by lia.
    rewrite !Nat.iter_add. simpl. done.
  - rewrite !IH, Pos2Nat.inj_xO.
    replace (2 * Pos.to_nat p)%nat with (Pos.to_nat p + Pos.to_nat p)%nat
      by lia.
    by rewrite Nat.iter_add.
  - done.
Qed.

Lemma shr_1_m (mrs : shr_record) :
  0 <= shr_m mrs -> shr_m (shr_1 mrs) = shr_m mrs / 2.
Proof.
  destruct mrs as [m r s]. simpl. intros Hm.
  destruct m as [|p|p]; [done | | lia].
  destruct p as [p|p|]; cbn [shr_m]; [| |done].
  - apply Z.div_unique with (r := 1); lia.
  - apply Z.div_unique with (r := 0); lia.
Qed.

Lemma shr_iter_m (k : nat) (mrs : shr_record) :
  0 <= shr_m mrs ->
  shr_m (Nat.iter k shr_1 mrs) = shr_m mrs / 2 ^ Z.of_nat k.
Proof.
  intros Hm. induction k as [|k IH].
  - simpl. by rewrite Z.div_1_r.
  - change (Nat.iter (S k) shr_1 mrs) with (shr_1 (Nat.iter k shr_1 mrs)).
    rewrite shr_1_m, IH.
    + rewrite Nat2Z.inj_succ, Z.pow_succ_r by lia.
      rewrite Z.div_div by lia. f_equal. lia.
    + rewrite IH. apply Z.div_pos; lia.
Qed.

(** Shifting right divides the significand and raises the exponent. *)
Lemma shr_spec (mrs : shr_record) (e n : Z) :
  0 <= shr_m mrs ->
  shr_m (fst (shr mrs e n)) = shr_m mrs / 2 ^ Z.max n 0
  /\ snd (shr mrs e n) = e + Z.max n 0.
Proof.
  intros Hm. destruct n as [|p|p]; simpl.
  - rewrite Z.div_1_r. lia.
  - rewrite iter_pos_nat, shr_iter_m by done.
    rewrite positive_nat_Z. done.
  - rewrite Z.div_1_r. lia.
Qed.

Lemma shr_record_of_loc_m (m : Z) (l : location) :
  shr_m (shr_record_of_loc m l) = m.
Proof. by destruct l as [|[]]. Qed.

Lemma round_nearest_even_range (m : Z) (l : location) :
  m <= round_nearest_even m l <= m + 1.
Proof. destruct l as [|[]]; simpl; try destruct (Z.even m); lia. Qed.

Lemma fexp_eq (e : Z) : fexp prec emax e = Z.max (e - 53) (-1074).
Proof. reflexivity. Qed.

Lemma shr_fexp_spec (m e : Z) (l : location) :
  0 <= m ->
  let k := Z.max (fexp prec emax (Zdigits2 m + e) - e) 0 in
  shr_m (fst (shr_fexp prec emax m e l)) = m / 2 ^ k
  /\ snd (shr_fexp prec emax m e l) = e + k.
Proof.
  intros Hm k. unfold shr_fexp.
  pose proof (shr_spec (shr_record_of_loc m l) e
                (fexp prec emax (Zdigits2 m + e) - e)) as Hs.
  rewrite shr_record_of_loc_m in Hs. by apply Hs.
Qed.

Lemma pow2_pos (k : Z) : 0 <= k -> 0 < 2 ^ k.
Proof. intros. apply Z.pow_pos_nonneg; lia. Qed.

Lemma pow2_split (a b : Z) : 0 <= a -> 0 <= b -> 2 ^ (a + b) = 2 ^ a * 2 ^ b.
Proof. intros. by apply Z.pow_add_r. Qed.

(** Rounding a value that lies strictly below a bound [mb * 2^eb] of the
    format gives zero or a finite number that does not exceed the bound. *)
Lemma binary_round_aux_bound (s : bool) (mz ez : Z) (l : location)
    (mb eb : Z) :
  0 <= mz -> ez <= eb -> 0 < mb < 2 ^ 53 -> -1074 <= eb <= 971 ->
  mz < mb * 2 ^ (eb - ez) ->
  binary_round_aux prec emax s mz ez l = S754_zero s
  \/ exists m e,
       binary_round_aux prec emax s mz ez l = S754_finite s m e
       /\ Zpos m < 2 ^ 53 /\ e <= eb /\ (e = eb -> Zpos m <= mb).
Proof.
  intros Hmz Hez Hmb Heb Hlt. unfold binary_round_aux.
  pose proof (shr_fexp_spec mz ez l Hmz) as [Hm1 He1].
  destruct (shr_fexp prec emax mz ez l) as [mrs1 e1]. cbn [fst snd] in *.
  set (k1 := Z.max (fexp prec emax (Zdigits2 mz + ez) - ez) 0) in *.
  pose proof (round_nearest_even_range (shr_m mrs1) (loc_of_shr_record mrs1))
    as Hround.
  set (m2 := round_nearest_even (shr_m mrs1) (loc_of_shr_record mrs1)) in *.
  assert (0 <= k1) as Hk1 by lia.
  assert (0 <= shr_m mrs1) as Hm1pos.
  { rewrite Hm1. apply Z.div_pos; [done | by apply pow2_pos]. }
  assert (mz < 2 ^ (53 + (eb - ez))) as Hmz53.
  { rewrite pow2_split by lia.
    pose proof (pow2_pos (eb - ez)). nia. }
  assert (e1 <= eb) as He1b.
  { pose proof (Zdigits2_le mz (53 + (eb - ez)) Hmz ltac:(lia) Hmz53).
    pose proof (fexp_eq (Zdigits2 mz + ez)). unfold k1 in *. lia. }
  assert (shr_m mrs1 < mb * 2 ^ (eb - e1)) as Hm1lt.
  { rewrite Hm1. apply Z.div_lt_upper_bound; [by apply pow2_pos|].
    replace (eb - ez) with (k1 + (eb - e1)) in Hlt by lia.
    rewrite pow2_split in Hlt by lia. lia. }
  assert (0 <= m2 <= mb * 2 ^ (eb - e1)) as Hm2 by lia.
  pose proof (shr_fexp_spec m2 e1 loc_Exact ltac:(lia)) as [Hm3 He3].
  destruct (shr_fexp prec emax m2 e1 loc_Exact) as [mrs2 e3].
  cbn [fst snd] in *.
  set (k2 := Z.max (fexp prec emax (Zdigits2 m2 + e1) - e1) 0) in *.
  assert (0 <= k2) as Hk2 by lia.
  assert (m2 < 2 ^ (53 + (eb - e1))) as Hm253.
  { rewrite pow2_split by lia.
    pose proof (pow2_pos (eb - e1)). nia. }
  pose proof (Zdigits2_le m2 (53 + (eb - e1)) ltac:(lia) ltac:(lia) Hm253)
    as Hd2.
  pose proof (Zdigits2_lt_pow m2 ltac:(lia)) as Hm2d.
  pose proof (Zdigits2_nonneg m2 ltac:(lia)) as Hd2pos.
  assert (e3 <= eb) as He3b.
  { pose proof (fexp_eq (Zdigits2 m2 + e1)). unfold k2 in *. lia. }
  assert (0 <= shr_m mrs2) as Hm3pos.
  { rewrite Hm3. apply Z.div_pos; [lia | by apply pow2_pos]. }
  assert (shr_m mrs2 < 2 ^ 53) as Hm3lt.
  { rewrite Hm3. apply Z.div_lt_upper_bound; [by apply pow2_pos|].
    rewrite <- pow2_split by lia.
    assert (2 ^ Zdigits2 m2 <= 2 ^ (k2 + 53)); [|lia].
    apply Z.pow_le_mono_r; [lia|].
    pose proof (fexp_eq (Zdigits2 m2 + e1)). unfold k2 in *. lia. }
  assert (e3 = eb -> shr_m mrs2 <= mb) as Hm3b.
  { intros Heq. rewrite Hm3.
    replace (eb - e1) with k2 in Hm2 by lia.
    apply Z.div_le_upper_bound; [by apply pow2_pos|]. lia. }
  destruct (shr_m mrs2) as [|m3|m3] eqn:Hshr; [by left | | lia].
  right. exists m3, e3.
  replace (e3 <=? emax - prec) with true
    by (symmetry; apply Z.leb_le; unfold emax, prec; lia).
  done.
Qed.

(** What it takes for a significand and exponent to be a binary64 number. *)
Lemma bounded_inv (m : positive) (e : Z) :
  bounded prec emax m e = true ->
  Zpos (digits2_pos m) <= 53
  /\ -1074 <= e <= 971
  /\ (-1074 < e -> Zpos (digits2_pos m) = 53)
  /\ Zpos m < 2 ^ 53.
Proof.
  unfold bounded, canonical_mantissa. rewrite fexp_eq.
  intros [Hc He]%andb_true_iff.
  apply Z.eqb_eq in Hc. apply Z.leb_le in He.
  unfold emax, prec in He.
  assert (Zpos (digits2_pos m) <= 53) as Hd by lia.
  repeat split; try lia.
  pose proof (digits2_pos_bounds m) as [_ Hhi].
  assert (2 ^ Zpos (digits2_pos m) <= 2 ^ 53)
    by (apply Z.pow_le_mono_r; lia).
  lia.
Qed.

(** The order of two positive finite numbers, read off their fields. *)
Lemma SFleb_finite_inv (mx : positive) (ex : Z) (my : positive) (ey : Z) :
  SFleb (S754_finite false mx ex) (S754_finite false my ey) = true ->
  ex < ey \/ (ex = ey /\ (mx <= my)%positive).
Proof.
  unfold SFleb, SFcompare.
  destruct (Z.compare_spec ex ey) as [Heq|Hlt|Hgt]; [|by left|done].
  intros Hc. right. split; [done|].
  rewrite Pos.compare_cont_spec in Hc. unfold Pos.le.
  by destruct (mx ?= my)%positive.
Qed.

Lemma div_eucl_fst (a b : Z) : fst (Z.div_eucl a b) = a / b.
Proof. reflexivity. Qed.

(** The quotient of a number by itself is [1.0]. *)
Lemma SFdiv_same (sx : bool) (m : positive) (e : Z) :
  SFdiv prec emax (S754_finite sx m e) (S754_finite false m e)
  = S754_finite sx 4503599627370496 (-52).
Proof.
  unfold SFdiv, SFdiv_core_binary.
  replace (Zdigits2 (Zpos m) + e - (Zdigits2 (Zpos m) + e)) with 0 by lia.
  replace (e - e) with 0 by lia.
  change (Z.min (fexp prec emax 0) 0) with (-53).
  change (0 - -53) with 53.
  cbv iota beta.
  rewrite Z.shiftl_mul_pow2 by lia.
  pose proof (Z.div_mul (2 ^ 53) (Zpos m) ltac:(lia)) as Hq.
  pose proof (Z.mod_mul (2 ^ 53) (Zpos m) ltac:(lia)) as Hr.
  rewrite (Z.mul_comm (2 ^ 53)) in Hq, Hr.
  unfold Z.div in Hq. unfold Z.modulo in Hr.
  destruct (Z.div_eucl (Zpos m * 2 ^ 53) (Zpos m)) as [q r].
  subst q r.
  replace (new_location (Zpos m) 0) with loc_Exact
    by (unfold new_location; by destruct (Z.even (Zpos m))).
  rewrite xorb_false_r. by destruct sx.
Qed.

(** Dividing by a number at least as large keeps the quotient within
    [1.0], and the quotient carries the sign of the dividend. *)
Lemma SFdiv_le_one (sx : bool) (mx : positive) (ex : Z)
    (my : positive) (ey : Z) :
  bounded prec emax mx ex = true ->
  bounded prec emax my ey = true ->
  SFleb (S754_finite false mx ex) (S754_finite false my ey) = true ->
  SFdiv prec emax (S754_finite sx mx ex) (S754_finite false my ey)
  = S754_zero sx
  \/ exists m e,
       SFdiv prec emax (S754_finite sx mx ex) (S754_finite false my ey)
       = S754_finite sx m e
       /\ Zpos m < 2 ^ 53 /\ e <= -52 /\ (e = -52 -> Zpos m <= 2 ^ 52).
Proof.
  intros Hbx Hby Hle.
  destruct (bounded_inv mx ex Hbx) as (Hdx & Hex & Hnx & Hmx).
  destruct (bounded_inv my ey Hby) as (Hdy & Hey & Hny & Hmy).
  pose proof (digits2_pos_bounds mx) as [Hxlo Hxhi].
  pose proof (digits2_pos_bounds my) as [Hylo Hyhi].
  apply SFleb_finite_inv in Hle.
  destruct (decide (ex = ey /\ mx = my)) as [[-> ->] | Hne].
  { right. rewrite SFdiv_same. eexists _, _. split; [done|]. lia. }
  assert (ex < ey \/ (ex = ey /\ Zpos mx < Zpos my)) as Hlt.
  { destruct Hle as [|[-> Hm]]; [by left | right]. split; [done|].
    destruct (decide (mx = my)) as [->|]; [tauto | lia]. }
  clear Hle Hne.
  unfold SFdiv, SFdiv_core_binary. rewrite xorb_false_r.
  cbn [Zdigits2].
  set (dx := Zpos (digits2_pos mx)) in *.
  set (dy := Zpos (digits2_pos my)) in *.
  assert (dx + ex - (dy + ey) <= 0) as HD.
  { destruct Hlt as [Hlt | [-> Hlt]]; [lia|].
    assert (dx <= dy); [|lia].
    apply (Zdigits2_le (Zpos mx) dy); lia. }
  pose proof (fexp_eq (dx + ex - (dy + ey))) as Hf.
  set (e' := Z.min (fexp prec emax (dx + ex - (dy + ey))) (ex - ey)) in *.
  assert (e' <= -53) as He' by lia.
  assert (0 <= ex - ey - e') as Hs by lia.
  set (m' := match ex - ey - e' with
             | 0 => Zpos mx
             | Zpos _ => Z.shiftl (Zpos mx) (ex - ey - e')
             | Zneg _ => 0
             end).
  assert (m' = Zpos mx * 2 ^ (ex - ey - e')) as Hm'.
  { unfold m'. destruct (ex - ey - e') as [|p|p] eqn:Hsp; [simpl; lia | | lia].
    by rewrite Z.shiftl_mul_pow2. }
  pose proof (div_eucl_fst m' (Zpos my)) as Hq.
  destruct (Z.div_eucl m' (Zpos my)) as [q r]. cbn [fst] in Hq.
  pose proof (pow2_pos (ex - ey - e') Hs) as Hpow.
  assert (0 <= q) as Hq0.
  { rewrite Hq. apply Z.div_pos; lia. }
  assert (q < 2 ^ 52 * 2 ^ (-52 - e')) as Hqlt.
  { rewrite <- pow2_split by lia. replace (52 + (-52 - e')) with (- e') by lia.
    rewrite Hq. apply Z.div_lt_upper_bound; [lia|]. rewrite Hm'.
    destruct Hlt as [Hlt | [-> Hlt]].
    - replace (- e') with ((ex - ey - e') + (ey - ex)) by lia.
      rewrite pow2_split by lia.
      assert (2 ^ 1 <= 2 ^ (ey - ex)) by (apply Z.pow_le_mono_r; lia).
      assert (dy = 53) as Hdy53 by lia. rewrite Hdy53 in Hylo.
      change (2 ^ (53 - 1)) with 4503599627370496 in Hylo.
      change (2 ^ 53) with 9007199254740992 in Hmx.
      change (2 ^ 1) with 2 in *.
      assert (Zpos mx < Zpos my * 2 ^ (ey - ex)) as Hlt' by nia.
      rewrite (Z.mul_comm (2 ^ (ex - ey - e'))), Z.mul_assoc.
      by apply Z.mul_lt_mono_pos_r.
    - replace (ey - ey - e') with (- e') in * by lia.
      by apply Z.mul_lt_mono_pos_r. }
  apply (binary_round_aux_bound sx q e' (new_location (Zpos my) r)
           (2 ^ 52) (-52)); try done; lia.
Qed.

Lemma hundred_eq : Float.of_Z 100 = S754_finite false 7036874417766400 (-46).
Proof. reflexivity. Qed.

Lemma SFleb_finite_intro (mx : positive) (ex : Z) (my : positive) (ey : Z) :
  ex < ey \/ (ex = ey /\ Zpos mx <= Zpos my) ->
  SFleb (S754_finite false mx ex) (S754_finite false my ey) = true.
Proof.
  unfold SFleb, SFcompare. intros [Hlt | [-> Hle]].
  - by rewrite (proj2 (Z.compare_lt_iff ex ey) Hlt).
  - rewrite Z.compare_refl, Pos.compare_cont_spec.
    unfold Z.le in Hle. rewrite <- Pos2Z.inj_compare in Hle.
    by destruct (mx ?= my)%positive.
Qed.

(** Times [100], a number within [1.0] stays within [100.0] and keeps its
    sign. *)
Lemma SFmul_hundred_le (s : bool) (m : positive) (e : Z) :
  Zpos m < 2 ^ 53 -> e <= -52 -> (e = -52 -> Zpos m <= 2 ^ 52) ->
  SFmul prec emax (S754_finite s m e) (Float.of_Z 100) = S754_zero s
  \/ exists m' e',
       SFmul prec emax (S754_finite s m e) (Float.of_Z 100)
       = S754_finite s m' e'
       /\ SFleb (S754_finite false m' e') (Float.of_Z 100) = true.
Proof.
  intros Hm He Hone. rewrite hundred_eq. unfold SFmul. rewrite xorb_false_r.
  destruct (decide (e = -52 /\ Zpos m = 2 ^ 52)) as [[-> Hm52] | Hne].
  { right. assert (m = 4503599627370496%positive) as -> by lia.
    exists 7036874417766400%positive, (-46).
    split; [by destruct s; vm_compute | by vm_compute]. }
  assert (Zpos m < 2 ^ (- e)) as Hlt.
  { destruct (decide (e = -52)) as [->|]; [lia|].
    assert (2 ^ 53 <= 2 ^ (- e)) by (apply Z.pow_le_mono_r; lia). lia. }
  assert (Zpos (m * 7036874417766400)
          < 7036874417766400 * 2 ^ (-46 - (e + -46))) as Hprod.
  { replace (-46 - (e + -46)) with (- e) by lia.
    rewrite Pos2Z.inj_mul, Z.mul_comm.
    by apply Z.mul_lt_mono_pos_l. }
  destruct (binary_round_aux_bound s (Zpos (m * 7036874417766400))
              (e + -46) loc_Exact 7036874417766400 (-46)
              ltac:(lia) ltac:(lia) ltac:(lia) ltac:(lia) Hprod)
    as [Hz | (m' & e' & Hr & _ & He' & Hm')].
  - by left.
  - right. exists m', e'. split; [done|].
    apply SFleb_finite_intro.
    destruct (decide (e' = -46)) as [Heq|]; [right | left; lia].
    split; [done|]. exact (Hm' Heq).
Qed.

(** The normalized value of a finite entry [v] against a finite positive
    maximum at least as large in magnitude: it is zero or finite, carries
    the sign of [v], and lies within [100.0] in magnitude. *)
Lemma normalized_within_hundred (v : float) (my : positive) (ey : Z) :
  Float.finite v = true ->
  bounded prec emax my ey = true ->
  SFleb (SFabs v) (S754_finite false my ey) = true ->
  let n := Float.mul (SFdiv prec emax v (S754_finite false my ey))
                     (Float.of_Z 100) in
  Float.leb (Float.abs n) (Float.of_Z 100) = true
  /\ Float.signbit n = Float.signbit v
  /\ (n = S754_zero (Float.signbit v)
      \/ exists m e, n = S754_finite (Float.signbit v) m e).
Proof.
  intros Hv Hmax Hle n. subst n. unfold Float.mul.
  destruct v as [s | s | | s mx ex]; try done.
  - cbn [SFdiv]. rewrite xorb_false_r, hundred_eq. cbn [SFmul].
    rewrite xorb_false_r. split; [done|]. split; [done|]. by left.
  - cbn [Float.finite SFabs Float.signbit] in *.
    destruct (SFdiv_le_one s mx ex my ey Hv Hmax Hle)
      as [-> | (m & e & -> & Hm & He & Hone)].
    + rewrite hundred_eq. cbn [SFmul]. rewrite xorb_false_r.
      split; [done|]. split; [done|]. by left.
    + destruct (SFmul_hundred_le s m e Hm He Hone)
        as [-> | (m' & e' & -> & Hle')].
      * split; [by rewrite hundred_eq|]. split; [done|]. by left.
      * split; [done|]. split; [done|]. right. eauto.
Qed.

(* ================================================================== *)
(** * The order of non-negative finite numbers and [max] *)
(* ================================================================== *)

Lemma SFcompare_ordkey (x y : float) :
  nonneg_finite x = true -> nonneg_finite y = true ->
  SFcompare x y = Some (ordkey x ?= ordkey y).
Proof.
  destruct x as [[|] | | | [|] mx ex], y as [[|] | | | [|] my ey];
    try done; cbn [nonneg_finite]; intros Hx Hy.
  - apply bounded_inv in Hy as (_ & He & _ & _).
    cbn [SFcompare ordkey]. f_equal. symmetry. apply Z.compare_lt_iff. lia.
  - apply bounded_inv in Hx as (_ & He & _ & _).
    cbn [SFcompare ordkey]. f_equal. symmetry. apply Z.compare_gt_iff. lia.
  - apply bounded_inv in Hx as (_ & Hex & _ & Hmx).
    apply bounded_inv in Hy as (_ & Hey & _ & Hmy).
    change (2 ^ 53) with 9007199254740992 in *.
    cbn [SFcompare ordkey]. f_equal.
    destruct (Z.compare_spec ex ey) as [-> | Hlt | Hgt].
    + rewrite Pos.compare_cont_spec, Z.add_compare_mono_l.
      rewrite <- Pos2Z.inj_compare. by destruct (mx ?= my)%positive.
    + symmetry. apply Z.compare_lt_iff. lia.
    + symmetry. apply Z.compare_gt_iff. lia.
Qed.

Lemma SFleb_ordkey (x y : float) :
  nonneg_finite x = true -> nonneg_finite y = true ->
  SFleb x y = true <-> ordkey x <= ordkey y.
Proof.
  intros Hx Hy. unfold SFleb. rewrite SFcompare_ordkey by done.
  destruct (Z.compare_spec (ordkey x) (ordkey y)); split; try done; lia.
Qed.

Lemma gtb_ordkey (x y : float) :
  nonneg_finite x = true -> nonneg_finite y = true ->
  Float.gtb y x = true <-> ordkey x < ordkey y.
Proof.
  intros Hx Hy. unfold Float.gtb, SFltb. rewrite SFcompare_ordkey by done.
  destruct (Z.compare_spec (ordkey x) (ordkey y)); split; try done; lia.
Qed.

Lemma ordkey_zero (x : float) :
  nonneg_finite x = true -> ordkey x <= 0 -> x = S754_zero false.
Proof.
  destruct x as [[|] | | | [|] m e]; try done.
  cbn [nonneg_finite ordkey]. intros (_ & He & _)%bounded_inv. lia.
Qed.

(** The scan of [max] over non-negative finite numbers. *)
Lemma py_max_fold (rest : list float) (best : float) :
  nonneg_finite best = true ->
  Forall (fun x => nonneg_finite x = true) rest ->
  let r := fold_left (fun best y => if Float.gtb y best then y else best)
                     rest best in
  nonneg_finite r = true
  /\ ordkey best <= ordkey r
  /\ (forall x, x ∈ rest -> ordkey x <= ordkey r)
  /\ (r = best \/ r ∈ rest).
Proof.
  revert best. induction rest as [|y rest IH]; intros best Hb Hall; simpl.
  - repeat split; [done | lia | | by left].
    intros x Hx. by apply elem_of_nil in Hx.
  - inversion Hall as [|? ? Hy Hrest]; subst.
    pose proof (gtb_ordkey best y Hb Hy) as Hgt.
    destruct (Float.gtb y best) eqn:Hcmp.
    + destruct (IH y Hy Hrest) as (Hr & Hle & Hmax & Hin).
      assert (ordkey best < ordkey y) by (by apply Hgt).
      repeat split; [done | lia | |].
      * intros x [-> | Hx]%elem_of_cons; [done | by apply Hmax].
      * right. destruct Hin as [-> | Hin]; [left | by right].
    + destruct (IH best Hb Hrest) as (Hr & Hle & Hmax & Hin).
      assert (~ ordkey best < ordkey y) by (intros H; by apply Hgt in H).
      repeat split; [done | done | |].
      * intros x [-> | Hx]%elem_of_cons; [lia | by apply Hmax].
      * destruct Hin as [-> | Hin]; [by left | right; by right].
Qed.

(** [max(l, default=0.0)] over non-negative finite numbers is the greatest
    of them. *)
Lemma py_max_spec (l : list float) :
  Forall (fun x => nonneg_finite x = true) l ->
  let r := py_max l Float.zero in
  nonneg_finite r = true
  /\ (forall x, x ∈ l -> SFleb x r = true)
  /\ (r ∈ l \/ (l = [] /\ r = Float.zero)).
Proof.
  intros Hall. destruct l as [|x rest]; cbn [py_max].
  - repeat split; [| by right]. intros x Hx. by apply elem_of_nil in Hx.
  - inversion Hall as [|? ? Hx Hrest]; subst.
    destruct (py_max_fold rest x Hx Hrest) as (Hr & Hle & Hmax & Hin).
    repeat split; [done | |].
    + intros y Hy. apply SFleb_ordkey; [|done|].
      * rewrite Forall_forall in Hall. by apply Hall.
      * apply elem_of_cons in Hy as [-> | Hy]; [done | by apply Hmax].
    + left. destruct Hin as [-> | Hin]; [left | by right].
Qed.

(* ================================================================== *)
(** * The loops of [_build_radar_chart] *)
(* ================================================================== *)

Section RadarLoops.

Variable d : gmap str series.

Lemma axis_loop (items : list (str * list str)) (ls : list str)
    (ms : list AxisMeta) :
  fold_left (axis_step d) items (ls, ms)
  = (ls ++ List.map fst items, ms ++ List.map (axis_meta_of d) items).
Proof.
  revert ls ms. induction items as [|[label keys] items IH]; intros ls ms.
  - simpl. by rewrite !app_nil_r.
  - cbn [fold_left List.map]. unfold axis_step at 2.
    rewrite IH, <- !app_assoc. done.
Qed.

Lemma floor_to_one_truthy (x : float) : Float.truthy (floor_to_one x) = true.
Proof. unfold floor_to_one. by destruct (Float.truthy x) eqn:Hx. Qed.

(** With a non-zero scale the normalization never raises. *)
Lemma normalize_ok (v m : float) :
  Float.truthy m = true ->
  normalize v m = ret (Float.mul (SFdiv prec emax v m) (Float.of_Z 100)).
Proof.
  unfold normalize, truediv. by destruct m.
Qed.

Lemma cell_loop (period_index : nat) (items : list (str * list str))
    (before : list AxisMeta) (ns os : list float) :
  foldM (cell_step d (before ++ List.map (axis_meta_of d) items) period_index)
        (combine (seq (length before) (length items)) items) (ns, os)
  = ret (ns ++ List.map (fun it => normalized_at d period_index (snd it))
                        items,
         os ++ List.map (fun it => original_at d period_index (snd it))
                        items).
Proof.
  revert before ns os.
  induction items as [|[label keys] items IH]; intros before ns os.
  - simpl. by rewrite !app_nil_r.
  - cbn [length seq combine foldM List.map].
    unfold cell_step at 1. unfold meta_at.
    rewrite lookup_app_r, Nat.sub_diag by lia. cbn [lookup list_lookup bind ret].
    cbn [am_max_value axis_meta_of snd].
    rewrite normalize_ok by apply floor_to_one_truthy. cbn [bind ret].
    specialize (IH (before ++ [axis_meta_of d (label, keys)])).
    rewrite length_app, Nat.add_1_r, <- app_assoc in IH. cbn [app] in IH.
    rewrite IH, <- !app_assoc. done.
Qed.

Lemma period_loop (items : list (str * list str)) (periods : list str)
    (k : nat) (acc : list RadarDataset) :
  foldM (period_step items d (List.map (axis_meta_of d) items))
        (combine (seq k (length periods)) periods) acc
  = ret (acc ++ imap (fun i => radar_dataset_of items d (k + i)) periods).
Proof.
  revert k acc. induction periods as [|period periods IH]; intros k acc.
  - simpl. by rewrite app_nil_r.
  - cbn [length seq combine foldM imap]. unfold period_step at 1.
    unfold enumerate.
    pose proof (cell_loop k items [] [] []) as Hcells.
    cbn [app length] in Hcells. rewrite Hcells. cbn [bind ret].
    rewrite IH, <- app_assoc. cbn [app]. rewrite Nat.add_0_r.
    do 3 f_equal. apply imap_ext. intros i x _. simpl. f_equal. lia.
Qed.

(** The radar chart, in closed form. *)
Lemma radar_chart_of_spec (items : list (str * list str))
    (periods : list str) :
  periods <> [] ->
  radar_chart_of items periods d
  = ret (List.map fst items,
         imap (radar_dataset_of items d) periods,
         List.map (axis_meta_of d) items).
Proof.
  intros Hne. unfold radar_chart_of.
  destruct periods as [|p0 periods]; [done|].
  rewrite axis_loop. cbn [app]. unfold enumerate.
  by rewrite period_loop.
Qed.

End RadarLoops.

(* ================================================================== *)
(** * The cells of the radar chart over finite entries *)
(* ================================================================== *)

Section RadarValues.

Variable d : gmap str series.

Lemma resolve_values_series (keys : list str) :
  resolve_values keys d
  = match resolve_series keys d with
    | Some s => List.map float_or_zero s
    | None => []
    end.
Proof.
  induction keys as [|key keys IH]; [done|]. simpl.
  by destruct (d !! key).
Qed.

Lemma resolve_series_lookup (keys : list str) (s : series) :
  resolve_series keys d = Some s -> exists key, key ∈ keys /\ d !! key = Some s.
Proof.
  induction keys as [|key keys IH]; [done|]. simpl.
  destruct (d !! key) as [s'|] eqn:Hk.
  - intros [= <-]. exists key. split; [left | done].
  - intros (k & Hin & Hs)%IH. exists k. split; [by right | done].
Qed.

(** The value read at a period is an entry of the resolved values, or the
    [0.0] of a missing one. *)
Lemma original_at_cases (keys : list str) (period_index : nat) :
  original_at d period_index keys = Float.zero
  \/ original_at d period_index keys ∈ resolve_values keys d.
Proof.
  unfold original_at, value_at. rewrite resolve_values_series.
  destruct (resolve_series keys d) as [[|e0 s]|]; [by left | | by left].
  destruct (Nat.ltb_spec period_index (length (e0 :: s))); [|by left].
  destruct ((e0 :: s) !! period_index) as [[x|]|] eqn:Hx; [|by left..].
  right. apply list_elem_of_In, in_map_iff. exists (Some x).
  split; [done|]. apply list_elem_of_In, list_elem_of_lookup. eauto.
Qed.

Hypothesis Hfinite : finite_lookup d.

Lemma resolve_values_finite (keys : list str) (v : float) :
  v ∈ resolve_values keys d -> Float.finite v = true.
Proof.
  rewrite resolve_values_series.
  destruct (resolve_series keys d) as [s|] eqn:Hs.
  - intros Hin. apply list_elem_of_In, in_map_iff in Hin as (o & <- & Ho).
    destruct o as [x|]; [|done].
    apply resolve_series_lookup in Hs as (key & _ & Hk).
    apply (Hfinite key s x Hk). by apply list_elem_of_In.
  - intros Hin. by apply elem_of_nil in Hin.
Qed.

Lemma abs_nonneg_finite (v : float) :
  Float.finite v = true -> nonneg_finite (Float.abs v) = true.
Proof. by destruct v. Qed.

Lemma original_at_finite (keys : list str) (period_index : nat) :
  Float.finite (original_at d period_index keys) = true.
Proof.
  destruct (original_at_cases keys period_index) as [-> | Hin]; [done|].
  by eapply resolve_values_finite.
Qed.

(** The scale of an axis over finite entries: a positive finite number that
    bounds the magnitude of every resolved value, and is one of these
    magnitudes unless it is the floor [1.0]. *)
Lemma axis_max_spec (keys : list str) :
  (exists my ey,
     axis_max d keys = S754_finite false my ey
     /\ bounded prec emax my ey = true)
  /\ (forall v, v ∈ resolve_values keys d ->
        Float.leb (Float.abs v) (axis_max d keys) = true)
  /\ (axis_max d keys = Float.one
      \/ exists v, v ∈ resolve_values keys d
                   /\ axis_max d keys = Float.abs v).
Proof.
  unfold axis_max.
  set (mags := List.map Float.abs (resolve_values keys d)).
  assert (Forall (fun x => nonneg_finite x = true) mags) as Hall.
  { apply Forall_forall. intros x Hx.
    apply list_elem_of_In, in_map_iff in Hx as (v & <- & Hv).
    apply abs_nonneg_finite. eapply resolve_values_finite.
    by apply list_elem_of_In. }
  destruct (py_max_spec mags Hall) as (Hr & Hmax & Hin).
  assert (forall v, v ∈ resolve_values keys d -> Float.abs v ∈ mags) as Hmag.
  { intros v Hv. apply list_elem_of_In, in_map. by apply list_elem_of_In. }
  unfold floor_to_one.
  destruct (py_max mags Float.zero) as [[|] | | | [|] my ey] eqn:Hm;
    try done; cbn [Float.truthy].
  - (* the maximum is zero: every value is a zero, the scale is 1.0 *)
    split; [by eexists _, _|]. split; [|by left].
    intros v Hv. specialize (Hmax _ (Hmag v Hv)).
    assert (nonneg_finite (Float.abs v) = true) as Hv0.
    { rewrite Forall_forall in Hall. by apply Hall, Hmag. }
    apply SFleb_ordkey in Hmax; [|done..].
    apply ordkey_zero in Hmax as ->; done.
  - split; [by eexists _, _|]. split.
    + intros v Hv. by apply Hmax, Hmag.
    + right. destruct Hin as [Hin | [_ ?]]; [|done].
      apply list_elem_of_In, in_map_iff in Hin as (v & Hv & Hin).
      exists v. split; [by apply list_elem_of_In | done].
Qed.

(** One cell of the radar chart over finite entries. *)
Lemma normalized_at_spec (keys : list str) (period_index : nat) :
  let o := original_at d period_index keys in
  let n := normalized_at d period_index keys in
  Float.leb (Float.abs n) (Float.of_Z 100) = true
  /\ (Float.ltb o Float.zero = true ->
      Float.ltb n Float.zero = true \/ n = S754_zero true).
Proof.
  intros o n.
  destruct (axis_max_spec keys) as ((my & ey & Hmax & Hb) & Hle & _).
  assert (SFleb (SFabs o) (S754_finite false my ey) = true) as Hov.
  { rewrite <- Hmax.
    destruct (original_at_cases keys period_index) as [Hz | Hin].
    - unfold o. rewrite Hz, Hmax. done.
    - by apply Hle. }
  pose proof (normalized_within_hundred o my ey
                (original_at_finite keys period_index) Hb Hov)
    as (Hbound & Hsign & Hshape).
  unfold n, normalized_at. fold o. rewrite Hmax.
  split; [done|].
  intros Hneg.
  assert (Float.signbit o = true) as Hs.
  { by destruct o as [[|] | [|] | | [|] ? ?]. }
  rewrite Hs in Hshape. destruct Hshape as [-> | (m & e & ->)]; [by right|].
  by left.
Qed.

End RadarValues.

(* ================================================================== *)
(** * Division is correctly rounded *)
(* ================================================================== *)

Lemma new_location_spec (D r : Z) :
  0 < D -> 0 <= r < D ->
  new_location D r
  = if r =? 0 then loc_Exact else loc_Inexact (2 * r ?= D).
Proof.
  intros HD Hr. unfold new_location, new_location_even, new_location_odd.
  destruct (Z.even D) eqn:He; [done|].
  destruct (Z.eqb_spec r 0); [done|]. f_equal.
  assert (Z.odd D = true) as Hodd by (by rewrite <- Z.negb_even, He).
  apply Z.odd_spec in Hodd as [h Hh].
  destruct (Z.compare_spec (2 * r + 1) D), (Z.compare_spec (2 * r) D);
    try done; lia.
Qed.

Lemma rec_of_scale (c N D : Z) :
  0 < c -> 0 < D -> rec_of (c * N) (c * D) = rec_of N D.
Proof.
  intros Hc HD. unfold rec_of, loc_of.
  rewrite Z.div_mul_cancel_l by lia.
  rewrite Z.mul_mod_distr_l by lia.
  pose proof (Z.mod_pos_bound N D HD) as Hr.
  destruct (Z.eqb_spec (N mod D) 0) as [Hz|Hnz].
  - rewrite Hz, Z.mul_0_r. done.
  - destruct (Z.eqb_spec (c * (N mod D)) 0) as [Hz'|_]; [nia|].
    do 2 f_equal.
    replace (2 * (c * (N mod D))) with (c * (2 * (N mod D))) by lia.
    symmetry. apply Zmult_compare_compat_l. lia.
Qed.

(** The integer part and the position of the rest depend on the ratio
    only. *)
Lemma rec_of_ratio (N1 D1 N2 D2 : Z) :
  0 < D1 -> 0 < D2 -> N1 * D2 = N2 * D1 -> rec_of N1 D1 = rec_of N2 D2.
Proof.
  intros H1 H2 Heq.
  rewrite <- (rec_of_scale D2 N1 D1), <- (rec_of_scale D1 N2 D2) by done.
  f_equal; lia.
Qed.

Lemma shr_1_eq (m : Z) (r s : bool) :
  0 <= m ->
  shr_1 {| shr_m := m; shr_r := r; shr_s := s |}
  = {| shr_m := m / 2; shr_r := Z.odd m; shr_s := r || s |}.
Proof.
  intros Hm. destruct m as [|p|p]; [done | | lia].
  destruct p as [p|p|]; cbn [shr_1 Z.odd]; [| |done].
  - f_equal. apply Z.div_unique with (r := 1); lia.
  - f_equal. apply Z.div_unique with (r := 0); lia.
Qed.

(** One shift to the right halves the unit. *)
Lemma shr_1_rec_of (N D : Z) :
  0 <= N -> 0 < D -> shr_1 (rec_of N D) = rec_of N (D * 2).
Proof.
  intros HN HD. unfold rec_of, loc_of.
  pose proof (Z.mod_pos_bound N D HD) as Hr.
  assert (0 <= N / D) as Hq by (apply Z.div_pos; lia).
  rewrite Z.rem_mul_r by lia. rewrite <- Z.div_div by lia.
  rewrite Zmod_odd.
  set (q := N / D) in *. set (r := N mod D) in *.
  assert (forall l, shr_1 (shr_record_of_loc q l)
                    = {| shr_m := q / 2; shr_r := Z.odd q;
                         shr_s := match l with loc_Exact => false | _ => true end |})
    as Hshr.
  { intros [|[]]; cbn [shr_record_of_loc]; by rewrite shr_1_eq. }
  rewrite Hshr.
  destruct (Z.odd q); destruct (Z.eqb_spec r 0) as [Hz|Hnz].
  - rewrite Hz. replace (0 + D * 1) with D by lia.
    destruct (Z.eqb_spec D 0); [lia|].
    replace (2 * D ?= D * 2) with Eq; [done|].
    symmetry. apply Z.compare_eq_iff. lia.
  - destruct (Z.eqb_spec (r + D * 1) 0); [lia|].
    replace (2 * (r + D * 1) ?= D * 2) with Gt; [done|].
    symmetry. apply Z.compare_gt_iff. lia.
  - rewrite Hz. replace (0 + D * 0) with 0 by lia. done.
  - replace (r + D * 0) with r by lia.
    destruct (Z.eqb_spec r 0); [lia|].
    replace (2 * r ?= D * 2) with Lt; [done|].
    symmetry. apply Z.compare_lt_iff. lia.
Qed.

Lemma shr_iter_rec_of (k : nat) (N D : Z) :
  0 <= N -> 0 < D ->
  Nat.iter k shr_1 (rec_of N D) = rec_of N (D * 2 ^ Z.of_nat k).
Proof.
  intros HN HD. induction k as [|k IH].
  - simpl. by rewrite Z.mul_1_r.
  - change (Nat.iter (S k) shr_1 (rec_of N D))
      with (shr_1 (Nat.iter k shr_1 (rec_of N D))).
    rewrite IH, shr_1_rec_of; [|done|].
    + rewrite Nat2Z.inj_succ, Z.pow_succ_r by lia. f_equal. lia.
    + pose proof (pow2_pos (Z.of_nat k)). nia.
Qed.

(** Shifting right by [n] places makes the unit [2^n] times larger. *)
Lemma shr_rec_of (N D e n : Z) :
  0 <= N -> 0 < D ->
  shr (rec_of N D) e n = (rec_of N (D * 2 ^ Z.max n 0), e + Z.max n 0).
Proof.
  intros HN HD. destruct n as [|p|p]; cbn [shr].
  - simpl. by rewrite Z.mul_1_r, Z.add_0_r.
  - rewrite iter_pos_nat, shr_iter_rec_of by done.
    rewrite positive_nat_Z. by rewrite Z.max_l by lia.
  - rewrite Z.max_r by lia. simpl. by rewrite Z.mul_1_r, Z.add_0_r.
Qed.

Lemma shr_m_rec_of (N D : Z) : shr_m (rec_of N D) = N / D.
Proof. apply shr_record_of_loc_m. Qed.

Lemma Zdigits2_unique (m d : Z) :
  0 < m -> 2 ^ (d - 1) <= m < 2 ^ d -> Zdigits2 m = d.
Proof.
  intros Hm [Hlo Hhi]. destruct m as [|p|p]; try lia.
  cbn [Zdigits2]. pose proof (digits2_pos_bounds p) as [Hplo Hphi].
  set (dp := Zpos (digits2_pos p)) in *.
  destruct (Z.lt_trichotomy dp d) as [Hlt | [Heq | Hgt]]; [|done|].
  - assert (2 ^ dp <= 2 ^ (d - 1)) by (apply Z.pow_le_mono_r; lia). lia.
  - destruct (Z_lt_le_dec d 0) as [Hneg|Hpos].
    + rewrite Z.pow_neg_r in Hhi by lia. lia.
    + assert (2 ^ d <= 2 ^ (dp - 1)) by (apply Z.pow_le_mono_r; lia). lia.
Qed.

Section Quotient.

Variable K : Z.
Hypothesis HK : 4200 <= K.

Lemma quot_digits_ratio (A B A' B' : Z) :
  0 < B -> 0 < B' -> A * B' = A' * B ->
  quot_digits K A B = quot_digits K A' B'.
Proof.
  intros HB HB' Heq. unfold quot_digits. do 2 f_equal.
  rewrite <- (Z.div_mul_cancel_r (A * 2 ^ K) B B') by lia.
  rewrite <- (Z.div_mul_cancel_r (A' * 2 ^ K) B' B) by lia.
  f_equal; [|lia].
  replace (A * 2 ^ K * B') with (A * B' * 2 ^ K) by ring.
  rewrite Heq. ring.
Qed.

Lemma quot_rec_ratio (A B A' B' : Z) :
  0 < B -> 0 < B' -> A * B' = A' * B ->
  quot_exp K A B = quot_exp K A' B' /\ quot_rec K A B = quot_rec K A' B'.
Proof.
  intros HB HB' Heq.
  assert (quot_exp K A B = quot_exp K A' B') as HE.
  { unfold quot_exp. f_equal. by apply quot_digits_ratio. }
  split; [done|]. unfold quot_rec. rewrite <- HE.
  pose proof (fexp_eq (quot_digits K A B)) as Hf.
  fold (quot_exp K A B) in Hf.
  pose proof (pow2_pos (K + quot_exp K A B) ltac:(lia)).
  apply rec_of_ratio; [by apply Z.mul_pos_pos | by apply Z.mul_pos_pos |].
  replace (A * 2 ^ K * (B' * 2 ^ (K + quot_exp K A B)))
    with (A * B' * (2 ^ K * 2 ^ (K + quot_exp K A B))) by ring.
  rewrite Heq. ring.
Qed.

Lemma pow2_balance (a b u1 u2 u3 v1 v2 v3 : Z) :
  0 <= u1 -> 0 <= u2 -> 0 <= u3 -> 0 <= v1 -> 0 <= v2 -> 0 <= v3 ->
  u1 + u2 + u3 = v1 + v2 + v3 ->
  a * 2 ^ u1 * (b * 2 ^ u2 * 2 ^ u3) = a * 2 ^ v1 * 2 ^ v2 * (b * 2 ^ v3).
Proof.
  intros H1 H2 H3 H4 H5 H6 Heq.
  transitivity (a * b * 2 ^ (u1 + u2 + u3)).
  - rewrite (Z.pow_add_r 2 (u1 + u2) u3), (Z.pow_add_r 2 u1 u2) by lia. ring.
  - rewrite Heq.
    rewrite (Z.pow_add_r 2 (v1 + v2) v3), (Z.pow_add_r 2 v1 v2) by lia. ring.
Qed.

Lemma first_exponent (e' dq L z : Z) :
  e' <= Z.max (z - 53) (-1074) -> z <= L -> L <= dq + e' -> 0 <= dq ->
  (1 <= dq -> L = dq + e') ->
  e' + Z.max (Z.max (dq + e' - 53) (-1074) - e') 0 = Z.max (L - 53) (-1074).
Proof. lia. Qed.

(** The first shift of the rounding of a quotient, in terms of the ratio
    of the magnitudes. *)
Lemma div_first_shift (mx : positive) (ex : Z) (my : positive) (ey : Z) :
  bounded prec emax mx ex = true ->
  bounded prec emax my ey = true ->
  let A := Zpos mx * 2 ^ (ex + 1074) in
  let B := Zpos my * 2 ^ (ey + 1074) in
  let '(q, e', l) := SFdiv_core_binary prec emax (Zpos mx) ex (Zpos my) ey in
  shr_fexp prec emax q e' l = (quot_rec K A B, quot_exp K A B).
Proof.
  intros Hbx Hby A B.
  destruct (bounded_inv mx ex Hbx) as (Hdx & Hex & Hnx & Hmx).
  destruct (bounded_inv my ey Hby) as (Hdy & Hey & Hny & Hmy).
  pose proof (digits2_pos_bounds mx) as [Hxlo Hxhi].
  pose proof (digits2_pos_bounds my) as [Hylo Hyhi].
  unfold SFdiv_core_binary. cbn [Zdigits2].
  set (dx := Zpos (digits2_pos mx)) in *.
  set (dy := Zpos (digits2_pos my)) in *.
  assert (1 <= dx) as Hdx1 by (unfold dx; lia).
  assert (1 <= dy) as Hdy1 by (unfold dy; lia).
  set (z := dx + ex - (dy + ey)).
  pose proof (fexp_eq z) as Hfz.
  set (e' := Z.min (fexp prec emax z) (ex - ey)) in *.
  assert (0 <= ex - ey - e') as Hs by lia.
  set (s := ex - ey - e') in *.
  set (m' := match s with
             | 0 => Zpos mx
             | Zpos _ => Z.shiftl (Zpos mx) s
             | Zneg _ => 0
             end).
  assert (m' = Zpos mx * 2 ^ s) as Hm'.
  { unfold m'. destruct s as [|p|p] eqn:Hsp; [simpl; lia | | lia].
    by rewrite Z.shiftl_mul_pow2. }
  clearbody m'.
  pose proof (pow2_pos s Hs) as Hpows.
  assert (0 < m') as Hm'pos by nia.
  assert (fst (Z.div_eucl m' (Zpos my)) = m' / Zpos my) as Hq by done.
  assert (snd (Z.div_eucl m' (Zpos my)) = m' mod Zpos my) as Hr by done.
  destruct (Z.div_eucl m' (Zpos my)) as [q r]. cbn [fst snd] in Hq, Hr.
  pose proof (Z.mod_pos_bound m' (Zpos my) ltac:(lia)) as Hrb.
  rewrite <- Hr in Hrb.
  rewrite new_location_spec by lia.
  unfold shr_fexp.
  replace (shr_record_of_loc q
             (if r =? 0 then loc_Exact else loc_Inexact (2 * r ?= Zpos my)))
    with (rec_of m' (Zpos my))
    by (unfold rec_of, loc_of; by rewrite <- Hq, <- Hr).
  rewrite shr_rec_of by lia.
  (* the quotient and its digits *)
  assert (0 <= q) as Hq0 by (rewrite Hq; apply Z.div_pos; lia).
  pose proof (Zdigits2_lt_pow q Hq0) as Hqhi.
  pose proof (Zdigits2_nonneg q Hq0) as Hdq0.
  set (dq := Zdigits2 q) in *.
  assert (m' = Zpos my * q + r) as Hdiv.
  { rewrite Hq, Hr. apply Z.div_mod. lia. }
  assert (m' < Zpos my * 2 ^ dq) as Hm'hi by nia.
  assert (1 <= q -> 1 <= dq /\ Zpos my * 2 ^ (dq - 1) <= m') as Hm'lo.
  { intros Hq1. destruct q as [|pq|pq]; try lia.
    pose proof (digits2_pos_bounds pq) as [Hlo _].
    change (Zpos (digits2_pos pq)) with dq in Hlo.
    split; [unfold dq; simpl; lia | nia]. }
  (* the scaled quotient *)
  set (g := ey + 1074 + e' + K).
  assert (0 <= g) as Hg by (unfold g; lia).
  pose proof (pow2_pos g Hg) as Hpowg.
  pose proof (pow2_pos K ltac:(lia)) as HpowK.
  pose proof (pow2_pos (ex + 1074) ltac:(lia)) as Hpowx.
  pose proof (pow2_pos (ey + 1074) ltac:(lia)) as Hpowy.
  assert (0 < A) as HA0 by (unfold A; nia).
  assert (0 < B) as HB0 by (unfold B; nia).
  assert (A * 2 ^ K = m' * 2 ^ g) as HA.
  { unfold A. rewrite Hm'. rewrite <- !Z.mul_assoc, <- !Z.pow_add_r by lia.
    do 2 f_equal. unfold g, s. lia. }
  assert (forall t, 0 <= t -> B * 2 ^ (t + e' + K) = Zpos my * 2 ^ t * 2 ^ g)
    as HB.
  { intros t Ht. unfold B. rewrite <- !Z.mul_assoc, <- !Z.pow_add_r by lia.
    do 2 f_equal. unfold g. lia. }
  set (T := A * 2 ^ K / B).
  assert (T < 2 ^ (dq + e' + K)) as HThi.
  { apply Z.div_lt_upper_bound; [done|]. rewrite HA, HB by done.
    by apply Z.mul_lt_mono_pos_r. }
  assert (2 ^ (z - 1 + K) <= T) as HTz.
  { apply Z.div_le_lower_bound; [done|].
    assert (B < 2 ^ (dy + (ey + 1074))) as HBhi.
    { unfold B. rewrite (Z.pow_add_r 2 dy (ey + 1074)) by lia.
      by apply Z.mul_lt_mono_pos_r. }
    assert (2 ^ (dx - 1 + (ex + 1074)) <= A) as HAlo.
    { unfold A. rewrite (Z.pow_add_r 2 (dx - 1) (ex + 1074)) by lia.
      by apply Z.mul_le_mono_nonneg_r; [lia|]. }
    pose proof (pow2_pos (z - 1 + K) ltac:(unfold z; lia)) as Hpz.
    assert (B * 2 ^ (z - 1 + K)
            <= 2 ^ (dy + (ey + 1074)) * 2 ^ (z - 1 + K)) as H1
      by (apply Z.mul_le_mono_nonneg_r; lia).
    rewrite <- Z.pow_add_r in H1 by (unfold z; lia).
    replace (dy + (ey + 1074) + (z - 1 + K))
      with (dx - 1 + (ex + 1074) + K) in H1 by (unfold z; lia).
    rewrite (Z.pow_add_r 2 (dx - 1 + (ex + 1074)) K) in H1 by lia.
    assert (2 ^ (dx - 1 + (ex + 1074)) * 2 ^ K <= A * 2 ^ K) as H2
      by (apply Z.mul_le_mono_nonneg_r; lia).
    lia. }
  assert (0 < T) as HT0.
  { pose proof (pow2_pos (z - 1 + K) ltac:(unfold z; lia)). lia. }
  pose proof (Zdigits2_lt_pow T ltac:(lia)) as HTd.
  assert (z + K <= Zdigits2 T) as HLz.
  { destruct (Z_lt_le_dec (Zdigits2 T) (z + K)) as [Hlt|]; [|done].
    assert (2 ^ Zdigits2 T <= 2 ^ (z - 1 + K))
      by (apply Z.pow_le_mono_r; lia).
    lia. }
  assert (Zdigits2 T <= dq + e' + K) as HLhi.
  { apply Zdigits2_le; [lia | unfold z in HLz; lia | done]. }
  assert (1 <= q -> Zdigits2 T = dq + e' + K) as HLeq.
  { intros Hq1. destruct (Hm'lo Hq1) as [Hdq1 Hlo].
    apply Zdigits2_unique; [done|]. split; [|done].
    apply Z.div_le_lower_bound; [done|].
    replace (dq + e' + K - 1) with ((dq - 1) + e' + K) by lia.
    rewrite HA, HB by lia.
    by apply Z.mul_le_mono_nonneg_r; [lia|]. }
  assert (q = 0 -> dq = 0) as Hq00 by (by intros ->).
  (* the exponent *)
  assert (1 <= dq -> Zdigits2 T - K = dq + e') as HLeq'.
  { intros Hdq1. assert (1 <= q) as Hq1; [|specialize (HLeq Hq1); lia].
    destruct (Z_le_gt_dec 1 q) as [|Hq1]; [done|].
    assert (q = 0) as Hqz by (clear - Hq0 Hq1; lia).
    specialize (Hq00 Hqz). clear - Hq00 Hdq1. lia. }
  assert (e' <= Z.max (z - 53) (-1074)) as He'z
    by (clear - Hfz; unfold e'; lia).
  assert (z <= Zdigits2 T - K) as HLz' by (clear - HLz; lia).
  assert (Zdigits2 T - K <= dq + e') as HLhi' by (clear - HLhi; lia).
  pose proof (first_exponent e' dq (Zdigits2 T - K) z
                He'z HLz' HLhi' Hdq0 HLeq') as HE.
  rewrite <- !fexp_eq in HE.
  change (Zdigits2 T - K) with (quot_digits K A B) in HE.
  fold (quot_exp K A B) in HE.
  set (k := Z.max (fexp prec emax (dq + e') - e') 0) in *.
  f_equal; [|done].
  unfold quot_rec. rewrite <- HE.
  assert (0 <= k) as Hk0 by (clear; unfold k; lia).
  assert (0 <= K + (e' + k)) as HKE.
  { pose proof (fexp_eq (quot_digits K A B)) as HfL.
    fold (quot_exp K A B) in HfL. clear - HE HfL HK. lia. }
  pose proof (pow2_pos k Hk0) as Hpowk.
  pose proof (pow2_pos (K + (e' + k)) HKE) as HpowKE.
  apply rec_of_ratio; [by apply Z.mul_pos_pos | by apply Z.mul_pos_pos |].
  unfold A, B. rewrite Hm'.
  apply pow2_balance; try done; clear - Hex Hey HK; lia.
Qed.

End Quotient.

(** The quotient of two finite numbers depends on the ratio of their
    magnitudes only. *)
Lemma SFdiv_ratio (sx sy : bool) (mx : positive) (ex : Z) (my : positive)
    (ey : Z) (mx' : positive) (ex' : Z) (my' : positive) (ey' : Z) :
  bounded prec emax mx ex = true ->
  bounded prec emax my ey = true ->
  bounded prec emax mx' ex' = true ->
  bounded prec emax my' ey' = true ->
  Zpos mx * 2 ^ (ex + 1074) * (Zpos my' * 2 ^ (ey' + 1074))
  = Zpos mx' * 2 ^ (ex' + 1074) * (Zpos my * 2 ^ (ey + 1074)) ->
  SFdiv prec emax (S754_finite sx mx ex) (S754_finite sy my ey)
  = SFdiv prec emax (S754_finite sx mx' ex') (S754_finite sy my' ey').
Proof.
  intros Hbx Hby Hbx' Hby' Heq.
  pose proof (div_first_shift 5000 ltac:(lia) mx ex my ey Hbx Hby) as H1.
  pose proof (div_first_shift 5000 ltac:(lia) mx' ex' my' ey' Hbx' Hby') as H2.
  cbv zeta in H1, H2.
  destruct (bounded_inv my ey Hby) as (_ & Hey & _).
  destruct (bounded_inv my' ey' Hby') as (_ & Hey' & _).
  pose proof (pow2_pos (ey + 1074) ltac:(lia)).
  pose proof (pow2_pos (ey' + 1074) ltac:(lia)).
  destruct (quot_rec_ratio 5000 ltac:(lia) _ (Zpos my * 2 ^ (ey + 1074)) _
              (Zpos my' * 2 ^ (ey' + 1074))
              ltac:(by apply Z.mul_pos_pos) ltac:(by apply Z.mul_pos_pos) Heq)
    as [HE HR].
  unfold SFdiv.
  destruct (SFdiv_core_binary prec emax (Zpos mx) ex (Zpos my) ey)
    as [[q e] l].
  destruct (SFdiv_core_binary prec emax (Zpos mx') ex' (Zpos my') ey')
    as [[q' e'] l'].
  unfold binary_round_aux. rewrite H1, H2, HE, HR. done.
Qed.

(* ================================================================== *)
(** * Exact scaling by a power of two *)
(* ================================================================== *)

Lemma scales_exactly_inv (j : Z) (s : bool) (m : positive) (e : Z) :
  scales_exactly j (S754_finite s m e) = true ->
  Zpos (digits2_pos m) = 53 /\ -1074 <= e <= 971 /\ -1074 <= e + j <= 971.
Proof.
  cbn [scales_exactly]. rewrite !andb_true_iff.
  intros ((((Hd%Z.eqb_eq & ?%Z.leb_le) & ?%Z.leb_le) & ?%Z.leb_le) & ?%Z.leb_le).
  lia.
Qed.

Lemma bounded_normal (m : positive) (e : Z) :
  Zpos (digits2_pos m) = 53 -> -1074 <= e <= 971 ->
  bounded prec emax m e = true.
Proof.
  intros Hd He. unfold bounded, canonical_mantissa.
  rewrite fexp_eq, Hd. apply andb_true_iff. split.
  - apply Z.eqb_eq. lia.
  - apply Z.leb_le. unfold emax, prec. lia.
Qed.

Lemma digits2_pos_shift52 (m : positive) :
  Zpos (digits2_pos (m * 4503599627370496)) = Zpos (digits2_pos m) + 52.
Proof.
  rewrite Pos.mul_comm.
  lazy beta iota delta [Pos.mul]. lazy beta iota delta [digits2_pos].
  fold digits2_pos. rewrite !Pos2Z.inj_succ. lia.
Qed.

(** Multiplying by [2^j] within the normal range only moves the exponent. *)
Lemma mul_pow2 (j : Z) (x : float) :
  scales_exactly j x = true ->
  Float.mul x (pow2 j) = shift j x.
Proof.
  destruct x as [s | s | | s m e]; try done.
  - intros _. cbn. by destruct s.
  - intros (Hd & He & Hej)%scales_exactly_inv.
    unfold Float.mul, pow2, SFmul, binary_round_aux, shr_fexp.
    rewrite xorb_false_r. cbn [Zdigits2 shift].
    rewrite digits2_pos_shift52, Hd, fexp_eq.
    replace (Z.max (53 + 52 + (e + (j - 52)) - 53) (-1074) - (e + (j - 52)))
      with 52 by lia.
    rewrite (Pos.mul_comm m). lazy beta iota delta [Pos.mul].
    lazy beta iota zeta delta
         [shr shr_record_of_loc SpecFloat.iter_pos shr_1 loc_of_shr_record
          shr_m shr_r shr_s orb round_nearest_even fst snd].
    cbn [Zdigits2]. rewrite Hd, fexp_eq.
    replace (Z.max (53 + (e + (j - 52) + 52) - 53) (-1074)
             - (e + (j - 52) + 52)) with 0 by lia.
    cbn [shr shr_record_of_loc shr_m].
    replace (e + (j - 52) + 52) with (e + j) by lia.
    replace (e + j <=? emax - prec) with true; [done|].
    symmetry. apply Z.leb_le. unfold emax, prec. lia.
Qed.

Lemma mul_zero_positive (k : float) :
  Float.gtb k Float.zero = true ->
  Float.finite k = true ->
  Float.mul Float.zero k = Float.zero.
Proof. by destruct k as [[|] | [|] | | [|] mk ek]. Qed.

(** Scaling by a power of two within the normal range is a scaling in
    exact proportion. *)
Lemma pow2_scaling_proportional (j : Z) (x : float) :
  scales_exactly j x = true ->
  proportional (Z.to_pos (2 ^ Z.max j 0)) (Z.to_pos (2 ^ Z.max (- j) 0))
    x (Float.mul x (pow2 j)) = true.
Proof.
  intros Hx. rewrite mul_pow2 by done.
  pose proof (pow2_pos (Z.max j 0) ltac:(lia)) as Hp.
  pose proof (pow2_pos (Z.max (- j) 0) ltac:(lia)) as Hq.
  unfold proportional. rewrite !Z2Pos.id by done.
  destruct x as [s | s | | s m e]; try done.
  - cbn [shift Float.finite Float.signbit magnitude andb].
    rewrite !Z.mul_0_r. by destruct s.
  - apply scales_exactly_inv in Hx as (Hd & He & Hej).
    cbn [shift Float.finite Float.signbit magnitude].
    rewrite !bounded_normal by done. rewrite Bool.eqb_reflx. cbn [andb].
    apply Z.eqb_eq.
    rewrite (Z.mul_comm (Zpos m)), (Z.mul_comm (Zpos m)), !Z.mul_assoc.
    f_equal. rewrite <- !Z.pow_add_r by lia. f_equal. lia.
Qed.

Section Scaling.

Variable d : gmap str series.
Variables (keys : list str) (key : str) (s : series).

Hypothesis Hkey : resolve_key keys d = Some key.
Hypothesis Hs : d !! key = Some s.

Lemma resolve_series_of_key : resolve_series keys d = Some s.
Proof.
  revert Hkey. induction keys as [|k0 rest IH]; [done|]. simpl.
  destruct (d !! k0) as [s0|] eqn:Hk0; [|done].
  intros [= ->]. congruence.
Qed.

(** Replacing the series under the resolved key makes the axis resolve to
    the new series. *)
Lemma resolve_series_insert (s' : series) :
  resolve_series keys (<[key := s']> d) = Some s'.
Proof.
  revert Hkey. induction keys as [|k0 rest IH]; [done|]. simpl.
  destruct (d !! k0) as [s0|] eqn:Hk0.
  - intros [= ->]. by rewrite lookup_insert_eq.
  - intros Hrest. rewrite lookup_insert_ne by congruence.
    rewrite Hk0. by apply IH.
Qed.

(** The raw value of the axis is multiplied by [k], for any [k] that keeps
    [0.0] as it is (any positive finite [k]). *)
Lemma original_at_scaled (k : float) (period_index : nat) :
  Float.mul Float.zero k = Float.zero ->
  original_at (<[key := scale_series k s]> d) period_index keys
  = Float.mul (original_at d period_index keys) k.
Proof.
  intros Hzero.
  unfold original_at. rewrite resolve_series_insert, resolve_series_of_key.
  unfold value_at, scale_series.
  destruct s as [|e0 s0]; [done|].
  cbn [List.map]. rewrite <- (map_cons _ e0 s0), length_map.
  destruct (Nat.ltb_spec period_index (length (e0 :: s0))); [|done].
  change (List.map ?f ?l) with (f <$> l). rewrite list_lookup_fmap.
  by destruct ((e0 :: s0) !! period_index) as [[x|]|].
Qed.

End Scaling.

(* ================================================================== *)
(** * Scaling in exact proportion *)
(* ================================================================== *)

Lemma magnitude_pos (s : bool) (m : positive) (e : Z) :
  bounded prec emax m e = true -> 0 < magnitude (S754_finite s m e).
Proof.
  intros (_ & He & _)%bounded_inv. cbn [magnitude].
  apply Z.mul_pos_pos; [done|]. apply pow2_pos. lia.
Qed.

Lemma magnitude_abs (x : float) : magnitude (Float.abs x) = magnitude x.
Proof. by destruct x. Qed.

(** A number of a lower binade is smaller. *)
Lemma magnitude_lt_exp (mx : positive) (ex : Z) (my : positive) (ey : Z) :
  bounded prec emax mx ex = true -> bounded prec emax my ey = true ->
  ex < ey ->
  Zpos mx * 2 ^ (ex + 1074) < Zpos my * 2 ^ (ey + 1074).
Proof.
  intros (_ & Hex & _ & Hmx)%bounded_inv (_ & Hey & Hny & _)%bounded_inv Hlt.
  pose proof (digits2_pos_bounds my) as [Hylo _].
  rewrite Hny in Hylo by lia.
  change (2 ^ (53 - 1)) with 4503599627370496 in Hylo.
  change (2 ^ 53) with 9007199254740992 in Hmx.
  replace (ey + 1074) with ((ex + 1074) + (ey - ex)) by lia.
  rewrite (Z.pow_add_r 2 (ex + 1074) (ey - ex)) by lia.
  pose proof (pow2_pos (ex + 1074) ltac:(lia)) as Hp.
  assert (2 ^ 1 <= 2 ^ (ey - ex)) as H2 by (apply Z.pow_le_mono_r; lia).
  change (2 ^ 1) with 2 in H2.
  set (a := 2 ^ (ex + 1074)) in *. set (b := 2 ^ (ey - ex)) in *.
  clearbody a b. clear - Hylo Hmx Hp H2.
  assert (Zpos mx * a < 9007199254740992 * a)
    by (by apply Z.mul_lt_mono_pos_r).
  assert (4503599627370496 * (a * b) <= Zpos my * (a * b)).
  { apply Z.mul_le_mono_nonneg_r; [|done].
    apply Z.mul_nonneg_nonneg; lia. }
  assert (a * 2 <= a * b) by (apply Z.mul_le_mono_nonneg_l; lia).
  lia.
Qed.

(** The order of non-negative finite numbers is that of their
    magnitudes. *)
Lemma ordkey_magnitude (x y : float) :
  nonneg_finite x = true -> nonneg_finite y = true ->
  ordkey x < ordkey y <-> magnitude x < magnitude y.
Proof.
  destruct x as [[|] | | | [|] mx ex], y as [[|] | | | [|] my ey];
    try done; cbn [nonneg_finite]; intros Hx Hy.
  - pose proof (magnitude_pos false my ey Hy) as Hm.
    apply bounded_inv in Hy as (_ & He & _ & _).
    cbn [ordkey magnitude] in *. split; intros _; [done | lia].
  - pose proof (magnitude_pos false mx ex Hx) as Hm.
    apply bounded_inv in Hx as (_ & He & _ & _).
    cbn [ordkey magnitude] in *. split; intros H; lia.
  - cbn [ordkey magnitude].
    destruct (Z.lt_trichotomy ex ey) as [Hlt | [-> | Hgt]].
    + pose proof (magnitude_lt_exp mx ex my ey Hx Hy Hlt).
      apply bounded_inv in Hx as (_ & _ & _ & Hmx).
      change (2 ^ 53) with 9007199254740992 in Hmx.
      split; intros _; [done | lia].
    + apply bounded_inv in Hy as (_ & He & _ & _).
      pose proof (pow2_pos (ey + 1074) ltac:(lia)) as Hp.
      rewrite <- Z.mul_lt_mono_pos_r by done. lia.
    + pose proof (magnitude_lt_exp my ey mx ex Hy Hx Hgt).
      apply bounded_inv in Hy as (_ & _ & _ & Hmy).
      change (2 ^ 53) with 9007199254740992 in Hmy.
      split; intros H'; lia.
Qed.

Lemma gtb_magnitude (x y : float) :
  nonneg_finite x = true -> nonneg_finite y = true ->
  Float.gtb y x = (magnitude x <? magnitude y).
Proof.
  intros Hx Hy.
  pose proof (gtb_ordkey x y Hx Hy) as H1.
  pose proof (ordkey_magnitude x y Hx Hy) as H2.
  destruct (Float.gtb y x), (Z.ltb_spec (magnitude x) (magnitude y));
    try done.
  - exfalso. assert (ordkey x < ordkey y) by (by apply H1). lia.
  - assert (true = true) by done. tauto.
Qed.

(** What it is for two numbers to be in the proportion [p/q]. *)
Lemma proportional_inv (p q : positive) (x y : float) :
  proportional p q x y = true ->
  Float.finite x = true /\ Float.finite y = true
  /\ Float.signbit y = Float.signbit x
  /\ Zpos q * magnitude y = Zpos p * magnitude x.
Proof.
  unfold proportional. rewrite !andb_true_iff.
  intros (((Hx & Hy) & Hs) & Hm%Z.eqb_eq).
  apply Bool.eqb_prop in Hs. done.
Qed.

Lemma finite_zero_magnitude (x : float) :
  Float.finite x = true -> magnitude x = 0 ->
  x = S754_zero (Float.signbit x).
Proof.
  destruct x as [s | s | | s m e]; try done.
  cbn [Float.finite]. intros Hb Hm.
  pose proof (magnitude_pos s m e Hb). lia.
Qed.

(** A zero is in proportion with itself only. *)
Lemma proportional_zero (p q : positive) (s : bool) (y : float) :
  proportional p q (S754_zero s) y = true -> y = S754_zero s.
Proof.
  intros (_ & Hy & Hs & Hm)%proportional_inv.
  cbn [magnitude Float.signbit] in *. rewrite <- Hs.
  apply finite_zero_magnitude; [done | lia].
Qed.

Lemma proportional_abs (p q : positive) (x y : float) :
  proportional p q x y = true ->
  proportional p q (Float.abs x) (Float.abs y) = true.
Proof.
  intros (Hx & Hy & Hs & Hm)%proportional_inv.
  unfold proportional. rewrite !magnitude_abs, !andb_true_iff.
  repeat split; [by destruct x | by destruct y | | by apply Z.eqb_eq].
  apply Bool.eqb_true_iff.
  destruct x as [? | ? | | ? ? ?], y as [? | ? | | ? ? ?]; done.
Qed.

(** Proportion keeps the order of non-negative numbers. *)
Lemma proportional_gtb (p q : positive) (x y x' y' : float) :
  proportional p q x x' = true -> proportional p q y y' = true ->
  Float.gtb (Float.abs y') (Float.abs x')
  = Float.gtb (Float.abs y) (Float.abs x).
Proof.
  intros (Hx & Hx' & _ & Hmx)%proportional_inv
         (Hy & Hy' & _ & Hmy)%proportional_inv.
  rewrite !gtb_magnitude by (by apply abs_nonneg_finite).
  rewrite !magnitude_abs.
  destruct (Z.ltb_spec (magnitude x') (magnitude y')) as [Hlt|Hge],
           (Z.ltb_spec (magnitude x) (magnitude y)) as [Hlt'|Hge'];
    try done; exfalso.
  - assert (Zpos p * magnitude y <= Zpos p * magnitude x)
      by (apply Z.mul_le_mono_nonneg_l; lia).
    assert (Zpos q * magnitude x' < Zpos q * magnitude y')
      by (apply Z.mul_lt_mono_pos_l; lia).
    lia.
  - assert (Zpos p * magnitude x < Zpos p * magnitude y)
      by (apply Z.mul_lt_mono_pos_l; lia).
    assert (Zpos q * magnitude y' <= Zpos q * magnitude x')
      by (apply Z.mul_le_mono_nonneg_l; lia).
    lia.
Qed.

(** The scan of [max] picks the same item of a list under two measures
    that order it in the same way. *)
Lemma py_max_fold_select (a b : float -> float) (rest : list float)
    (x : float) :
  (forall v w, v ∈ x :: rest -> w ∈ x :: rest ->
     Float.gtb (b w) (b v) = Float.gtb (a w) (a v)) ->
  exists v,
    v ∈ x :: rest
    /\ fold_left (fun best y => if Float.gtb y best then y else best)
                 (List.map a rest) (a x) = a v
    /\ fold_left (fun best y => if Float.gtb y best then y else best)
                 (List.map b rest) (b x) = b v.
Proof.
  revert x. induction rest as [|y rest IH]; intros x Hcmp.
  - exists x. split; [left | done].
  - cbn [List.map fold_left].
    rewrite (Hcmp x y) by (repeat constructor).
    destruct (Float.gtb (a y) (a x)).
    + destruct (IH y) as (v & Hv & Ha & Hb).
      { intros v w Hv Hw. apply Hcmp; by right. }
      exists v. split; [by right | done].
    + destruct (IH x) as (v & Hv & Ha & Hb).
      { intros v w Hv Hw.
        apply Hcmp; [apply elem_of_cons in Hv as [-> | Hv]
                    |apply elem_of_cons in Hw as [-> | Hw]];
          first [left | by do 2 right]. }
      exists v. split; [|done].
      apply elem_of_cons in Hv as [-> | Hv]; [left | by do 2 right].
Qed.

(** The quotient of two numbers does not change when both are replaced by
    numbers in the same proportion. *)
Lemma SFdiv_proportional (p q : positive) (o o' M M' : float) :
  proportional p q o o' = true ->
  proportional p q M M' = true ->
  Float.truthy M = true ->
  SFdiv prec emax o' M' = SFdiv prec emax o M.
Proof.
  intros Ho HM Ht.
  pose proof (proportional_inv p q M M' HM) as (HfM & HfM' & HsM & HmM).
  destruct M as [? | ? | | sM mM eM]; try done.
  destruct M' as [sM' | ? | | sM' mM' eM']; try done.
  { cbn [magnitude] in HmM.
    pose proof (magnitude_pos sM mM eM HfM). cbn [magnitude] in *. lia. }
  cbn [Float.signbit] in HsM. subst sM'.
  destruct o as [so | ? | | so mo eo].
  - by rewrite (proportional_zero p q so o' Ho).
  - by apply proportional_inv in Ho as (? & _).
  - by apply proportional_inv in Ho as (? & _).
  - apply proportional_inv in Ho as (Hfo & Hfo' & Hso & Hmo).
    destruct o' as [so' | ? | | so' mo' eo']; try done.
    { cbn [magnitude] in Hmo.
      pose proof (magnitude_pos so mo eo Hfo). cbn [magnitude] in *. lia. }
    cbn [Float.signbit] in Hso. subst so'.
    cbn [Float.finite magnitude] in *.
    apply SFdiv_ratio; try done.
    set (a' := Zpos mo' * 2 ^ (eo' + 1074)) in *.
    set (a := Zpos mo * 2 ^ (eo + 1074)) in *.
    set (b' := Zpos mM' * 2 ^ (eM' + 1074)) in *.
    set (b := Zpos mM * 2 ^ (eM + 1074)) in *.
    clearbody a a' b b'. clear - Hmo HmM.
    apply (Z.mul_reg_l _ _ (Zpos p * Zpos q)); [lia|].
    replace (Zpos p * Zpos q * (a' * b))
      with ((Zpos q * a') * (Zpos p * b)) by ring.
    replace (Zpos p * Zpos q * (a * b'))
      with ((Zpos p * a) * (Zpos q * b')) by ring.
    by rewrite Hmo, HmM.
Qed.

Section ProportionalScaling.

Variable d : gmap str series.
Variables (keys : list str) (key : str) (s : series).

Hypothesis Hkey : resolve_key keys d = Some key.
Hypothesis Hs : d !! key = Some s.

Variable k : float.
Variables p q : positive.

Hypothesis Hzero : Float.mul Float.zero k = Float.zero.
Hypothesis Hprop :
  forall x, Some x ∈ s -> proportional p q x (Float.mul x k) = true.

Let d' : gmap str series := <[key := scale_series k s]> d.

Lemma resolve_values_of_key :
  resolve_values keys d = List.map float_or_zero s.
Proof.
  by rewrite resolve_values_series, (resolve_series_of_key d keys key s Hkey Hs).
Qed.

Lemma resolve_values_scaled :
  resolve_values keys d'
  = List.map (fun v => Float.mul v k) (resolve_values keys d).
Proof.
  unfold d'.
  rewrite resolve_values_series,
    (resolve_series_insert d keys key s Hkey Hs), resolve_values_of_key.
  unfold scale_series. rewrite !map_map.
  apply map_ext. intros [x|]; [done|]. cbn [option_map float_or_zero].
  by rewrite Hzero.
Qed.

Lemma resolved_value_proportional (v : float) :
  v ∈ resolve_values keys d -> proportional p q v (Float.mul v k) = true.
Proof.
  rewrite resolve_values_of_key.
  intros (o & <- & Ho)%list_elem_of_In%in_map_iff.
  destruct o as [x|]; cbn [float_or_zero].
  - by apply Hprop, list_elem_of_In.
  - by rewrite Hzero.
Qed.

Lemma original_proportional (period_index : nat) :
  proportional p q (original_at d period_index keys)
    (Float.mul (original_at d period_index keys) k) = true.
Proof.
  destruct (original_at_cases d keys period_index) as [-> | Hin].
  - by rewrite Hzero.
  - by apply resolved_value_proportional.
Qed.

(** The normalized value of the axis is unchanged. *)
Lemma normalized_at_proportional (period_index : nat) :
  normalized_at d' period_index keys = normalized_at d period_index keys.
Proof.
  unfold normalized_at, d'.
  rewrite (original_at_scaled d keys key s Hkey Hs k period_index Hzero).
  fold d'. f_equal.
  pose proof (original_proportional period_index) as Ho.
  set (o := original_at d period_index keys) in *.
  unfold axis_max. rewrite resolve_values_scaled, map_map.
  set (vals := resolve_values keys d).
  assert (forall v, v ∈ vals -> proportional p q v (Float.mul v k) = true)
    as Hvals by apply resolved_value_proportional.
  assert (o = Float.zero \/ o ∈ vals) as Hov
    by apply original_at_cases.
  clearbody o vals.
  destruct vals as [|v0 rest].
  { destruct Hov as [-> | Hin]; [|by apply elem_of_nil in Hin].
    cbn [List.map py_max]. by rewrite Hzero. }
  destruct (py_max_fold_select Float.abs (fun v => Float.abs (Float.mul v k))
              rest v0) as (v & Hv & Ha & Hb).
  { intros v w Hv Hw. by apply (proportional_gtb p q); apply Hvals. }
  cbn [py_max List.map]. rewrite Ha, Hb.
  pose proof (proportional_abs p q _ _ (Hvals v Hv)) as HM.
  unfold floor_to_one.
  destruct (Float.truthy (Float.abs v)) eqn:Ht.
  - assert (Float.truthy (Float.abs (Float.mul v k)) = true) as ->.
    { destruct (Float.abs (Float.mul v k)) as [sz | | |] eqn:Hz; try done.
      apply proportional_inv in HM as (Hfv & _ & _ & Hm).
      cbn [magnitude] in Hm.
      assert (magnitude (Float.abs v) = 0) as Hm0 by lia.
      by rewrite (finite_zero_magnitude _ Hfv Hm0) in Ht. }
    by apply (SFdiv_proportional p q).
  - (* the greatest magnitude is zero: every value is a zero *)
    assert (exists sv, Float.abs v = S754_zero sv) as [sv Hvz]
      by (destruct (Float.abs v); by eauto).
    rewrite Hvz in HM. apply proportional_zero in HM. rewrite HM.
    cbn [Float.truthy].
    assert (exists so, o = S754_zero so) as [so ->].
    { destruct Hov as [-> | Hin]; [by eexists|].
      assert (Forall (fun x => nonneg_finite x = true)
                (List.map Float.abs (v0 :: rest))) as Hall.
      { apply Forall_forall. intros x Hx.
        apply list_elem_of_In, in_map_iff in Hx as (w & <- & Hw).
        apply abs_nonneg_finite.
        by apply (proportional_inv p q _ _ (Hvals w (proj2 (list_elem_of_In _ _) Hw))). }
      destruct (py_max_spec _ Hall) as (_ & Hmax & _).
      cbn [py_max List.map] in Hmax. rewrite Ha, Hvz in Hmax.
      assert (Float.abs o ∈ Float.abs v0 :: List.map Float.abs rest)
        as Hmag.
      { change (Float.abs o ∈ List.map Float.abs (v0 :: rest)).
        apply list_elem_of_In, in_map. by apply list_elem_of_In. }
      specialize (Hmax _ Hmag).
      destruct o as [so | | | so mo eo]; try done. by eexists. }
    by rewrite (proportional_zero p q so _ Ho).
Qed.

End ProportionalScaling.

(** A rounded value carries the sign it was given. *)
Lemma binary_round_aux_sign (s : bool) (m e : Z) (l : location) :
  Float.finite (binary_round_aux prec emax s m e l) = true ->
  Float.signbit (binary_round_aux prec emax s m e l) = s.
Proof.
  unfold binary_round_aux.
  destruct (shr_fexp prec emax m e l) as [mrs1 e1].
  destruct (shr_fexp prec emax _ e1 loc_Exact) as [mrs2 e2].
  destruct (shr_m mrs2); [done | | done].
  by destruct (e2 <=? emax - prec).
Qed.

(** Exact products are in exact proportion, the proportion being [k]: if
    [x * k] is finite and its magnitude is the product of the magnitudes
    of [x] and [k], then [x * k] is [p / q] times [x] for [p / q = k]. *)
Lemma exact_product_proportional (k x : float) :
  Float.gtb k Float.zero = true ->
  Float.finite k = true ->
  Float.finite x = true ->
  Float.finite (Float.mul x k) = true ->
  2 ^ 1074 * magnitude (Float.mul x k) = magnitude k * magnitude x ->
  proportional (Z.to_pos (magnitude k)) (Z.to_pos (2 ^ 1074))
    x (Float.mul x k) = true.
Proof.
  intros Hpos Hk Hx Hfin Hexact.
  destruct k as [[|] | [|] | | [|] mk ek]; try done.
  pose proof (magnitude_pos false mk ek Hk) as Hmk.
  unfold proportional. rewrite !Z2Pos.id by (done || by apply pow2_pos).
  rewrite Hx, Hfin. cbn [andb].
  apply andb_true_iff. split; [|by apply Z.eqb_eq].
  apply Bool.eqb_true_iff.
  destruct x as [sx | | | sx mx ex]; try done.
  - cbn. by destruct sx.
  - unfold Float.mul, SFmul in *. rewrite xorb_false_r in *.
    symmetry. by apply binary_round_aux_sign.
Qed.

(* ================================================================== *)
(** * Statements about [_parse_csv] *)
(* ================================================================== *)

(** C4. An input whose non-blank rows are one header row of at least two
    cells and nothing else fails with [NoNumericDataError], which is
    neither [EmptyInputError] nor [MalformedHeaderError]. *)
Theorem header_only_raises_no_numeric_data
    (to_float : str -> option float) (reader : list (list str))
    (header : list str) :
  List.filter has_content reader = [header] ->
  (2 <= length header)%nat ->
  _parse_csv to_float reader = raise NoNumericDataError
  /\ NoNumericDataError <> EmptyInputError
  /\ NoNumericDataError <> MalformedHeaderError.
Proof.
  intros Hrows Hlen. split; [|done].
  unfold _parse_csv. rewrite Hrows.
  by destruct (Nat.ltb_spec (length header) 2); [lia|].
Qed.

Lemma header_only_raises_no_numeric_data_witness :
  _parse_csv PyFloat.float_of_str
             [[u "Label"; u "2021"; u "2022"]; [u " "; []]; []]
  = raise NoNumericDataError
  /\ NoNumericDataError <> EmptyInputError
  /\ NoNumericDataError <> MalformedHeaderError.
Proof.
  apply (header_only_raises_no_numeric_data
           PyFloat.float_of_str _ [u "Label"; u "2021"; u "2022"]).
  - reflexivity.
  - simpl. lia.
Defined.

(** C5. After a successful parse the period count is the header length
    minus one, and every chart dataset comes from a data row and holds
    exactly one entry per period: a row with fewer value cells than periods
    has its entries followed by missing ones, a row with at least as many
    contributes its last period-count cells only. *)
Theorem dataset_length_is_period_count
    (to_float : str -> option float) (reader : list (list str))
    (p : Parsed) :
  _parse_csv to_float reader = inr p ->
  length (periods p) = (length (headers p) - 1)%nat
  /\ forall ds, ds ∈ datasets p ->
       length (ds_data ds) = length (periods p)
       /\ exists cell values,
            (cell :: values) ∈ data_rows_of reader
            /\ ds_label ds = label_of cell
            /\ let n := length (periods p) in
               ((length values < n)%nat ->
                  ds_data ds
                  = List.map (entry_of to_float) values
                      ++ replicate (n - length values) None)
               /\ ((n <= length values)%nat ->
                     ds_data ds
                     = List.map (entry_of to_float)
                                (drop (length values - n) values)).
Proof.
  intros Hp.
  apply parse_csv_inr in Hp
    as (header & _ & Hlen & Hh & Hper & _ & Hds & _).
  assert (length (periods p) = (length header - 1)%nat) as Hn.
  { rewrite Hper, length_drop. done. }
  split; [by rewrite Hh|].
  intros ds Hin. rewrite Hds in Hin.
  apply process_rows_datasets_origin
    in Hin as [Hin | (cell & values & Hrow & _ & ->)].
  { by apply elem_of_nil in Hin. }
  rewrite <- Hper. simpl. split.
  - apply series_of_length. lia.
  - exists cell, values. repeat split; [done | |].
    + intros Hlt. unfold series_of.
      rewrite numeric_segment_short, map_app by done. f_equal.
      by induction (length (periods p) - length values)%nat as [|k IH];
        simpl; [|rewrite <- IH].
    + intros Hle. unfold series_of.
      rewrite numeric_segment_long; [done | lia].
Qed.

Lemma dataset_length_is_period_count_witness :
  exists p,
    _parse_csv PyFloat.float_of_str
               [[u "Label"; u "2021"; u "2022"];
                [u "Rev"; u "100"];
                [u "Cost"; u "memo"; u "7"; u "8"; u "9"]]
    = inr p
    /\ List.map ds_data (datasets p)
       = [[Some (Float.of_Z 100); None];
          [Some (Float.of_Z 8); Some (Float.of_Z 9)]]
    /\ forall ds, ds ∈ datasets p -> length (ds_data ds) = length (periods p).
Proof.
  destruct (_parse_csv PyFloat.float_of_str
              [[u "Label"; u "2021"; u "2022"];
               [u "Rev"; u "100"];
               [u "Cost"; u "memo"; u "7"; u "8"; u "9"]])
    as [e|p] eqn:Hp; [vm_compute in Hp; discriminate|].
  exists p. split; [reflexivity|]. split.
  - vm_compute in Hp. injection Hp as <-. reflexivity.
  - intros ds Hin.
    by apply (dataset_length_is_period_count _ _ p Hp).
Defined.

(** C10. A data row none of whose numeric-segment cells parses as a number
    leaves the lookup exactly as it was, whatever its label and descriptor
    cells hold. *)
Theorem row_without_number_keeps_lookup
    (to_float : str -> option float) (n : nat) (st : LoopState)
    (row : list str) :
  (forall c, c ∈ numeric_segment_of n (tail row) ->
             entry_of to_float c = None) ->
  current_lookup (process_row to_float n st row) = current_lookup st.
Proof.
  intros Hall. destruct row as [|cell values]; [done|].
  by apply process_row_no_number, has_number_of_false.
Qed.

Lemma row_without_number_keeps_lookup_witness :
  current_lookup (process_row PyFloat.float_of_str 2
            {| table_rows := []; chart_datasets := [];
               current_lookup := {[ u "Rev" := [Some (Float.of_Z 1); None] ]} |}
            [u "Y"; u "PQ"; u "a"; u "b"])
  = {[ u "Rev" := [Some (Float.of_Z 1); None] ]}.
Proof.
  apply (row_without_number_keeps_lookup PyFloat.float_of_str 2).
  intros c Hc. vm_compute in Hc.
  apply elem_of_cons in Hc as [-> | Hc]; [reflexivity|].
  apply list_elem_of_singleton in Hc as ->. reflexivity.
Defined.

(** C1, as stated, fails: the row ["売上高","PQ","100"] registers the
    descriptor key "PQ", and the later row ["PQ","7"], whose primary label
    is that string, replaces its series. *)
Lemma descriptor_key_overwritten_by_later_label :
  let header := [u "Label"; u "2021"] in
  let first := [u "売上高"; u "PQ"; u "100"] in
  let later := [u "PQ"; u "7"] in
  current_lookup (process_row PyFloat.float_of_str 1 initial_state first) !! u "PQ"
  = Some [Some (Float.of_Z 100)]
  /\ exists p,
       _parse_csv PyFloat.float_of_str [header; first; later] = inr p
       /\ row_lookup p !! u "PQ" = Some [Some (Float.of_Z 7)]
       /\ row_lookup p !! u "PQ" <> Some [Some (Float.of_Z 100)].
Proof.
  split; [vm_compute; reflexivity|].
  destruct (_parse_csv _ _) as [e|p] eqn:Hp; [vm_compute in Hp; discriminate|].
  exists p. split; [reflexivity|].
  vm_compute in Hp. injection Hp as <-.
  split; [vm_compute; reflexivity | vm_compute; discriminate].
Qed.

(** C1, amended. Once a key is in the lookup (a descriptor alias or a
    label), the rows that follow leave its series untouched unless one of
    them has a parseable number and that very string as its primary label:
    no later descriptor registration ever replaces it. *)
Theorem registered_key_kept_by_later_rows
    (to_float : str -> option float) (reader : list (list str))
    (header : list str) (pre post : list (list str)) (p : Parsed)
    (key : str) (s : series) :
  List.filter has_content reader = header :: pre ++ post ->
  _parse_csv to_float reader = inr p ->
  current_lookup (fold_left (process_row to_float (length header - 1))
                    pre initial_state) !! key = Some s ->
  (forall cell values, (cell :: values) ∈ post ->
     label_of cell = key ->
     has_number_of to_float (length header - 1) values = false) ->
  row_lookup p !! key = Some s.
Proof.
  intros Hrows Hp Hs Hpost.
  apply parse_csv_inr in Hp as (header' & Hrows' & _ & _ & _ & _ & _ & Hl).
  rewrite Hrows in Hrows'. injection Hrows' as <- Hdata.
  rewrite Hl, <- Hdata, length_drop, fold_left_app.
  by apply process_rows_keep.
Qed.

Lemma registered_key_kept_by_later_rows_witness :
  exists p,
    _parse_csv PyFloat.float_of_str
               [[u "Label"; u "2021"];
                [u "売上高"; u "PQ"; u "100"];
                [u "売上個数"; u "PQ"; u "7"];
                [u "PQ"; u "n/a"]]
    = inr p
    /\ row_lookup p !! u "PQ" = Some [Some (Float.of_Z 100)].
Proof.
  destruct (_parse_csv _ _) as [e|p] eqn:Hp; [vm_compute in Hp; discriminate|].
  exists p. split; [reflexivity|].
  refine (registered_key_kept_by_later_rows PyFloat.float_of_str
            _ [u "Label"; u "2021"]
            [[u "売上高"; u "PQ"; u "100"]]
            [[u "売上個数"; u "PQ"; u "7"]; [u "PQ"; u "n/a"]]
            p (u "PQ") _ _ Hp _ _).
  - reflexivity.
  - vm_compute; reflexivity.
  - intros cell values Hin Hlabel.
    apply elem_of_cons in Hin as [[= -> ->] | Hin];
      [vm_compute in Hlabel; discriminate|].
    apply list_elem_of_singleton in Hin as [= -> ->]. reflexivity.
Defined.

(** C6, as stated, fails: against two periods the row ["A","1"] is shown
    with one value cell, and the row ["B","x","1","2"] with three; neither
    is padded or cut to the period count. *)
Lemma display_row_not_padded_to_period_count :
  exists p,
    _parse_csv PyFloat.float_of_str
               [[u "Label"; u "2021"; u "2022"];
                [u "A"; u "1"];
                [u "B"; u "x"; u "1"; u "2"]]
    = inr p
    /\ length (periods p) = 2%nat
    /\ rows p = [[u "A"; u "1"]; [u "B"; u "x"; u "1"; u "2"]]
    /\ ~ Forall (fun r => length (tail r) = length (periods p)) (rows p).
Proof.
  destruct (_parse_csv _ _) as [e|p] eqn:Hp; [vm_compute in Hp; discriminate|].
  exists p. split; [reflexivity|].
  vm_compute in Hp. injection Hp as <-.
  split; [reflexivity|]. split; [reflexivity|].
  intros Hall. inversion Hall as [|? ? Hlen _]. simpl in Hlen. lia.
Qed.

(** C6, amended. After a successful parse the table rows are the data rows
    in source order, each being the row's label followed by all of its
    value cells verbatim, so a row keeps the number of value cells the
    source row has; the period count is the header length minus one, and the
    numeric segment read from a row with at least that many value cells is
    the right end of its value cells. *)
Theorem display_rows_are_verbatim
    (to_float : str -> option float) (reader : list (list str))
    (p : Parsed) :
  _parse_csv to_float reader = inr p ->
  rows p = List.map display_row (data_rows_of reader)
  /\ length (periods p) = (length (headers p) - 1)%nat
  /\ forall i row,
       data_rows_of reader !! i = Some row ->
       exists cell values,
         row = cell :: values
         /\ rows p !! i = Some (label_of cell :: values)
         /\ ((length (periods p) <= length values)%nat ->
             exists descriptors,
               values
               = descriptors
                   ++ numeric_segment_of (length (periods p)) values).
Proof.
  intros Hp.
  apply parse_csv_inr in Hp
    as (header & _ & Hlen & Hh & Hper & Hrows & _ & _).
  assert (rows p = List.map display_row (data_rows_of reader)) as Heq.
  { rewrite Hrows, process_rows_table; [done|].
    apply Forall_forall. intros row Hin. by eapply data_rows_nonempty. }
  split; [done|]. split; [by rewrite Hh, Hper, length_drop|].
  intros i row Hi.
  assert (row <> []) as Hne.
  { eapply data_rows_nonempty, list_elem_of_lookup. eauto. }
  destruct row as [|cell values]; [done|].
  exists cell, values. split; [done|]. split.
  - rewrite Heq. change (List.map ?f ?l) with (f <$> l).
    by rewrite list_lookup_fmap, Hi.
  - intros Hle. exists (take (length values - length (periods p)) values).
    rewrite numeric_segment_long.
    + by rewrite take_drop.
    + rewrite Hper, length_drop in *. lia.
Qed.

Lemma display_rows_are_verbatim_witness :
  exists p,
    _parse_csv PyFloat.float_of_str
               [[u "Label"; u "2021"; u "2022"];
                [u " "; u "1"];
                [u "B"; u "x"; u "1"; u "2"]]
    = inr p
    /\ rows p = [[u "未設定"; u "1"]; [u "B"; u "x"; u "1"; u "2"]].
Proof.
  destruct (_parse_csv _ _) as [e|p] eqn:Hp; [vm_compute in Hp; discriminate|].
  exists p. split; [reflexivity|].
  destruct (display_rows_are_verbatim _ _ p Hp) as [-> _].
  vm_compute; reflexivity.
Defined.

(* ================================================================== *)
(** * Statements about [_build_dataset_options] *)
(* ================================================================== *)

(** C2, as stated, fails: for no datasets the highlight label returned is
    not the empty string. *)
Lemma empty_datasets_highlight_not_blank :
  snd (_build_dataset_options []) <> [].
Proof. vm_compute. discriminate. Qed.

(** C2, amended. For no datasets the options are empty and the highlight
    label is the default label "自己資産". *)
Theorem empty_datasets_keep_default_highlight :
  _build_dataset_options [] = ([], DEFAULT_HIGHLIGHT_LABEL)
  /\ DEFAULT_HIGHLIGHT_LABEL = u "自己資産".
Proof. split; reflexivity. Qed.

(* ================================================================== *)
(** * Statements about [_build_radar_chart] *)
(* ================================================================== *)

(** C9. With no periods the radar chart is empty in all three parts, and
    nothing is raised, whatever the lookup holds. *)
Theorem radar_of_no_periods_is_empty (d : gmap str series) :
  _build_radar_chart [] d = ret ([], [], []).
Proof. reflexivity. Qed.




(** C7, as stated, fails: multiplying the series [1.0, 3.0] by the positive
    constant [0.3] changes the normalized value of the first period from
    33.33333333333333 to 33.333333333333336, because the products are
    rounded. *)
Lemma radar_changed_by_rounded_scaling :
  let k := S754_finite false 5404319552844595 (-54) in
  let s := [Some (Float.of_Z 1); Some (Float.of_Z 3)] in
  let d : gmap str series := {[ u "P" := s ]} in
  let d' : gmap str series := <[ u "P" := scale_series k s ]> d in
  let periods := [u "2021"; u "2022"] in
  PyFloat.float_of_str (u "0.3") = Some k
  /\ Float.gtb k Float.zero = true
  /\ exists o n o' n',
       radar_cell (_build_radar_chart periods d) 0 0 = Some (o, n)
       /\ radar_cell (_build_radar_chart periods d') 0 0 = Some (o', n')
       /\ PyFloat.float_of_str (u "33.33333333333333") = Some n
       /\ PyFloat.float_of_str (u "33.333333333333336") = Some n'
       /\ n' <> n.
Proof.
  split; [vm_compute; reflexivity|]. split; [reflexivity|].
  eexists _, _, _, _.
  split; [vm_compute; reflexivity|]. split; [vm_compute; reflexivity|].
  split; [vm_compute; reflexivity|]. split; [vm_compute; reflexivity|].
  discriminate.
Qed.

(** C7, amended. For every periods list and lookup, and every axis whose
    resolved series is multiplied entrywise by a positive finite constant
    [k] (all other entries of the lookup unchanged), rerunning the radar
    chart multiplies that axis's originalData values by [k] in every
    dataset; and that axis's normalized values are unchanged whenever the
    products are in exact proportion to the entries: there are positive
    integers [p] and [q] such that, for every entry [x] of the series, [x]
    and the product [x * k] are finite, of the same sign, and
    [q * (x * k) = p * x] exactly. This is so when every product is exact
    ([p / q = k]: [k = 3.0] on [1.0, 3.0], a power of two without overflow
    or underflow), and also when the rounded products happen to stay in
    proportion ([k = 0.1] on [10.0, 20.0, 40.0], with [p / q = 1 / 10]). *)
Theorem radar_unchanged_by_exact_scaling
    (periods : list str) (d : gmap str series) (k : float)
    (axis_index : nat) (label : str) (keys : list str) (key : str)
    (s : series) :
  RADAR_ITEMS !! axis_index = Some (label, keys) ->
  resolve_key keys d = Some key ->
  d !! key = Some s ->
  Float.gtb k Float.zero = true ->
  Float.finite k = true ->
  let d' : gmap str series := <[key := scale_series k s]> d in
  exists labels radar_datasets axis_meta radar_datasets' axis_meta',
    _build_radar_chart periods d = ret (labels, radar_datasets, axis_meta)
    /\ _build_radar_chart periods d'
       = ret (labels, radar_datasets', axis_meta')
    /\ length radar_datasets' = length radar_datasets
    /\ forall period_index ds ds',
         radar_datasets !! period_index = Some ds ->
         radar_datasets' !! period_index = Some ds' ->
         rd_originalData ds' !! axis_index
         = (fun o => Float.mul o k) <$> rd_originalData ds !! axis_index
         /\ forall p q : positive,
              (forall x, Some x ∈ s ->
                 proportional p q x (Float.mul x k) = true) ->
              rd_data ds' !! axis_index = rd_data ds !! axis_index.
Proof.
  intros Hitem Hkey Hs Hpos Hfin d'.
  unfold _build_radar_chart.
  destruct periods as [|p0 periods].
  { eexists _, _, _, _, _. do 3 (split; [reflexivity|]).
    intros pi ds ds' Hds. by rewrite lookup_nil in Hds. }
  rewrite !radar_chart_of_spec by done.
  eexists _, _, _, _, _. do 2 (split; [reflexivity|]).
  split; [by rewrite !length_imap|].
  intros pi ds ds'. rewrite !list_lookup_imap.
  destruct ((p0 :: periods) !! pi) as [period|]; [|done].
  intros [= <-] [= <-].
  cbn [rd_data rd_originalData radar_dataset_of].
  change (List.map ?f ?l) with (f <$> l).
  rewrite !list_lookup_fmap, Hitem.
  cbn [fmap option_fmap option_map snd].
  pose proof (mul_zero_positive k Hpos Hfin) as Hzero.
  split.
  - f_equal. by apply original_at_scaled.
  - intros p q Hprop. f_equal. unfold d'.
    by apply (normalized_at_proportional d keys key s Hkey Hs k p q).
Qed.

Lemma radar_unchanged_by_exact_scaling_witness :
  let periods := [u "2021"; u "2022"; u "2023"] in
  let tenth := S754_finite false 7205759403792794 (-56) in
  let unchanged (k : float) (s : series) :=
    let d : gmap str series := {[ u "P" := s ]} in
    let d' : gmap str series := <[ u "P" := scale_series k s ]> d in
    exists labels radar_datasets axis_meta radar_datasets' axis_meta',
      _build_radar_chart periods d = ret (labels, radar_datasets, axis_meta)
      /\ _build_radar_chart periods d'
         = ret (labels, radar_datasets', axis_meta')
      /\ length radar_datasets' = length radar_datasets
      /\ forall period_index ds ds',
           radar_datasets !! period_index = Some ds ->
           radar_datasets' !! period_index = Some ds' ->
           rd_data ds' !! 0%nat = rd_data ds !! 0%nat in
  PyFloat.float_of_str (u "0.1") = Some tenth
  /\ unchanged (Float.of_Z 3)
       [Some (Float.of_Z 1); None; Some (Float.of_Z (-3))]
  /\ unchanged tenth
       [Some (Float.of_Z 10); Some (Float.of_Z 20); Some (Float.of_Z 40)].
Proof.
  intros periods tenth unchanged.
  split; [vm_compute; reflexivity|]. split.
  - destruct (radar_unchanged_by_exact_scaling
                periods {[ u "P" := [Some (Float.of_Z 1); None;
                                     Some (Float.of_Z (-3))] ]}
                (Float.of_Z 3) 0 (u "平均単価:P") [u "P"; u "平均単価"]
                (u "P") [Some (Float.of_Z 1); None; Some (Float.of_Z (-3))])
      as (ls & rds & meta & rds' & meta' & H1 & H2 & H3 & H4).
    + reflexivity.
    + vm_compute; reflexivity.
    + vm_compute; reflexivity.
    + reflexivity.
    + reflexivity.
    + exists ls, rds, meta, rds', meta'.
      split; [exact H1|]. split; [exact H2|]. split; [exact H3|].
      intros pi ds ds' Hds Hds'.
      destruct (H4 pi ds ds' Hds Hds') as [_ Hdata].
      apply (Hdata 3%positive 1%positive).
      intros x Hx.
      apply elem_of_cons in Hx as [[= ->] | Hx]; [vm_compute; reflexivity|].
      apply elem_of_cons in Hx as [[=] | Hx].
      apply list_elem_of_singleton in Hx as [= ->]. vm_compute; reflexivity.
  - destruct (radar_unchanged_by_exact_scaling
                periods {[ u "P" := [Some (Float.of_Z 10);
                                     Some (Float.of_Z 20);
                                     Some (Float.of_Z 40)] ]}
                tenth 0 (u "平均単価:P") [u "P"; u "平均単価"]
                (u "P") [Some (Float.of_Z 10); Some (Float.of_Z 20);
                         Some (Float.of_Z 40)])
      as (ls & rds & meta & rds' & meta' & H1 & H2 & H3 & H4).
    + reflexivity.
    + vm_compute; reflexivity.
    + vm_compute; reflexivity.
    + reflexivity.
    + reflexivity.
    + exists ls, rds, meta, rds', meta'.
      split; [exact H1|]. split; [exact H2|]. split; [exact H3|].
      intros pi ds ds' Hds Hds'.
      destruct (H4 pi ds ds' Hds Hds') as [_ Hdata].
      apply (Hdata 1%positive 10%positive).
      intros x Hx.
      apply elem_of_cons in Hx as [[= ->] | Hx]; [vm_compute; reflexivity|].
      apply elem_of_cons in Hx as [[= ->] | Hx]; [vm_compute; reflexivity|].
      apply list_elem_of_singleton in Hx as [= ->]. vm_compute; reflexivity.
Defined.

(* ================================================================== *)
(** * Outcomes of [_parse_csv] *)
(* ================================================================== *)

Section ParseOutcomes.

Variable to_float : str -> option float.

Lemma has_content_false_iff (row : list str) :
  has_content row = false <-> forall cell, cell ∈ row -> strip cell = [].
Proof.
  unfold has_content. split.
  - intros Hno cell Hin.
    destruct (strip cell) as [|c r] eqn:Hs; [done|].
    assert (existsb (fun cell => str_truthy (strip cell)) row = true)
      as Hex; [|congruence].
    apply existsb_exists. exists cell.
    split; [by apply list_elem_of_In | by rewrite Hs].
  - intros Hall. apply not_true_is_false. intros Hex.
    apply existsb_exists in Hex as (cell & Hin & Hc).
    apply list_elem_of_In in Hin. by rewrite (Hall cell Hin) in Hc.
Qed.

Lemma filter_has_content_nil (reader : list (list str)) :
  List.filter has_content reader = []
  <-> forall row cell, row ∈ reader -> cell ∈ row -> strip cell = [].
Proof.
  split.
  - intros Hnil row cell Hrow. revert cell. apply has_content_false_iff.
    destruct (has_content row) eqn:Hc; [|done].
    assert (In row (List.filter has_content reader)) as Hin.
    { apply filter_In. split; [by apply list_elem_of_In | done]. }
    by rewrite Hnil in Hin.
  - intros Hall. induction reader as [|row reader IH]; [done|]. simpl.
    rewrite (proj2 (has_content_false_iff row)).
    + apply IH. intros r c Hr. apply Hall. by right.
    + intros c. apply Hall. by left.
Qed.

(** The datasets after the row loop: those before it, then one per charted
    row, in source order. *)
Lemma process_rows_datasets_eq (n : nat) (data : list (list str))
    (st : LoopState) :
  chart_datasets (fold_left (process_row to_float n) data st)
  = chart_datasets st
      ++ List.map (dataset_of to_float n)
                  (List.filter (charted to_float n) data).
Proof.
  revert st. induction data as [|row data IH]; intros st.
  - simpl. by rewrite app_nil_r.
  - cbn [fold_left List.filter]. rewrite IH.
    destruct row as [|cell values]; [done|].
    rewrite process_row_unfold. cbn zeta. cbn [charted].
    destruct (has_number_of to_float n values); cbn [chart_datasets]; [|done].
    by rewrite <- app_assoc.
Qed.

(** What [_parse_csv] does once the header is known to be wide enough. *)
Lemma parse_csv_with_header (reader : list (list str)) (header : list str)
    (data : list (list str)) :
  List.filter has_content reader = header :: data ->
  (2 <= length header)%nat ->
  let n := (length header - 1)%nat in
  let st := fold_left (process_row to_float n) data initial_state in
  _parse_csv to_float reader
  = match List.filter (charted to_float n) data with
    | [] => raise NoNumericDataError
    | _ :: _ =>
        ret {| headers := header;
               rows := table_rows st;
               periods := drop 1 header;
               datasets := chart_datasets st;
               row_lookup := current_lookup st |}
    end.
Proof.
  intros Hrows Hlen n st. unfold _parse_csv. rewrite Hrows.
  destruct (Nat.ltb_spec (length header) 2); [lia|].
  replace (length (drop 1 header)) with n by (rewrite length_drop; done).
  fold st.
  pose proof (process_rows_datasets_eq n data initial_state) as Hds.
  fold st in Hds. cbn [chart_datasets initial_state app] in Hds.
  destruct (List.filter (charted to_float n) data) as [|r0 rs].
  - by rewrite Hds.
  - rewrite Hds. done.
Qed.

Lemma filter_charted_nil (n : nat) (data : list (list str)) :
  List.filter (charted to_float n) data = []
  <-> forall cell values,
        (cell :: values) ∈ data -> has_number_of to_float n values = false.
Proof.
  split.
  - intros Hnil cell values Hin.
    destruct (has_number_of to_float n values) eqn:Hnum; [|done].
    assert (In (cell :: values) (List.filter (charted to_float n) data))
      as Hf.
    { apply filter_In. split; [by apply list_elem_of_In | done]. }
    by rewrite Hnil in Hf.
  - intros Hall. induction data as [|row data IH]; [done|]. simpl.
    destruct row as [|cell values]; simpl.
    + apply IH. intros c v Hin. apply (Hall c). by right.
    + rewrite (Hall cell values) by left.
      apply IH. intros c v Hin. apply (Hall c). by right.
Qed.

End ParseOutcomes.

(** X1. Blank rows are ignored wherever they stand: a row whose cells are
    all empty or whitespace can be dropped from the input without changing
    what [_parse_csv] returns or raises. *)
Theorem blank_row_is_ignored
    (to_float : str -> option float) (before after : list (list str))
    (blank : list str) :
  (forall cell, cell ∈ blank -> strip cell = []) ->
  _parse_csv to_float (before ++ blank :: after)
  = _parse_csv to_float (before ++ after).
Proof.
  intros Hblank. apply has_content_false_iff in Hblank.
  unfold _parse_csv. rewrite !List.filter_app. cbn [List.filter].
  by rewrite Hblank.
Qed.

Lemma blank_row_is_ignored_witness :
  _parse_csv PyFloat.float_of_str
             ([[u "Label"; u "2021"]] ++ [u " "; []] :: [[u "Rev"; u "1"]])
  = _parse_csv PyFloat.float_of_str
               ([[u "Label"; u "2021"]] ++ [[u "Rev"; u "1"]]).
Proof.
  apply (blank_row_is_ignored PyFloat.float_of_str).
  intros cell Hin.
  apply elem_of_cons in Hin as [-> | Hin]; [reflexivity|].
  apply list_elem_of_singleton in Hin as ->. reflexivity.
Defined.

(** X2. [_parse_csv] raises [EmptyInputError] exactly when every cell of
    every row is empty or whitespace (in particular for no rows at all). *)
Theorem empty_input_error_iff
    (to_float : str -> option float) (reader : list (list str)) :
  _parse_csv to_float reader = raise EmptyInputError
  <-> forall row cell, row ∈ reader -> cell ∈ row -> strip cell = [].
Proof.
  rewrite <- filter_has_content_nil. unfold _parse_csv.
  destruct (List.filter has_content reader) as [|header data]; [done|].
  split; [|done].
  destruct (length header <? 2)%nat; [done|].
  by destruct (chart_datasets _).
Qed.

(** X3. [_parse_csv] raises [MalformedHeaderError] exactly when the first
    row that is not blank has a single cell. *)
Theorem malformed_header_error_iff
    (to_float : str -> option float) (reader : list (list str)) :
  _parse_csv to_float reader = raise MalformedHeaderError
  <-> exists cell data, List.filter has_content reader = [cell] :: data.
Proof.
  unfold _parse_csv.
  destruct (List.filter has_content reader) as [|header data] eqn:Hrows.
  { split; [done | by intros (? & ? & ?)]. }
  assert (has_content header = true) as Hc.
  { assert (In header (List.filter has_content reader)) as Hin
      by (rewrite Hrows; by left).
    apply filter_In in Hin. tauto. }
  destruct (Nat.ltb_spec (length header) 2) as [Hlt|Hge].
  - split; [|done]. intros _.
    destruct header as [|cell [|c2 r]]; [done | | simpl in Hlt; lia].
    by exists cell, data.
  - split.
    + by destruct (chart_datasets _).
    + intros (cell & data' & [= -> _]). simpl in Hge. lia.
Qed.

(** X4. [_parse_csv] raises [NoNumericDataError] exactly when the first
    non-blank row has at least two cells and no later non-blank row has a
    parseable number in its numeric segment. *)
Theorem no_numeric_data_error_iff
    (to_float : str -> option float) (reader : list (list str)) :
  _parse_csv to_float reader = raise NoNumericDataError
  <-> exists header data,
        List.filter has_content reader = header :: data
        /\ (2 <= length header)%nat
        /\ forall cell values,
             (cell :: values) ∈ data ->
             has_number_of to_float (length header - 1) values = false.
Proof.
  split.
  - intros Hraise.
    destruct (List.filter has_content reader) as [|header data] eqn:Hrows.
    { unfold _parse_csv in Hraise. by rewrite Hrows in Hraise. }
    destruct (Nat.ltb_spec (length header) 2) as [Hlt|Hge].
    { unfold _parse_csv in Hraise. rewrite Hrows in Hraise.
      destruct (Nat.ltb_spec (length header) 2); [done | lia]. }
    exists header, data. split; [done|]. split; [done|].
    apply filter_charted_nil.
    rewrite (parse_csv_with_header to_float reader header data Hrows Hge)
      in Hraise.
    by destruct (List.filter _ data).
  - intros (header & data & Hrows & Hlen & Hnone).
    rewrite (parse_csv_with_header to_float reader header data Hrows Hlen).
    apply filter_charted_nil in Hnone. by rewrite Hnone.
Qed.

(** X5. [_parse_csv] succeeds exactly when the first non-blank row has at
    least two cells and some later non-blank row has a parseable number in
    its numeric segment. *)
Theorem parse_succeeds_iff
    (to_float : str -> option float) (reader : list (list str)) :
  (exists p, _parse_csv to_float reader = inr p)
  <-> exists header data cell values,
        List.filter has_content reader = header :: data
        /\ (2 <= length header)%nat
        /\ (cell :: values) ∈ data
        /\ has_number_of to_float (length header - 1) values = true.
Proof.
  split.
  - intros (p & Hp).
    pose proof (parse_csv_inr to_float reader p Hp)
      as (header & Hrows & Hlen & _).
    exists header, (data_rows_of reader).
    rewrite (parse_csv_with_header to_float reader header _ Hrows Hlen)
      in Hp.
    destruct (List.filter _ (data_rows_of reader)) as [|r0 rs] eqn:Hf;
      [done|].
    assert (In r0 (List.filter (charted to_float (length header - 1))
                               (data_rows_of reader))) as Hin
      by (rewrite Hf; by left).
    apply filter_In in Hin as [Hin Hch].
    destruct r0 as [|cell values]; [done|].
    exists cell, values. repeat split; [done.. | | done].
    by apply list_elem_of_In.
  - intros (header & data & cell & values & Hrows & Hlen & Hin & Hnum).
    rewrite (parse_csv_with_header to_float reader header data Hrows Hlen).
    destruct (List.filter _ data) as [|r0 rs] eqn:Hf; [|by eexists].
    pose proof (proj1 (filter_charted_nil to_float _ data) Hf cell values Hin).
    congruence.
Qed.

(** X6. After a successful parse the chart datasets are exactly the data
    rows with a parseable number in their numeric segment, in source order
    and with repetitions, each with its label and its series; there is at
    least one, and never more than there are table rows. *)
Theorem datasets_are_charted_rows
    (to_float : str -> option float) (reader : list (list str))
    (p : Parsed) :
  _parse_csv to_float reader = inr p ->
  let n := length (periods p) in
  datasets p
  = List.map (dataset_of to_float n)
             (List.filter (charted to_float n) (data_rows_of reader))
  /\ (1 <= length (datasets p) <= length (rows p))%nat
  /\ length (rows p) = length (data_rows_of reader).
Proof.
  intros Hp n.
  pose proof (parse_csv_inr to_float reader p Hp)
    as (header & Hrows & Hlen & _ & Hper & Hr & Hds & _).
  assert (n = length (drop 1 header)) as Hn by (unfold n; by rewrite Hper).
  rewrite <- Hn in Hds, Hr.
  assert (datasets p
          = List.map (dataset_of to_float n)
              (List.filter (charted to_float n) (data_rows_of reader)))
    as Heq.
  { rewrite Hds, process_rows_datasets_eq. done. }
  assert (length (rows p) = length (data_rows_of reader)) as Hlenrows.
  { rewrite Hr, process_rows_table.
    - cbn [table_rows initial_state app]. apply length_map.
    - apply Forall_forall. intros row Hin. by eapply data_rows_nonempty. }
  split; [done|]. split; [|done].
  rewrite Hlenrows, Heq, length_map. split; [|apply List.filter_length_le].
  rewrite (parse_csv_with_header to_float reader header _ Hrows Hlen) in Hp.
  replace (length header - 1)%nat with n in Hp
    by (rewrite Hn, length_drop; done).
  destruct (List.filter _ (data_rows_of reader)); [done | simpl; lia].
Qed.

Lemma datasets_are_charted_rows_witness :
  exists p,
    _parse_csv PyFloat.float_of_str
               [[u "Label"; u "2021"]; [u "A"; u "1"]; [u "B"; u "x"];
                [u "A"; u "3"]]
    = inr p
    /\ List.map ds_label (datasets p) = [u "A"; u "A"]
    /\ length (rows p) = 3%nat.
Proof.
  destruct (_parse_csv _ _) as [e|p] eqn:Hp; [vm_compute in Hp; discriminate|].
  exists p. split; [reflexivity|].
  destruct (datasets_are_charted_rows _ _ p Hp) as (Hds & _ & Hlen).
  split; [|exact Hlen].
  rewrite Hds. vm_compute in Hp. injection Hp as <-. reflexivity.
Defined.

(* ================================================================== *)
(** * The lookup built by [_parse_csv] *)
(* ================================================================== *)

Lemma setdefault_lookup {V} (k key : str) (v : V) (d : gmap str V) :
  setdefault k v d !! key
  = if decide (k = key) then Some (default v (d !! key)) else d !! key.
Proof.
  unfold setdefault. destruct (decide (k = key)) as [->|Hne].
  - destruct (d !! key) as [s|] eqn:Hk; [by rewrite Hk|].
    by rewrite lookup_insert_eq.
  - destruct (d !! k); [done|]. by rewrite lookup_insert_ne.
Qed.

Lemma register_descriptor_lookup (nv : series) (d : gmap str series)
    (c key : str) :
  register_descriptor nv d c !! key
  = if decide (strip c = key /\ key <> [])
    then Some (default nv (d !! key)) else d !! key.
Proof.
  unfold register_descriptor.
  destruct (strip c) as [|c0 r] eqn:Hs; cbn [str_truthy].
  - case_decide as Hk; [|done]. by destruct Hk as [<- Hne].
  - rewrite setdefault_lookup.
    destruct (decide (c0 :: r = key)) as [<-|Hne].
    + case_decide as Hk; [done|]. by destruct Hk.
    + case_decide as Hk; [|done]. by destruct Hk.
Qed.

Lemma elem_of_descriptor_keys_cons (key c : str) (cells : list str) :
  key ∈ List.filter str_truthy (List.map strip (c :: cells))
  <-> (strip c = key /\ key <> [])
      \/ key ∈ List.filter str_truthy (List.map strip cells).
Proof.
  cbn [List.map List.filter].
  destruct (strip c) as [|c0 r] eqn:Hs; cbn [str_truthy].
  - split; [by right | intros [[<- ?]|]; done].
  - rewrite elem_of_cons. split.
    + intros [->|]; [left | by right]. done.
    + intros [[<- _]|]; [by left | by right].
Qed.

(** Descriptor registration is insert-if-absent on the descriptor keys and
    touches no other key. *)
Lemma register_descriptors_lookup (nv : series) (cells : list str)
    (d : gmap str series) (key : str) :
  fold_left (register_descriptor nv) cells d !! key
  = if decide (key ∈ List.filter str_truthy (List.map strip cells))
    then Some (default nv (d !! key)) else d !! key.
Proof.
  revert d. induction cells as [|c cells IH]; intros d.
  - done.
  - cbn [fold_left]. rewrite IH, register_descriptor_lookup.
    pose proof (elem_of_descriptor_keys_cons key c cells) as Hcons.
    destruct (decide (strip c = key /\ key <> [])) as [Hc|Hc];
      destruct (decide (key ∈ List.filter str_truthy (List.map strip cells)))
        as [Hr|Hr];
      destruct (decide (key ∈ List.filter str_truthy
                                 (List.map strip (c :: cells)))) as [Hk|Hk];
      try done; try (exfalso; tauto).
Qed.

Section LookupFacts.

Variable to_float : str -> option float.

(** The descriptors the code registers are the descriptor keys. *)
Lemma process_row_lookup (n : nat) (st : LoopState) (cell : str)
    (values : list str) :
  has_number_of to_float n values = true ->
  current_lookup (process_row to_float n st (cell :: values))
  = fold_left (register_descriptor (series_of to_float n values))
              (take (length values - n) values)
              (<[label_of cell := series_of to_float n values]>
                 (current_lookup st)).
Proof.
  intros Hnum. rewrite process_row_unfold. cbn zeta. rewrite Hnum.
  cbn [current_lookup].
  destruct (Z.ltb_spec 0 (Z.of_nat (length values) - Z.of_nat n)) as [Hlt|Hge].
  - f_equal. f_equal. lia.
  - replace (length values - n)%nat with 0%nat by lia. done.
Qed.

(** A key that is in the lookup stays in it. *)
Lemma process_row_keeps_key (n : nat) (st : LoopState) (row : list str)
    (key : str) :
  is_Some (current_lookup st !! key) ->
  is_Some (current_lookup (process_row to_float n st row) !! key).
Proof.
  intros Hin. destruct row as [|cell values]; [done|].
  destruct (has_number_of to_float n values) eqn:Hnum.
  - rewrite process_row_lookup by done.
    rewrite register_descriptors_lookup.
    case_decide; [by eexists|].
    destruct (decide (label_of cell = key)) as [->|Hne].
    + rewrite lookup_insert_eq. by eexists.
    + by rewrite lookup_insert_ne.
  - by rewrite (proj1 (process_row_no_number to_float n st cell values Hnum)).
Qed.

Lemma process_rows_keep_key (n : nat) (data : list (list str))
    (st : LoopState) (key : str) :
  is_Some (current_lookup st !! key) ->
  is_Some (current_lookup (fold_left (process_row to_float n) data st)
             !! key).
Proof.
  revert st. induction data as [|row data IH]; intros st Hin; [done|].
  simpl. by apply IH, process_row_keeps_key.
Qed.

Lemma process_rows_origin (n : nat) (data : list (list str))
    (st : LoopState) (key : str) (s : series) :
  current_lookup (fold_left (process_row to_float n) data st) !! key = Some s
  -> current_lookup st !! key = Some s
     \/ exists cell values,
          (cell :: values) ∈ data
          /\ has_number_of to_float n values = true
          /\ s = series_of to_float n values
          /\ (key = label_of cell \/ key ∈ descriptor_keys n values).
Proof.
  revert st. induction data as [|row data IH]; intros st Hs; [by left|].
  cbn [fold_left] in Hs.
  apply IH in Hs as [Hs | (cell & values & Hin & Hrest)].
  2:{ right. exists cell, values. split; [by right | done]. }
  destruct row as [|cell values]; [by left|].
  destruct (has_number_of to_float n values) eqn:Hnum.
  - rewrite process_row_lookup, register_descriptors_lookup in Hs by done.
    destruct (decide (label_of cell = key)) as [Heq|Hne].
    + right. exists cell, values. split; [left|]. split; [done|].
      split; [|by left].
      rewrite Heq, lookup_insert_eq in Hs.
      case_decide; simpl in Hs; congruence.
    + rewrite lookup_insert_ne in Hs by done.
      case_decide as Hk; [|by left].
      destruct (current_lookup st !! key) as [s0|] eqn:Hold;
        simpl in Hs; injection Hs as <-; [by left|].
      right. exists cell, values. split; [left|]. split; [done|].
      split; [done | by right].
  - rewrite (proj1 (process_row_no_number to_float n st cell values Hnum))
      in Hs. by left.
Qed.

End LookupFacts.

(** C8. A data row with at least one parseable cell in its numeric segment
    is charted and registered: the parse succeeds, its result has the
    row's dataset, and its lookup has the row's label as a key, and every
    descriptor key of the row; the label maps to the row's series unless a
    later row with a parseable number carries the same label (it does so
    in any case once the row is processed); and every blank or unparseable
    cell of the segment is [None] at its position of the series, nothing
    being raised. *)
Theorem row_with_number_is_charted
    (to_float : str -> option float) (reader : list (list str))
    (header : list str) (pre post : list (list str))
    (cell : str) (values : list str) :
  List.filter has_content reader = header :: pre ++ (cell :: values) :: post ->
  (2 <= length header)%nat ->
  has_number_of to_float (length header - 1) values = true ->
  let n := (length header - 1)%nat in
  let data := series_of to_float n values in
  (exists p,
     _parse_csv to_float reader = inr p
     /\ {| ds_label := label_of cell; ds_data := data |} ∈ datasets p
     /\ is_Some (row_lookup p !! label_of cell)
     /\ (forall key, key ∈ descriptor_keys n values ->
           is_Some (row_lookup p !! key))
     /\ ((forall cell' values', (cell' :: values') ∈ post ->
            label_of cell' = label_of cell ->
            has_number_of to_float n values' = false) ->
         row_lookup p !! label_of cell = Some data))
  /\ current_lookup (fold_left (process_row to_float n)
                       (pre ++ [cell :: values]) initial_state)
       !! label_of cell = Some data
  /\ length data = n
  /\ forall i c,
       numeric_segment_of n values !! i = Some c ->
       strip c = [] \/ to_float (strip c) = None ->
       data !! i = Some None.
Proof.
  intros Hrows Hlen Hnum n data.
  assert (length (drop 1 header) = n) as Hn.
  { rewrite length_drop. done. }
  fold n in Hnum.
  set (st := fold_left (process_row to_float n) pre initial_state).
  assert (current_lookup (process_row to_float n st (cell :: values))
          !! label_of cell = Some data) as Hlabel.
  { rewrite process_row_lookup by done.
    apply register_descriptors_keep, lookup_insert_eq. }
  assert ({| ds_label := label_of cell; ds_data := data |}
            ∈ chart_datasets
                (fold_left (process_row to_float n)
                           (pre ++ (cell :: values) :: post) initial_state))
    as Hin.
  { rewrite fold_left_app. cbn [fold_left].
    apply process_rows_datasets_grow.
    rewrite process_row_unfold. cbn zeta. rewrite Hnum.
    cbn [chart_datasets]. apply elem_of_app. right. by left. }
  repeat split.
  - unfold _parse_csv. rewrite Hrows.
    destruct (Nat.ltb_spec (length header) 2); [lia|].
    rewrite Hn.
    destruct (chart_datasets _) as [|d0 l] eqn:Hds.
    { by apply elem_of_nil in Hin. }
    eexists. split; [reflexivity|]. cbn [datasets row_lookup].
    split; [exact Hin|].
    rewrite fold_left_app. cbn [fold_left]. fold st.
    split; [|split].
    + apply process_rows_keep_key. by eexists.
    + intros key Hkey. apply process_rows_keep_key.
      rewrite process_row_lookup, register_descriptors_lookup by done.
      unfold descriptor_keys in Hkey. case_decide; [by eexists | done].
    + intros Hpost. by apply process_rows_keep.
  - rewrite fold_left_app. cbn [fold_left]. exact Hlabel.
  - apply series_of_length. lia.
  - intros i c Hc Hbad. unfold data, series_of.
    change (List.map ?f ?l) with (f <$> l).
    rewrite list_lookup_fmap, Hc. simpl. f_equal.
    unfold entry_of. destruct Hbad as [-> | Hnone]; [done|].
    rewrite Hnone. by destruct (str_eqb _ _).
Qed.

Lemma row_with_number_is_charted_witness :
  exists p,
    _parse_csv PyFloat.float_of_str
               [[u "Label"; u "2021"; u "2022"]; [u "X"; u "n/a"; u "50"];
                [u "Y"; u ""; u "x"]]
    = inr p
    /\ {| ds_label := u "X"; ds_data := [None; Some (Float.of_Z 50)] |}
         ∈ datasets p
    /\ row_lookup p !! u "X" = Some [None; Some (Float.of_Z 50)].
Proof.
  pose proof (row_with_number_is_charted PyFloat.float_of_str
                [[u "Label"; u "2021"; u "2022"]; [u "X"; u "n/a"; u "50"];
                 [u "Y"; u ""; u "x"]]
                [u "Label"; u "2021"; u "2022"] [] [[u "Y"; u ""; u "x"]]
                (u "X") [u "n/a"; u "50"]
                eq_refl ltac:(simpl; lia) eq_refl)
    as ((p & Hp & Hds & _ & _ & Hlast) & _).
  exists p. split; [exact Hp|]. split; [exact Hds|].
  apply Hlast. intros cell' values' Hin _.
  apply list_elem_of_singleton in Hin as [= -> ->]. reflexivity.
Defined.

(** X7. What a row with a parseable number does to the lookup, and nothing
    more: its label is set to the row's series whatever was there; each
    descriptor key (a stripped, non-empty cell in front of the numeric
    segment) other than the label keeps its series if it has one and gets
    the row's series otherwise; every other key is left as it was. *)
Theorem row_effect_on_lookup
    (to_float : str -> option float) (n : nat) (st : LoopState)
    (cell : str) (values : list str) :
  has_number_of to_float n values = true ->
  let d := current_lookup st in
  let d' := current_lookup (process_row to_float n st (cell :: values)) in
  let nv := series_of to_float n values in
  d' !! label_of cell = Some nv
  /\ (forall key, key ∈ descriptor_keys n values -> key <> label_of cell ->
        d' !! key = Some (default nv (d !! key)))
  /\ (forall key, key ∉ descriptor_keys n values -> key <> label_of cell ->
        d' !! key = d !! key).
Proof.
  intros Hnum d d' nv. unfold d'.
  rewrite process_row_lookup by done. fold nv d. unfold descriptor_keys.
  split; [|split].
  - apply register_descriptors_keep, lookup_insert_eq.
  - intros key Hin Hne. rewrite register_descriptors_lookup.
    case_decide; [|done]. by rewrite lookup_insert_ne.
  - intros key Hin Hne. rewrite register_descriptors_lookup.
    case_decide; [done|]. by rewrite lookup_insert_ne.
Qed.

Lemma row_effect_on_lookup_witness :
  let st := process_row PyFloat.float_of_str 2 initial_state
                        [u "Rev"; u "PQ"; u "1"; u "2"] in
  let d' := current_lookup
              (process_row PyFloat.float_of_str 2 st
                           [u "売上高"; u " PQ "; u "F"; u "100"; u "200"]) in
  d' !! u "売上高" = Some [Some (Float.of_Z 100); Some (Float.of_Z 200)]
  /\ d' !! u "PQ" = Some [Some (Float.of_Z 1); Some (Float.of_Z 2)]
  /\ d' !! u "F" = Some [Some (Float.of_Z 100); Some (Float.of_Z 200)]
  /\ d' !! u "Rev" = Some [Some (Float.of_Z 1); Some (Float.of_Z 2)].
Proof.
  intros st d'.
  destruct (row_effect_on_lookup PyFloat.float_of_str 2 st
              (u "売上高") [u " PQ "; u "F"; u "100"; u "200"] eq_refl)
    as (Hlabel & Hdesc & Hother).
  split; [exact Hlabel|]. split; [|split].
  - unfold d'. rewrite (Hdesc (u "PQ")); [reflexivity | | discriminate].
    vm_compute. left.
  - unfold d'. rewrite (Hdesc (u "F")); [reflexivity | | discriminate].
    vm_compute. right. left.
  - unfold d'. rewrite (Hother (u "Rev")); [reflexivity | | discriminate].
    vm_compute. intros Hin.
    apply elem_of_cons in Hin as [Heq | Hin]; [discriminate|].
    apply list_elem_of_singleton in Hin. discriminate.
Defined.

(** X8. After a successful parse every entry of the lookup is the series of
    a data row with a parseable number, filed under that row's label or
    under one of its descriptor keys, and has exactly one entry per
    period. *)
Theorem lookup_entries_come_from_charted_rows
    (to_float : str -> option float) (reader : list (list str))
    (p : Parsed) (key : str) (s : series) :
  _parse_csv to_float reader = inr p ->
  row_lookup p !! key = Some s ->
  length s = length (periods p)
  /\ exists cell values,
       (cell :: values) ∈ data_rows_of reader
       /\ has_number_of to_float (length (periods p)) values = true
       /\ s = series_of to_float (length (periods p)) values
       /\ (key = label_of cell
           \/ key ∈ descriptor_keys (length (periods p)) values).
Proof.
  intros Hp Hs.
  pose proof (parse_csv_inr to_float reader p Hp)
    as (header & _ & Hlen & _ & Hper & _ & _ & Hl).
  rewrite Hl, <- Hper in Hs.
  apply process_rows_origin in Hs as [Hs | (cell & values & H1 & H2 & H3 & H4)].
  { cbn [current_lookup initial_state] in Hs. by rewrite lookup_empty in Hs. }
  split.
  - rewrite H3. apply series_of_length. rewrite Hper, length_drop. lia.
  - by exists cell, values.
Qed.

Lemma lookup_entries_come_from_charted_rows_witness :
  exists p,
    _parse_csv PyFloat.float_of_str
               [[u "Label"; u "2021"; u "2022"];
                [u "売上高"; u "PQ"; u "100"; u "200"]]
    = inr p
    /\ row_lookup p !! u "PQ"
       = Some [Some (Float.of_Z 100); Some (Float.of_Z 200)]
    /\ length [Some (Float.of_Z 100); Some (Float.of_Z 200)]
       = length (periods p).
Proof.
  destruct (_parse_csv _ _) as [e|p] eqn:Hp; [vm_compute in Hp; discriminate|].
  exists p. split; [reflexivity|].
  assert (row_lookup p !! u "PQ"
          = Some [Some (Float.of_Z 100); Some (Float.of_Z 200)]) as Hs.
  { vm_compute in Hp. injection Hp as <-. vm_compute. reflexivity. }
  split; [exact Hs|].
  exact (proj1 (lookup_entries_come_from_charted_rows _ _ p _ _ Hp Hs)).
Defined.

(** X9. After a successful parse the label and every descriptor key of
    every data row with a parseable number are keys of the lookup. *)
Theorem charted_rows_are_registered
    (to_float : str -> option float) (reader : list (list str))
    (p : Parsed) (cell : str) (values : list str) (key : str) :
  _parse_csv to_float reader = inr p ->
  (cell :: values) ∈ data_rows_of reader ->
  has_number_of to_float (length (periods p)) values = true ->
  key = label_of cell \/ key ∈ descriptor_keys (length (periods p)) values ->
  is_Some (row_lookup p !! key).
Proof.
  intros Hp Hin Hnum Hkey.
  pose proof (parse_csv_inr to_float reader p Hp)
    as (header & _ & Hlen & _ & Hper & _ & _ & Hl).
  rewrite Hl, <- Hper.
  apply list_elem_of_In, in_split in Hin as (pre & post & ->).
  rewrite fold_left_app. cbn [fold_left].
  apply process_rows_keep_key.
  rewrite process_row_lookup, register_descriptors_lookup by done.
  destruct Hkey as [-> | Hk].
  - case_decide; [by eexists|]. rewrite lookup_insert_eq. by eexists.
  - unfold descriptor_keys in Hk. case_decide; [by eexists | done].
Qed.

Lemma charted_rows_are_registered_witness :
  exists p,
    _parse_csv PyFloat.float_of_str
               [[u "Label"; u "2021"; u "2022"];
                [u "売上高"; u "PQ"; u "100"; u "200"]]
    = inr p
    /\ is_Some (row_lookup p !! u "PQ").
Proof.
  destruct (_parse_csv _ _) as [e|p] eqn:Hp; [vm_compute in Hp; discriminate|].
  exists p. split; [reflexivity|].
  refine (charted_rows_are_registered PyFloat.float_of_str _ p
            (u "売上高") [u "PQ"; u "100"; u "200"] (u "PQ") Hp _ _ _).
  - vm_compute. left.
  - vm_compute in Hp. injection Hp as <-. reflexivity.
  - right. vm_compute in Hp. injection Hp as <-. vm_compute. left.
Defined.

(** X10. Primary labels are last-writer-wins: after a successful parse a
    label maps to the series of the last data row with a parseable number
    that carries it. *)
Theorem label_maps_to_last_row
    (to_float : str -> option float) (reader : list (list str))
    (header : list str) (pre post : list (list str)) (p : Parsed)
    (cell : str) (values : list str) :
  List.filter has_content reader = header :: pre ++ (cell :: values) :: post ->
  _parse_csv to_float reader = inr p ->
  has_number_of to_float (length header - 1) values = true ->
  (forall cell' values', (cell' :: values') ∈ post ->
     label_of cell' = label_of cell ->
     has_number_of to_float (length header - 1) values' = false) ->
  row_lookup p !! label_of cell
  = Some (series_of to_float (length header - 1) values).
Proof.
  intros Hrows Hp Hnum Hpost.
  pose proof (parse_csv_inr to_float reader p Hp)
    as (header' & Hrows' & _ & _ & _ & _ & _ & Hl).
  rewrite Hrows in Hrows'. injection Hrows' as <- Hdata.
  rewrite Hl, <- Hdata, length_drop, fold_left_app. cbn [fold_left].
  apply process_rows_keep; [|done].
  rewrite process_row_lookup by done.
  apply register_descriptors_keep, lookup_insert_eq.
Qed.

Lemma label_maps_to_last_row_witness :
  exists p,
    _parse_csv PyFloat.float_of_str
               [[u "Label"; u "2021"]; [u "A"; u "1"]; [u "A"; u "2"];
                [u "A"; u "x"]]
    = inr p
    /\ row_lookup p !! u "A" = Some [Some (Float.of_Z 2)].
Proof.
  destruct (_parse_csv _ _) as [e|p] eqn:Hp; [vm_compute in Hp; discriminate|].
  exists p. split; [reflexivity|].
  refine (label_maps_to_last_row PyFloat.float_of_str _
            [u "Label"; u "2021"] [[u "A"; u "1"]] [[u "A"; u "x"]] p
            (u "A") [u "2"] _ Hp _ _).
  - reflexivity.
  - reflexivity.
  - intros cell' values' Hin _.
    apply list_elem_of_singleton in Hin as [= -> ->]. reflexivity.
Defined.

(* ================================================================== *)
(** * [strip] and the labels *)
(* ================================================================== *)

Lemma lstrip_head (s : str) (c : N) (r : str) :
  lstrip s = c :: r -> py_isspace c = false.
Proof.
  induction s as [|a s IH]; [done|]. simpl.
  destruct (py_isspace a) eqn:Ha; [done|]. by intros [= <- _].
Qed.

Lemma lstrip_fixed (c : N) (r : str) :
  py_isspace c = false -> lstrip (c :: r) = c :: r.
Proof. simpl. by intros ->. Qed.

Lemma lstrip_keeps_last (l : str) (c : N) :
  py_isspace c = false -> exists l', lstrip (l ++ [c]) = l' ++ [c].
Proof.
  intros Hc. induction l as [|a l IH].
  - exists []. simpl. by rewrite Hc.
  - simpl. destruct (py_isspace a); [done|]. by exists (a :: l).
Qed.

Lemma rstrip_cases (s : str) :
  rstrip s = []
  \/ exists x c, rstrip s = x ++ [c] /\ py_isspace c = false.
Proof.
  unfold rstrip. destruct (lstrip (rev s)) as [|c r] eqn:Hl; [by left|].
  right. exists (rev r), c. split; [done|]. by eapply lstrip_head.
Qed.

Lemma rstrip_keeps_head (c : N) (r : str) :
  py_isspace c = false -> exists r', rstrip (c :: r) = c :: r'.
Proof.
  intros Hc. unfold rstrip. cbn [rev].
  destruct (lstrip_keeps_last (rev r) c Hc) as (l' & ->).
  exists (rev l'). by rewrite rev_app_distr.
Qed.

Lemma rstrip_fixed (x : str) (c : N) :
  py_isspace c = false -> rstrip (x ++ [c]) = x ++ [c].
Proof.
  intros Hc. unfold rstrip. rewrite rev_app_distr. cbn [rev app].
  rewrite lstrip_fixed by done.
  cbn [rev]. by rewrite rev_involutive.
Qed.

(** A stripped string is empty or has no blank at either end, so that
    stripping it again changes nothing. *)
Lemma strip_idempotent (s : str) : strip (strip s) = strip s.
Proof.
  unfold strip at 2 3.
  destruct (lstrip s) as [|c r] eqn:Hl; [done|].
  pose proof (lstrip_head s c r Hl) as Hc.
  destruct (rstrip_keeps_head c r Hc) as (r' & Hr).
  unfold strip. rewrite Hr, lstrip_fixed, <- Hr by done.
  destruct (rstrip_cases (c :: r)) as [-> | (x & c' & -> & Hc')]; [done|].
  by apply rstrip_fixed.
Qed.

(** A label is never empty and is already stripped. *)
Lemma label_of_stripped (cell : str) :
  label_of cell <> [] /\ strip (label_of cell) = label_of cell.
Proof.
  unfold label_of. destruct (strip cell) as [|c r] eqn:Hs; cbn [str_truthy].
  - split; [done | by vm_compute].
  - split; [done|]. rewrite <- Hs. apply strip_idempotent.
Qed.

Lemma descriptor_key_stripped (n : nat) (values : list str) (key : str) :
  key ∈ descriptor_keys n values -> key <> [] /\ strip key = key.
Proof.
  unfold descriptor_keys.
  intros Hin%list_elem_of_In. apply filter_In in Hin as [Hin Ht].
  apply in_map_iff in Hin as (c & <- & _).
  split; [by destruct (strip c) | apply strip_idempotent].
Qed.

(** X11. After a successful parse every label is non-empty and carries no
    blank at either end: the first cell of every table row, the label of
    every chart dataset, and every key of the lookup. *)
Theorem labels_are_stripped_and_non_empty
    (to_float : str -> option float) (reader : list (list str))
    (p : Parsed) :
  _parse_csv to_float reader = inr p ->
  (forall row, row ∈ rows p ->
     exists label values,
       row = label :: values /\ label <> [] /\ strip label = label)
  /\ (forall ds, ds ∈ datasets p ->
        ds_label ds <> [] /\ strip (ds_label ds) = ds_label ds)
  /\ (forall key, is_Some (row_lookup p !! key) ->
        key <> [] /\ strip key = key).
Proof.
  intros Hp.
  pose proof (parse_csv_inr to_float reader p Hp)
    as (header & _ & _ & _ & _ & Hr & Hds & Hl).
  split; [|split].
  - intros row Hin. rewrite Hr, process_rows_table in Hin.
    + cbn [table_rows initial_state app] in Hin.
      apply list_elem_of_In, in_map_iff in Hin as (src & <- & Hsrc).
      apply list_elem_of_In, data_rows_nonempty in Hsrc.
      destruct src as [|cell values]; [done|].
      exists (label_of cell), values. split; [done|].
      apply label_of_stripped.
    + apply Forall_forall. intros row' Hin'. by eapply data_rows_nonempty.
  - intros ds Hin. rewrite Hds in Hin.
    apply process_rows_datasets_origin
      in Hin as [Hin | (cell & values & _ & _ & ->)].
    + by apply elem_of_nil in Hin.
    + apply label_of_stripped.
  - intros key [s Hs]. rewrite Hl in Hs.
    apply process_rows_origin
      in Hs as [Hs | (cell & values & _ & _ & _ & [-> | Hk])].
    + cbn [current_lookup initial_state] in Hs. by rewrite lookup_empty in Hs.
    + apply label_of_stripped.
    + by eapply descriptor_key_stripped.
Qed.

Lemma labels_are_stripped_and_non_empty_witness :
  exists p,
    _parse_csv PyFloat.float_of_str
               [[u "Label"; u "2021"]; [u "  "; u " PQ "; u "1"]]
    = inr p
    /\ List.map ds_label (datasets p) = [u "未設定"]
    /\ forall key, is_Some (row_lookup p !! key) -> key <> [].
Proof.
  destruct (_parse_csv _ _) as [e|p] eqn:Hp; [vm_compute in Hp; discriminate|].
  exists p. split; [reflexivity|].
  destruct (labels_are_stripped_and_non_empty _ _ p Hp) as (_ & _ & Hkeys).
  split.
  - vm_compute in Hp. injection Hp as <-. reflexivity.
  - intros key Hk. exact (proj1 (Hkeys key Hk)).
Defined.

(* ================================================================== *)
(** * The options of [_build_dataset_options] *)
(* ================================================================== *)

Lemma existsb_str_eqb (x : str) (l : list str) :
  existsb (str_eqb x) l = true <-> x ∈ l.
Proof.
  rewrite existsb_exists. split.
  - intros (y & Hin & Heq). apply bool_decide_eq_true_1 in Heq as ->.
    by apply list_elem_of_In.
  - intros Hin. exists x. split; [by apply list_elem_of_In|].
    by apply bool_decide_eq_true_2.
Qed.

(** The highlight label, as the code picks it. *)
Lemma highlight_label_eq (datasets : list ChartDataset) :
  snd (_build_dataset_options datasets)
  = match List.map ds_label datasets with
    | first :: _ =>
        if decide (DEFAULT_HIGHLIGHT_LABEL ∈ List.map ds_label datasets)
        then DEFAULT_HIGHLIGHT_LABEL else first
    | [] => DEFAULT_HIGHLIGHT_LABEL
    end.
Proof.
  unfold _build_dataset_options. cbn [snd].
  destruct (List.map ds_label datasets) as [|first rest] eqn:Hl; [done|].
  pose proof (existsb_str_eqb DEFAULT_HIGHLIGHT_LABEL (first :: rest)) as Hex.
  destruct (existsb _ _); case_decide as Hin; cbn [negb]; try done.
  - exfalso. apply Hin. by apply Hex.
  - by apply Hex in Hin.
Qed.

Lemma options_eq (datasets : list ChartDataset) :
  fst (_build_dataset_options datasets)
  = List.map (fun label =>
                {| opt_label := label;
                   opt_checked :=
                     str_eqb label (snd (_build_dataset_options datasets)) |})
             (List.map ds_label datasets).
Proof. reflexivity. Qed.

Lemma checked_count (hl : str) (labels : list str) :
  length (checked_options
            (List.map (fun label => {| opt_label := label;
                                       opt_checked := str_eqb label hl |})
                      labels))
  = length (List.filter (fun label => str_eqb label hl) labels).
Proof.
  unfold checked_options.
  induction labels as [|l labels IH]; [done|]. cbn [List.map List.filter].
  cbn [opt_checked]. destruct (str_eqb l hl); simpl; by rewrite IH.
Qed.

Lemma filter_eq_count_ge (hl : str) (labels : list str) :
  hl ∈ labels ->
  (1 <= length (List.filter (fun label => str_eqb label hl) labels))%nat.
Proof.
  induction labels as [|l labels IH]; intros Hin.
  - by apply elem_of_nil in Hin.
  - cbn [List.filter]. unfold str_eqb at 1.
    case_bool_decide as Heq; [simpl; lia|].
    apply elem_of_cons in Hin as [->|Hin]; [done|]. by apply IH.
Qed.

Lemma filter_eq_count_nodup (hl : str) (labels : list str) :
  NoDup labels ->
  (length (List.filter (fun label => str_eqb label hl) labels) <= 1)%nat.
Proof.
  induction 1 as [|l labels Hnotin Hnd IH]; [simpl; lia|].
  cbn [List.filter]. unfold str_eqb at 1.
  case_bool_decide as Heq; [|done]. subst l. cbn [length].
  assert (List.filter (fun label => str_eqb label hl) labels = []) as ->;
    [|simpl; lia].
  clear IH Hnd. induction labels as [|a labels IH]; [done|].
  cbn [List.filter]. unfold str_eqb at 1.
  case_bool_decide as Ha.
  - subst a. exfalso. apply Hnotin. by left.
  - apply IH. intros Hin. apply Hnotin. by right.
Qed.

(** X12. The options mirror the datasets: one option per dataset, with the
    same labels in the same order, and an option is checked exactly when
    its label is the highlight label returned with them. *)
Theorem options_mirror_datasets (datasets : list ChartDataset) :
  let '(options, highlight_label) := _build_dataset_options datasets in
  List.map opt_label options = List.map ds_label datasets
  /\ forall o, o ∈ options ->
       (opt_checked o = true <-> opt_label o = highlight_label).
Proof.
  pose proof (options_eq datasets) as Hopt.
  destruct (_build_dataset_options datasets) as [options hl].
  cbn [fst snd] in Hopt. split.
  - rewrite Hopt, map_map. cbn [opt_label]. apply map_id.
  - intros o Hin. rewrite Hopt in Hin.
    apply list_elem_of_In, in_map_iff in Hin as (label & <- & _).
    cbn [opt_checked opt_label]. unfold str_eqb.
    split; [apply bool_decide_eq_true_1 | apply bool_decide_eq_true_2].
Qed.

Lemma options_mirror_datasets_witness :
  List.map opt_label
    (fst (_build_dataset_options
            [{| ds_label := u "A"; ds_data := [] |};
             {| ds_label := u "B"; ds_data := [Some Float.one] |}]))
  = [u "A"; u "B"].
Proof.
  pose proof (options_mirror_datasets
                [{| ds_label := u "A"; ds_data := [] |};
                 {| ds_label := u "B"; ds_data := [Some Float.one] |}])
    as Hmirror.
  destruct (_build_dataset_options _) as [options highlight_label].
  exact (proj1 Hmirror).
Defined.

(** X13. The highlight label is the default label "自己資産" when some
    dataset carries it, whatever its position; otherwise it is the label of
    the first dataset. With at least one dataset it is therefore always the
    label of a dataset. *)
Theorem highlight_label_rule (datasets : list ChartDataset) :
  let labels := List.map ds_label datasets in
  let highlight_label := snd (_build_dataset_options datasets) in
  (DEFAULT_HIGHLIGHT_LABEL ∈ labels ->
     highlight_label = DEFAULT_HIGHLIGHT_LABEL)
  /\ (DEFAULT_HIGHLIGHT_LABEL ∉ labels ->
      forall first rest, datasets = first :: rest ->
        highlight_label = ds_label first)
  /\ (datasets <> [] -> highlight_label ∈ labels).
Proof.
  intros labels hl. unfold hl. rewrite highlight_label_eq. fold labels.
  split; [|split].
  - intros Hin. destruct labels; [done|]. by case_decide.
  - intros Hnotin first rest ->. unfold labels. cbn [List.map].
    by case_decide.
  - intros Hne. destruct datasets as [|d0 rest]; [done|].
    unfold labels. cbn [List.map]. case_decide; [done | by left].
Qed.

Lemma highlight_label_rule_witness :
  snd (_build_dataset_options
         [{| ds_label := u "A"; ds_data := [] |};
          {| ds_label := u "自己資産"; ds_data := [] |};
          {| ds_label := u "B"; ds_data := [] |}])
  = DEFAULT_HIGHLIGHT_LABEL
  /\ snd (_build_dataset_options
            [{| ds_label := u "A"; ds_data := [] |};
             {| ds_label := u "B"; ds_data := [] |}])
     = u "A".
Proof.
  split.
  - apply (proj1 (highlight_label_rule _)). vm_compute. right. left.
  - refine (proj1 (proj2 (highlight_label_rule _)) _ _ _ eq_refl).
    vm_compute. intros Hin.
    apply elem_of_cons in Hin as [Heq | Hin]; [discriminate|].
    apply list_elem_of_singleton in Hin. discriminate.
Defined.

(** X14. With at least one dataset, at least one option is checked; when
    the dataset labels are pairwise distinct exactly one is. *)
Theorem one_option_is_checked (datasets : list ChartDataset) :
  datasets <> [] ->
  let options := fst (_build_dataset_options datasets) in
  (1 <= length (checked_options options))%nat
  /\ (NoDup (List.map ds_label datasets) ->
      length (checked_options options) = 1%nat).
Proof.
  intros Hne options. unfold options. rewrite options_eq, checked_count.
  assert (snd (_build_dataset_options datasets) ∈ List.map ds_label datasets)
    as Hin.
  { rewrite highlight_label_eq.
    destruct datasets as [|d0 rest]; [done|]. cbn [List.map].
    case_decide; [done | by left]. }
  pose proof (filter_eq_count_ge _ _ Hin) as Hge.
  split; [done|]. intros Hnd.
  pose proof (filter_eq_count_nodup
                (snd (_build_dataset_options datasets)) _ Hnd).
  lia.
Qed.

Lemma one_option_is_checked_witness :
  length (checked_options
            (fst (_build_dataset_options
                    [{| ds_label := u "A"; ds_data := [] |};
                     {| ds_label := u "B"; ds_data := [] |}])))
  = 1%nat.
Proof.
  refine (proj2 (one_option_is_checked _ _) _).
  - discriminate.
  - apply NoDup_cons. split.
    + intros Hin. apply list_elem_of_singleton in Hin. discriminate.
    + apply NoDup_singleton.
Defined.

(* ================================================================== *)
(** * The radar chart, cell by cell *)
(* ================================================================== *)

Lemma radar_chart_total (periods : list str) (d : gmap str series) :
  _build_radar_chart periods d
  = ret (match periods with
         | [] => ([], [], [])
         | _ :: _ =>
             (List.map fst RADAR_ITEMS,
              imap (radar_dataset_of RADAR_ITEMS d) periods,
              List.map (axis_meta_of d) RADAR_ITEMS)
         end).
Proof.
  unfold _build_radar_chart. destruct periods as [|p0 periods]; [done|].
  by rewrite radar_chart_of_spec.
Qed.

(** The two values of a cell of the radar chart. *)
Lemma radar_cell_eq (periods : list str) (d : gmap str series)
    (period_index axis_index : nat) (period label : str)
    (keys : list str) :
  periods !! period_index = Some period ->
  RADAR_ITEMS !! axis_index = Some (label, keys) ->
  radar_cell (_build_radar_chart periods d) period_index axis_index
  = Some (original_at d period_index keys,
          normalized_at d period_index keys)
  /\ radar_max (_build_radar_chart periods d) axis_index
     = Some (axis_max d keys).
Proof.
  intros Hp Hitem. rewrite radar_chart_total.
  destruct periods as [|p0 periods]; [done|].
  unfold radar_cell, radar_max, ret.
  rewrite list_lookup_imap, Hp. cbn [fmap option_fmap option_map mbind
                                     option_bind].
  cbn [rd_originalData rd_data radar_dataset_of].
  change (List.map ?f ?l) with (f <$> l).
  rewrite !list_lookup_fmap, Hitem. done.
Qed.

Lemma value_at_entry (s : series) (period_index : nat) :
  value_at (Some s) period_index = entry_or_zero s period_index.
Proof.
  unfold value_at, entry_or_zero. destruct s as [|e0 s]; [done|].
  destruct (Nat.ltb_spec period_index (length (e0 :: s))) as [Hlt|Hge];
    [done|].
  by rewrite (lookup_ge_None_2 (e0 :: s) period_index).
Qed.

Lemma resolve_series_first (pre post : list str) (key : str)
    (d : gmap str series) (s : series) :
  (forall k, k ∈ pre -> d !! k = None) ->
  d !! key = Some s ->
  resolve_series (pre ++ key :: post) d = Some s.
Proof.
  intros Hpre Hs. induction pre as [|k pre IH]; simpl.
  - by rewrite Hs.
  - rewrite (Hpre k) by left. apply IH. intros k' Hin. apply Hpre. by right.
Qed.

Lemma resolve_series_none (keys : list str) (d : gmap str series) :
  (forall k, k ∈ keys -> d !! k = None) -> resolve_series keys d = None.
Proof.
  intros Hnone. induction keys as [|k keys IH]; [done|]. simpl.
  rewrite (Hnone k) by left. apply IH. intros k' Hin. apply Hnone. by right.
Qed.

Lemma resolve_series_ext (keys : list str) (d1 d2 : gmap str series) :
  (forall k, k ∈ keys -> d1 !! k = d2 !! k) ->
  resolve_series keys d1 = resolve_series keys d2.
Proof.
  intros Hext. induction keys as [|k keys IH]; [done|]. simpl.
  rewrite (Hext k) by left. destruct (d2 !! k); [done|].
  apply IH. intros k' Hin. apply Hext. by right.
Qed.

(** X15. [_build_radar_chart] never raises, whatever the periods and the
    lookup hold (not-a-number and infinite entries, empty or short series):
    it returns one dataset per period, labelled with the periods in order,
    each with 7 normalized and 7 original values; with at least one period
    the axis labels and the axis metadata are the 7 canonical axes in
    order; and no [max_value] is zero. *)
Theorem radar_chart_shape (periods : list str) (d : gmap str series) :
  exists axis_labels radar_datasets axis_meta,
    _build_radar_chart periods d
    = ret (axis_labels, radar_datasets, axis_meta)
    /\ List.map rd_label radar_datasets = periods
    /\ (forall ds, ds ∈ radar_datasets ->
          length (rd_data ds) = 7%nat
          /\ length (rd_originalData ds) = 7%nat)
    /\ (periods <> [] ->
        axis_labels = List.map fst RADAR_ITEMS
        /\ List.map am_label axis_meta = axis_labels
        /\ length axis_labels = 7%nat)
    /\ (forall am, am ∈ axis_meta ->
          Float.truthy (am_max_value am) = true).
Proof.
  rewrite radar_chart_total.
  destruct periods as [|p0 periods].
  { exists [], [], []. split; [done|]. split; [done|].
    split; [intros ds Hds; by apply elem_of_nil in Hds|].
    split; [done|]. intros am Ham. by apply elem_of_nil in Ham. }
  eexists _, _, _. split; [reflexivity|].
  repeat split.
  - change (List.map ?f ?l) with (f <$> l). apply list_eq. intros i.
    rewrite list_lookup_fmap, list_lookup_imap.
    by destruct ((p0 :: periods) !! i).
  - apply list_elem_of_lookup in H as [i Hi].
    rewrite list_lookup_imap in Hi.
    destruct ((p0 :: periods) !! i); [|done]. by injection Hi as <-.
  - apply list_elem_of_lookup in H as [i Hi].
    rewrite list_lookup_imap in Hi.
    destruct ((p0 :: periods) !! i); [|done]. by injection Hi as <-.
  - intros am Hin.
    apply list_elem_of_In, in_map_iff in Hin as (item & <- & _).
    apply floor_to_one_truthy.
Qed.

(** X16. An axis reads the first of its aliases that is a key of the
    lookup, whatever later aliases hold: its original value at a period is
    the entry of that series at the period, [0.0] when the entry is [None]
    or the series is shorter; and when the entries of the series are
    finite its scale is the greatest magnitude of the series under the
    same reading: it bounds every magnitude and is one of them, unless
    they are all zero, in which case it is [1.0]. *)
Theorem axis_reads_first_alias_present
    (periods : list str) (d : gmap str series)
    (period_index axis_index : nat) (period label key : str)
    (pre post : list str) (s : series) :
  periods !! period_index = Some period ->
  RADAR_ITEMS !! axis_index = Some (label, pre ++ key :: post) ->
  (forall k, k ∈ pre -> d !! k = None) ->
  d !! key = Some s ->
  let r := _build_radar_chart periods d in
  (exists n, radar_cell r period_index axis_index
             = Some (entry_or_zero s period_index, n))
  /\ ((forall x, Some x ∈ s -> Float.finite x = true) ->
      exists max_value,
        radar_max r axis_index = Some max_value
        /\ (forall i, Float.leb (Float.abs (entry_or_zero s i)) max_value
                      = true)
        /\ ((exists i,
               (i < length s)%nat
               /\ max_value = Float.abs (entry_or_zero s i)
               /\ Float.truthy max_value = true)
            \/ (max_value = Float.one
                /\ forall i, Float.abs (entry_or_zero s i) = Float.zero))).
Proof.
  intros Hp Hitem Hpre Hs r.
  destruct (radar_cell_eq periods d period_index axis_index period label
              _ Hp Hitem) as [Hcell Hmax].
  pose proof (resolve_series_first pre post key d s Hpre Hs) as Hres.
  split.
  { eexists. unfold r. rewrite Hcell. f_equal. f_equal.
    unfold original_at. rewrite Hres. apply value_at_entry. }
  intros Hfin. eexists. split; [exact Hmax|].
  unfold axis_max. rewrite resolve_values_series, Hres.
  set (mags := List.map Float.abs (List.map float_or_zero s)).
  assert (forall i, entry_or_zero s i = Float.zero
                    \/ ((i < length s)%nat
                        /\ Float.abs (entry_or_zero s i) ∈ mags)) as Hentry.
  { intros i. unfold entry_or_zero.
    destruct (s !! i) as [[x|]|] eqn:Hi; [|by left..]. right.
    split; [by eapply lookup_lt_Some|].
    apply list_elem_of_In, in_map, in_map_iff. exists (Some x).
    split; [done|]. apply list_elem_of_In, list_elem_of_lookup. eauto. }
  assert (Forall (fun x => nonneg_finite x = true) mags) as Hall.
  { apply Forall_forall. intros x Hx.
    apply list_elem_of_In, in_map_iff in Hx as (v & <- & Hv).
    apply in_map_iff in Hv as (o & <- & Ho).
    apply abs_nonneg_finite. destruct o as [y|]; [|done].
    by apply Hfin, list_elem_of_In. }
  destruct (py_max_spec mags Hall) as (Hr & Hle & Hin).
  unfold floor_to_one.
  destruct (py_max mags Float.zero) as [[|] | | | [|] my ey] eqn:Hm;
    try done; cbn [Float.truthy].
  - (* every magnitude is zero *)
    assert (forall i, Float.abs (entry_or_zero s i) = Float.zero) as Hz.
    { intros i. destruct (Hentry i) as [-> | [_ Hi]]; [done|].
      assert (nonneg_finite (Float.abs (entry_or_zero s i)) = true) as Hnf.
      { rewrite Forall_forall in Hall. by apply Hall. }
      specialize (Hle _ Hi). apply SFleb_ordkey in Hle; [|done..].
      by apply ordkey_zero in Hle. }
    split; [|by right]. intros i. by rewrite Hz.
  - split.
    + intros i. destruct (Hentry i) as [-> | [_ Hi]]; [done | by apply Hle].
    + left. destruct Hin as [Hin | [_ ?]]; [|done].
      apply list_elem_of_In, in_map_iff in Hin as (v & Hv & Hin).
      apply in_map_iff in Hin as (o & <- & Ho).
      apply list_elem_of_In, list_elem_of_lookup in Ho as [i Hi].
      exists i. split; [by eapply lookup_lt_Some|]. split; [|done].
      rewrite <- Hv. unfold entry_or_zero. rewrite Hi. by destruct o.
Qed.

Lemma axis_reads_first_alias_present_witness :
  let d : gmap str series :=
    {[ u "売上高" := [Some (Float.of_Z 5)];
       u "PQ" := [None; Some (Float.of_Z (-4)); Some (Float.of_Z 3)] ]} in
  let r := _build_radar_chart [u "2021"; u "2022"; u "2023"] d in
  (exists n, radar_cell r 1 3 = Some (Float.of_Z (-4), n))
  /\ exists max_value,
       radar_max r 3 = Some max_value
       /\ Float.leb (Float.of_Z 4) max_value = true
       /\ Float.leb (Float.of_Z 3) max_value = true.
Proof.
  intros d r.
  destruct (axis_reads_first_alias_present
              [u "2021"; u "2022"; u "2023"] d 1 3 (u "2022") (u "売上高:PQ")
              (u "PQ") [] [u "売上高"]
              [None; Some (Float.of_Z (-4)); Some (Float.of_Z 3)]
              eq_refl eq_refl
              (fun k Hk => False_ind _ (proj1 (elem_of_nil k) Hk))
              eq_refl) as [Hcell Hscale].
  split; [exact Hcell|].
  destruct Hscale as (max_value & Hmax & Hbound & _).
  - intros x Hx.
    apply elem_of_cons in Hx as [[=] | Hx].
    apply elem_of_cons in Hx as [[= ->] | Hx]; [reflexivity|].
    apply list_elem_of_singleton in Hx as [= ->]. reflexivity.
  - exists max_value. split; [exact Hmax|].
    split; [exact (Hbound 1%nat) | exact (Hbound 2%nat)].
Defined.

(** X17. An axis none of whose aliases is a key of the lookup is flat: its
    original and normalized values are [0.0] at every period and its scale
    is [1.0]. *)
Theorem unresolved_axis_is_flat
    (periods : list str) (d : gmap str series)
    (period_index axis_index : nat) (period label : str)
    (keys : list str) :
  periods !! period_index = Some period ->
  RADAR_ITEMS !! axis_index = Some (label, keys) ->
  (forall k, k ∈ keys -> d !! k = None) ->
  let r := _build_radar_chart periods d in
  radar_cell r period_index axis_index = Some (Float.zero, Float.zero)
  /\ radar_max r axis_index = Some Float.one.
Proof.
  intros Hp Hitem Hnone r.
  destruct (radar_cell_eq periods d period_index axis_index period label
              _ Hp Hitem) as [Hcell Hmax].
  pose proof (resolve_series_none keys d Hnone) as Hres.
  unfold r. rewrite Hcell, Hmax.
  unfold normalized_at, original_at, axis_max.
  rewrite resolve_values_series, Hres. split; reflexivity.
Qed.

Lemma unresolved_axis_is_flat_witness :
  let r := _build_radar_chart [u "2021"]
             {[ u "Rev" := [Some (Float.of_Z 5)] ]} in
  radar_cell r 0 6 = Some (Float.zero, Float.zero)
  /\ radar_max r 6 = Some Float.one.
Proof.
  intros r.
  refine (unresolved_axis_is_flat [u "2021"] _ 0 6 (u "2021") (u "自己資本")
            [u "自己資本"] eq_refl eq_refl _).
  intros k Hk. apply list_elem_of_singleton in Hk as ->. reflexivity.
Defined.

(** X18. The radar chart depends on the lookup through the alias keys of
    the canonical axes only: two lookups that agree on every alias give
    the same chart. *)
Theorem radar_chart_reads_aliases_only
    (periods : list str) (d1 d2 : gmap str series) :
  (forall label keys k,
     (label, keys) ∈ RADAR_ITEMS -> k ∈ keys -> d1 !! k = d2 !! k) ->
  _build_radar_chart periods d1 = _build_radar_chart periods d2.
Proof.
  intros Hagree. rewrite !radar_chart_total.
  destruct periods as [|p0 periods]; [done|].
  assert (forall item, In item RADAR_ITEMS ->
            resolve_series (snd item) d1 = resolve_series (snd item) d2)
    as Hres.
  { intros [label keys] Hin. apply resolve_series_ext.
    intros k Hk. eapply Hagree; [|done]. by apply list_elem_of_In. }
  assert (forall item, In item RADAR_ITEMS ->
            axis_meta_of d1 item = axis_meta_of d2 item) as Hmeta.
  { intros item Hin. unfold axis_meta_of, axis_max.
    by rewrite !resolve_values_series, (Hres item Hin). }
  f_equal. f_equal; [f_equal|].
  - apply imap_ext. intros i period _. unfold radar_dataset_of. f_equal.
    + apply map_ext_in. intros item Hin.
      unfold normalized_at, original_at, axis_max.
      by rewrite !resolve_values_series, (Hres item Hin).
    + apply map_ext_in. intros item Hin.
      unfold original_at. by rewrite (Hres item Hin).
  - by apply map_ext_in.
Qed.

Lemma radar_chart_reads_aliases_only_witness :
  _build_radar_chart [u "2021"]
    (<[ u "Rev" := [Some (Float.of_Z 9)] ]>
       {[ u "P" := [Some (Float.of_Z 5)] ]})
  = _build_radar_chart [u "2021"] {[ u "P" := [Some (Float.of_Z 5)] ]}.
Proof.
  apply radar_chart_reads_aliases_only.
  intros label keys k Hin Hk. apply lookup_insert_ne. intros <-.
  assert (u "Rev" ∈ concat (List.map snd RADAR_ITEMS)) as Hbad.
  { apply list_elem_of_In, in_concat. exists keys.
    split; [|by apply list_elem_of_In].
    apply in_map_iff. exists (label, keys).
    split; [done | by apply list_elem_of_In]. }
  assert (bool_decide (u "Rev" ∈ concat (List.map snd RADAR_ITEMS)) = false)
    as Hf by (vm_compute; reflexivity).
  by apply bool_decide_eq_false_1 in Hf.
Defined.

(** X19. At a period whose original value is a non-zero finite number with
    the magnitude of the axis scale, the normalized value is exactly
    [100.0] or [-100.0], with the sign of the original. *)
Theorem peak_is_normalized_to_hundred
    (periods : list str) (d : gmap str series)
    (period_index axis_index : nat) (period label : str) (keys : list str)
    (sign : bool) (m : positive) (e : Z) (n : float) :
  periods !! period_index = Some period ->
  RADAR_ITEMS !! axis_index = Some (label, keys) ->
  let r := _build_radar_chart periods d in
  radar_cell r period_index axis_index = Some (S754_finite sign m e, n) ->
  radar_max r axis_index = Some (S754_finite false m e) ->
  n = (if sign then Float.of_Z (-100) else Float.of_Z 100).
Proof.
  intros Hp Hitem r.
  destruct (radar_cell_eq periods d period_index axis_index period label
              _ Hp Hitem) as [Hcell Hmax].
  unfold r. rewrite Hcell, Hmax. intros [= Ho <-] [= Hm].
  unfold normalized_at. rewrite Ho, Hm, SFdiv_same.
  by destruct sign; vm_compute.
Qed.

Lemma peak_is_normalized_to_hundred_witness :
  let r := _build_radar_chart [u "2021"; u "2022"]
             {[ u "G" := [Some (Float.of_Z 3); Some (Float.of_Z (-7))] ]} in
  exists n,
    radar_cell r 1 5 = Some (Float.of_Z (-7), n)
    /\ n = Float.of_Z (-100).
Proof.
  intros r.
  destruct (radar_cell r 1 5) as [[o n]|] eqn:Hcell;
    [|vm_compute in Hcell; discriminate].
  assert (o = S754_finite true 7881299347898368 (-50)) as ->
    by (vm_compute in Hcell; congruence).
  exists n. split; [reflexivity|].
  refine (peak_is_normalized_to_hundred
            [u "2021"; u "2022"] _ 1 5 (u "2022") (u "経常利益:G")
            [u "G"; u "経常利益"] true 7881299347898368 (-50) n
            eq_refl eq_refl Hcell _).
  vm_compute. reflexivity.
Defined.

(* ================================================================== *)
(** * The functions in sequence *)
(* ================================================================== *)

Lemma parsed_series_length (to_float : str -> option float)
    (reader : list (list str)) (p : Parsed) (key : str) (s : series) :
  _parse_csv to_float reader = inr p ->
  row_lookup p !! key = Some s ->
  length s = length (periods p).
Proof.
  intros Hp Hs.
  pose proof (parse_csv_inr to_float reader p Hp)
    as (header & _ & Hlen & _ & Hper & _ & _ & Hl).
  rewrite Hl in Hs.
  apply process_rows_origin in Hs as [Hs | (cell & values & _ & _ & -> & _)].
  - cbn [current_lookup initial_state] in Hs. by rewrite lookup_empty in Hs.
  - rewrite Hper. apply series_of_length. rewrite length_drop. lia.
Qed.

(** A successful parse has a chart dataset. *)
Lemma parsed_datasets_nonempty (to_float : str -> option float)
    (reader : list (list str)) (p : Parsed) :
  _parse_csv to_float reader = inr p -> datasets p <> [].
Proof.
  unfold _parse_csv.
  destruct (List.filter has_content reader) as [|header rest]; [done|].
  destruct (length header <? 2)%nat; [done|].
  destruct (chart_datasets _) eqn:Hds; [done|].
  intros [= <-]. done.
Qed.

(** The errors [_parse_csv] can raise. *)
Lemma parse_csv_errors (to_float : str -> option float)
    (reader : list (list str)) (e : exn) :
  _parse_csv to_float reader = inl e ->
  e = EmptyInputError \/ e = MalformedHeaderError \/ e = NoNumericDataError.
Proof.
  unfold _parse_csv.
  destruct (List.filter has_content reader) as [|header data].
  { intros [= <-]. by left. }
  destruct (length header <? 2)%nat.
  { intros [= <-]. right. by left. }
  destruct (chart_datasets _); [|done].
  intros [= <-]. right. by right.
Qed.

(** X20. On the output of a successful parse the radar chart never reads
    past the end of a series: for an axis resolved to a lookup entry, the
    original value at each period is the entry's own value at that period,
    [0.0] standing for [None] only. *)
Theorem radar_of_parsed_reads_every_period
    (to_float : str -> option float) (reader : list (list str))
    (p : Parsed) (period_index axis_index : nat) (period label key : str)
    (pre post : list str) (s : series) :
  _parse_csv to_float reader = inr p ->
  periods p !! period_index = Some period ->
  RADAR_ITEMS !! axis_index = Some (label, pre ++ key :: post) ->
  (forall k, k ∈ pre -> row_lookup p !! k = None) ->
  row_lookup p !! key = Some s ->
  exists entry n,
    s !! period_index = Some entry
    /\ radar_cell (_build_radar_chart (periods p) (row_lookup p))
                  period_index axis_index
       = Some (float_or_zero entry, n).
Proof.
  intros Hp Hper Hitem Hpre Hs.
  pose proof (parsed_series_length to_float reader p key s Hp Hs) as Hlen.
  destruct (lookup_lt_is_Some_2 s period_index) as [entry Hentry].
  { rewrite Hlen. by eapply lookup_lt_Some. }
  destruct (radar_cell_eq (periods p) (row_lookup p) period_index axis_index
              period label _ Hper Hitem) as [Hcell _].
  exists entry. eexists. split; [done|]. rewrite Hcell. f_equal. f_equal.
  unfold original_at.
  rewrite (resolve_series_first pre post key _ s Hpre Hs), value_at_entry.
  unfold entry_or_zero. rewrite Hentry. by destruct entry.
Qed.

Lemma radar_of_parsed_reads_every_period_witness :
  exists p entry n,
    _parse_csv PyFloat.float_of_str
               [[u "Label"; u "2021"; u "2022"]; [u "F"; u "7"]]
    = inr p
    /\ radar_cell (_build_radar_chart (periods p) (row_lookup p)) 1 4
       = Some (float_or_zero entry, n).
Proof.
  destruct (_parse_csv _ _) as [e|p] eqn:Hp; [vm_compute in Hp; discriminate|].
  destruct (radar_of_parsed_reads_every_period
              PyFloat.float_of_str _ p 1 4 (u "2022") (u "固定費:F") (u "F")
              [] [u "固定費"] [Some (Float.of_Z 7); None] Hp)
    as (entry & n & _ & Hcell).
  - vm_compute in Hp. injection Hp as <-. reflexivity.
  - reflexivity.
  - intros k Hk. by apply elem_of_nil in Hk.
  - vm_compute in Hp. injection Hp as <-. vm_compute. reflexivity.
  - exists p, entry, n. split; [reflexivity | exact Hcell].
Defined.

(* ================================================================== *)
(** * The view *)
(* ================================================================== *)

Section ViewFacts.

Variable File : Type.
Variable read_rows : File -> M (list (list str)).
Variable to_float : str -> option float.
Variable JSON : Type.
Variable dumps : pyobj -> JSON.

Let parse_file := Dashboard.parse_file File read_rows to_float.
Let try_body := Dashboard.try_body File read_rows to_float JSON dumps.
Let initial_context := Dashboard.initial_context JSON dumps.

(** Reading and parsing succeed together. *)
Lemma parse_file_inr (file : File) (p : Parsed) :
  parse_file file = inr p
  <-> exists reader,
        read_rows file = inr reader /\ _parse_csv to_float reader = inr p.
Proof.
  unfold parse_file, Dashboard.parse_file.
  destruct (read_rows file) as [e|reader]; cbn [bind].
  - split; [done | by intros (? & ? & ?)].
  - split; [by exists reader | by intros (? & [= <-] & ?)].
Qed.

(** The exceptions of reading and parsing: those of the reader, and the
    three [ValueError]s of the parse. *)
Lemma parse_file_inl (file : File) (e : exn) :
  parse_file file = inl e ->
  read_rows file = inl e
  \/ e = EmptyInputError \/ e = MalformedHeaderError
  \/ e = NoNumericDataError.
Proof.
  unfold parse_file, Dashboard.parse_file.
  destruct (read_rows file) as [e'|reader]; cbn [bind].
  - intros [= <-]. by left.
  - intros He. right. by eapply parse_csv_errors.
Qed.

(** The body of the [try] fails exactly as reading and parsing do, and
    otherwise returns. *)
Lemma try_body_cases (file : File) :
  match parse_file file with
  | inl e => try_body initial_context file = inl e
  | inr p =>
      exists ctx,
        try_body initial_context file = inr ctx
        /\ Dashboard.error JSON ctx = []
        /\ Dashboard.table_headers JSON ctx = headers p
        /\ Dashboard.table_rows JSON ctx = rows p
        /\ Dashboard.dataset_options JSON ctx
           = fst (_build_dataset_options (datasets p))
        /\ Dashboard.default_highlight_label JSON ctx
           = snd (_build_dataset_options (datasets p))
        /\ Dashboard.radar_axis_info JSON ctx
           = List.map (axis_meta_of (row_lookup p)) RADAR_ITEMS
  end.
Proof.
  unfold try_body, Dashboard.try_body. fold parse_file.
  destruct (parse_file file) as [e|p] eqn:Hp; [done|].
  cbn [bind].
  destruct (_build_dataset_options (datasets p)) as [options hl].
  rewrite radar_chart_total.
  apply parse_file_inr in Hp as (reader & _ & Hp).
  pose proof (parse_csv_inr to_float reader p Hp)
    as (header & _ & Hlen & _ & Hper & _).
  destruct (periods p) as [|p0 ps] eqn:Hperiods.
  { apply (f_equal length) in Hper. rewrite length_drop in Hper.
    simpl in Hper. lia. }
  cbn [bind ret]. eexists. split; [reflexivity|]. done.
Qed.

End ViewFacts.


(** X22. When [dashboard] returns, its context carries an error message
    exactly for a POST without a file or with a file [_parse_csv] rejects;
    it then carries nothing else: it is the initial context (empty table,
    empty charts, default highlight label) with the message, which is the
    missing-file message or the message of the error. A request that is
    not a POST gets the initial context, file or not. (A decoding error
    carries a message, as Python's do.) *)
Theorem dashboard_error_context
    (File : Type) (read_rows : File -> M (list (list str)))
    (to_float : str -> option float) (JSON : Type) (dumps : pyobj -> JSON)
    (request : Dashboard.Request File) (context : Dashboard.Context JSON) :
  (forall file msg, read_rows file = raise (ValueError msg) -> msg <> []) ->
  Dashboard.dashboard File read_rows to_float JSON dumps request
  = ret context ->
  let initial := Dashboard.initial_context JSON dumps in
  let parse_file := Dashboard.parse_file File read_rows to_float in
  (Dashboard.method File request <> u "POST" -> context = initial)
  /\ (Dashboard.error JSON context <> []
      <-> Dashboard.method File request = u "POST"
          /\ (Dashboard.grades_file File request = None
              \/ exists file e,
                   Dashboard.grades_file File request = Some file
                   /\ parse_file file = inl e))
  /\ (Dashboard.error JSON context <> [] ->
      context
      = Dashboard.set_error JSON initial (Dashboard.error JSON context)
      /\ (Dashboard.grades_file File request = None ->
          Dashboard.error JSON context = MissingFileMessage)
      /\ (forall file, Dashboard.grades_file File request = Some file ->
            parse_file file
            = inl (ValueError (Dashboard.error JSON context)))).
Proof.
  intros Hmsg Hrun initial parse_file. subst initial parse_file.
  unfold Dashboard.dashboard, str_eqb in Hrun.
  case_bool_decide as Hmethod.
  2:{ injection Hrun as <-. repeat split; try done.
      - intros [? _]. done. }
  destruct (Dashboard.grades_file File request) as [file|] eqn:Hfile.
  2:{ injection Hrun as <-. split; [done|]. split.
      - split; [intros _ | done]. split; [done | by left].
      - intros _. split; [done|]. split; [done|]. done. }
  pose proof (try_body_cases File read_rows to_float JSON dumps file)
    as Hbody.
  destruct (Dashboard.parse_file File read_rows to_float file)
    as [e|p] eqn:Hp.
  - rewrite Hbody in Hrun.
    destruct e as [msg | | |]; try done. injection Hrun as <-.
    assert (msg <> []) as Hne.
    { apply parse_file_inl in Hp as [Hp | [[= ->] | [[= ->] | [= ->]]]];
        [by eapply Hmsg | done..]. }
    split; [done|]. split.
    + split; [|done]. intros _. split; [done|]. right. by eexists _, _.
    + intros _. split; [done|]. split; [done|]. by intros file' [= <-].
  - destruct Hbody as (ctx & Hctx & Herr & _). rewrite Hctx in Hrun.
    injection Hrun as <-. split; [done|]. split.
    + split; [done|]. intros [_ [? | (file' & e & [= <-] & He)]]; [done|].
      congruence.
    + done.
Qed.

Lemma dashboard_error_context_witness :
  let read_rows := fun file : list (list str) => ret file in
  exists context,
    Dashboard.dashboard (list (list str)) read_rows PyFloat.float_of_str
      pyobj id
      {| Dashboard.method := u "POST";
         Dashboard.grades_file := Some [[u "Label"]] |}
    = ret context
    /\ ValueError (Dashboard.error pyobj context) = MalformedHeaderError
    /\ Dashboard.table_rows pyobj context = [].
Proof.
  intros read_rows.
  assert (Dashboard.parse_file (list (list str)) read_rows
            PyFloat.float_of_str [[u "Label"]]
          = inl MalformedHeaderError) as Hparse by (vm_compute; reflexivity).
  destruct (Dashboard.dashboard (list (list str)) read_rows
              PyFloat.float_of_str pyobj id
              {| Dashboard.method := u "POST";
                 Dashboard.grades_file := Some [[u "Label"]] |})
    as [e|context] eqn:Hrun; [vm_compute in Hrun; discriminate|].
  exists context. split; [reflexivity|].
  destruct (dashboard_error_context (list (list str)) read_rows
              PyFloat.float_of_str pyobj id _ context
              ltac:(discriminate) Hrun) as (_ & Hiff & Hfail).
  assert (Dashboard.error pyobj context <> []) as Herr.
  { apply Hiff. split; [reflexivity|]. right.
    exists [[u "Label"]], MalformedHeaderError. split; [reflexivity|].
    exact Hparse. }
  destruct (Hfail Herr) as (Hctx & _ & Hmsg).
  split.
  - specialize (Hmsg _ eq_refl). rewrite Hparse in Hmsg.
    by injection Hmsg as <-.
  - by rewrite Hctx.
Defined.


